(** * lock-pc-server: presence and status reconciliation core

    A shallow embedding of [server.js]: the in-memory connection registry
    ([pcConnections]), the [pc_settings] and [block_periods] tables it is
    mirrored into, the Socket.IO handlers ([register_pc], [pc_status],
    [disconnect], [identify]), [broadcastUpdate],
    [notifyScheduleChangeForUser], and the HTTP routes [/api/pcs],
    [/api/register-pc] and [/api/pc/:id/probe].

    Conventions
    - a JavaScript value that may be [undefined] or [null] is an [option];
      both are falsy and the handlers only ever test them for truthiness;
    - timestamps ([Date.now()], [new Date()]) are integers (milliseconds);
    - every object stored in [pcConnections] lives in an explicit heap, so
      that a reference held across an [await] (the probe's [conn]) keeps
      seeing the mutations of the other handlers;
    - [on_register_pc], [on_pc_status] and [on_disconnect] are the
      handlers with nothing else handled at their [await]s; the probe,
      whose waits are the subject of several properties, is interleaved
      with other events, and so is the announce in [register_pc_during];
    - a query reads or writes the store when it is issued;
    - the keys of [pcConnections] are its own: the property names it
      inherits from [Object.prototype] are outside the registry described
      here (see [ownKey]);
    - store queries succeed, except the write of [pc_status], whose failure
      the handler is specified to survive. *)

From Stdlib Require Import ZArith Lia.
From stdpp Require Import base option list strings gmap sorting.

Local Open Scope string_scope.
Local Open Scope Z_scope.
Local Open Scope list_scope.

(** ** JavaScript truthiness *)

Class Truthy (A : Type) := truthy : A → bool.
Global Hint Mode Truthy ! : typeclass_instances.

Global Instance truthy_bool : Truthy bool := λ b, b.
Global Instance truthy_string : Truthy string :=
  λ s, match s with EmptyString => false | String _ _ => true end.
Global Instance truthy_Z : Truthy Z :=
  λ z, match z with Z0 => false | _ => true end.
Global Instance truthy_option {A} `{Truthy A} : Truthy (option A) :=
  λ o, match o with Some a => truthy a | None => false end.

(** [a || b] on two possibly-missing values. *)
Definition js_or {A} `{Truthy A} (a b : option A) : option A :=
  if truthy a then a else b.

(** [a || d] where [d] is a literal. *)
Definition js_or_lit {A} `{Truthy A} (a : option A) (d : A) : A :=
  match a with
  | Some x => if truthy x then x else d
  | None => d
  end.

(** ** The persistent store (database.js) *)

(** A row of [pc_settings]; [pc_id] is the primary key, every other column
    is nullable. *)
Record pc_row := PcRow {
  pc_id : string;
  name : option string;
  last_seen : option Z;
  owner_id : option Z;
  ip : option string;
  last_status : option string;
  last_status_at : option Z
}.

(** A row of [block_periods] as the handlers send it: the [days] column is
    carried already decoded ([JSON.parse], with [[]] on a parse error). *)
Record block_period := BlockPeriod {
  bp_id : Z;
  user_id : option Z;
  from_time : option string;
  to_time : option string;
  days : list string
}.

Record database := Database {
  pc_settings : list pc_row;
  block_periods : list block_period
}.

Global Instance pc_row_eq_dec : EqDecision pc_row.
Proof. solve_decision. Defined.
Global Instance block_period_eq_dec : EqDecision block_period.
Proof. solve_decision. Defined.

(** [SELECT ... FROM pc_settings WHERE pc_id = $1], then [rows[0]]. *)
Definition selectPc (pcId : string) (t : list pc_row) : option pc_row :=
  List.find (λ r, bool_decide (pc_id r = pcId)) t.

(** [SELECT * FROM pc_settings WHERE owner_id = $1]. *)
Definition selectByOwner (userId : Z) (t : list pc_row) : list pc_row :=
  List.filter (λ r, bool_decide (owner_id r = Some userId)) t.

(** The live connection state kept for one pc id. A freshly created [{}] has
    every field [undefined]; [connected] is only ever read through
    [conn.connected || false] or a truthiness test, so [undefined] is [false]. *)
Record conn := Conn {
  connected : bool;
  socketId : option string;
  status : option string;
  lastStatusAt : option Z
}.

Definition empty_conn : conn := Conn false None None None.

Global Instance conn_eq_dec : EqDecision conn.
Proof. solve_decision. Defined.

(** [conn && conn.connected && conn.socketId] *)
Definition conn_live (c : option conn) : bool :=
  match c with
  | Some c => connected c && truthy (socketId c)
  | None => false
  end.

(** One element of a [pc_update] list. *)
Record pc_view := PcView {
  v_id : string;
  v_name : option string;
  v_connected : bool;
  v_socketId : option string;
  v_status : string;
  v_lastSeen : option Z;
  v_lastStatusAt : option Z;
  v_ownerId : option Z;
  v_ip : option string
}.

Global Instance pc_view_eq_dec : EqDecision pc_view.
Proof. solve_decision. Defined.

(** The status shown for a row: start from the persisted value
    ([row.last_status || 'Unknown']), override it with the in-memory one
    when that is set and is not ['Unknown']. *)
Definition mergedStatus (c : conn) (row : pc_row) : string :=
  let status0 := js_or_lit (last_status row) "Unknown" in
  match status c with
  | Some s => if truthy s && negb (bool_decide (s = "Unknown")) then s else status0
  | None => status0
  end.

(** The object literal built for a row in [/api/pcs], [identify] and
    [broadcastUpdate] (the three copies are the same text); [c] is
    [pcConnections[row.pc_id] || {}]. *)
Definition mergedView (c : conn) (row : pc_row) : pc_view :=
  {| v_id := pc_id row;
     v_name := name row;
     v_connected := connected c;
     v_socketId := js_or (socketId c) None;
     v_status := mergedStatus c row;
     v_lastSeen := last_seen row;
     v_lastStatusAt := js_or (last_status_at row) None;
     v_ownerId := js_or (owner_id row) None;
     v_ip := js_or (ip row) None |}.

(** ** Ordinary JavaScript objects used as maps

    [pcConnections] and [byOwner] are plain objects. Lookups only need the
    key, but [Object.keys] enumerates array-index keys first, in ascending
    numeric order, and then the other keys in insertion order; the reverse
    lookup by socket id and the order of the per-owner emissions follow that
    order. *)

Class PropertyKey (K : Type) := arrayIndex : K → option N.
Global Hint Mode PropertyKey ! : typeclass_instances.

Definition digit_value (a : Ascii.ascii) : option N :=
  let n := Ascii.N_of_ascii a in
  if ((48 <=? n) && (n <=? 57))%N then Some (n - 48)%N else None.

Fixpoint digits_value (acc : N) (s : string) : option N :=
  match s with
  | EmptyString => Some acc
  | String a s' =>
      match digit_value a with
      | Some d => digits_value (10 * acc + d)%N s'
      | None => None
      end
  end.

(** A string is an array index when it is the canonical decimal form of an
    integer below [2^32 - 1]. *)
Global Instance string_property_key : PropertyKey string := λ s,
  match s with
  | EmptyString => None
  | String a s' =>
      if (Ascii.N_of_ascii a =? 48)%N && negb (bool_decide (s' = EmptyString))
      then None
      else match digits_value 0%N s with
           | Some n => if (n <? 4294967295)%N then Some n else None
           | None => None
           end
  end.

(** A number used as a property key is converted to its decimal string. *)
Global Instance Z_property_key : PropertyKey Z := λ z,
  if ((0 <=? z) && (z <? 4294967295))%Z then Some (Z.to_N z) else None.

Module JsObject.
Section obj.
Context {K V : Type} `{EqDecision K} `{PropertyKey K}.

Definition t := list (K * V).

(** [o[k]] *)
Fixpoint get (k : K) (o : t) : option V :=
  match o with
  | [] => None
  | (k', v) :: o' => if decide (k' = k) then Some v else get k o'
  end.

Fixpoint replace (k : K) (v : V) (o : t) : t :=
  match o with
  | [] => []
  | (k', v') :: o' =>
      if decide (k' = k) then (k', v) :: o' else (k', v') :: replace k v o'
  end.

(** Where a new array-index key lands: after the smaller indices. *)
Fixpoint place_index (n : N) (k : K) (v : V) (o : t) : t :=
  match o with
  | [] => [(k, v)]
  | (k', v') :: o' =>
      match arrayIndex k' with
      | Some n' =>
          if (n' <? n)%N then (k', v') :: place_index n k v o'
          else (k, v) :: o
      | None => (k, v) :: o
      end
  end.

(** [o[k] = v] *)
Definition set (k : K) (v : V) (o : t) : t :=
  match get k o with
  | Some _ => replace k v o
  | None =>
      match arrayIndex k with
      | Some n => place_index n k v o
      | None => o ++ [(k, v)]
      end
  end.

(** [delete o[k]] *)
Fixpoint del (k : K) (o : t) : t :=
  match o with
  | [] => []
  | (k', v) :: o' =>
      if decide (k' = k) then del k o' else (k', v) :: del k o'
  end.

(** [Object.keys(o)] *)
Definition keys (o : t) : list K := o.*1.

End obj.
Global Arguments t : clear implicits.
End JsObject.

(** ** Server state *)

(** What the server keeps about a connected Socket.IO socket: the [pcId]
    tag the handlers attach to it, and the user id of its session. *)
Record socket := Socket {
  sock_pcId : option string;
  sess_userId : option Z
}.

Global Instance socket_eq_dec : EqDecision socket.
Proof. solve_decision. Defined.

(** [pcConnections] maps a pc id to a reference into [objs]; [sockets] is
    [io.sockets.sockets], a [Map] iterated in connection order. *)
Record world := World {
  pcConnections : JsObject.t string nat;
  objs : gmap nat conn;
  next_ref : nat;
  db : database;
  sockets : list (string * socket)
}.

Definition set_registry (o : JsObject.t string nat) (w : world) : world :=
  World o (objs w) (next_ref w) (db w) (sockets w).
Definition set_objs (h : gmap nat conn) (w : world) : world :=
  World (pcConnections w) h (next_ref w) (db w) (sockets w).
Definition set_pc_settings (t : list pc_row) (w : world) : world :=
  World (pcConnections w) (objs w) (next_ref w)
        (Database t (block_periods (db w))) (sockets w).
Definition set_sockets (s : list (string * socket)) (w : world) : world :=
  World (pcConnections w) (objs w) (next_ref w) (db w) s.

(** The object behind a reference. *)
Definition deref (w : world) (l : nat) : conn :=
  default empty_conn (objs w !! l).

(** [pcConnections[k]] as a reference, and as the object it denotes. *)
Definition connRef (w : world) (k : string) : option nat :=
  JsObject.get k (pcConnections w).
Definition pcConn (w : world) (k : string) : option conn :=
  deref w <$> connRef w k.

(** [pcConnections[k] || {}] *)
Definition connOrEmpty (w : world) (k : string) : conn :=
  default empty_conn (pcConn w k).

(** [if (!pcConnections[k]) pcConnections[k] = {}], returning the reference,
    for a key [k] that is not a property name inherited from
    [Object.prototype]. *)
Definition ensureConn (k : string) (w : world) : nat * world :=
  match connRef w k with
  | Some l => (l, w)
  | None =>
      let l := next_ref w in
      (l, World (JsObject.set k l (pcConnections w))
                (<[l := empty_conn]> (objs w)) (S l) (db w) (sockets w))
  end.

(** Field assignments through a reference. *)
Definition update (l : nat) (f : conn → conn) (w : world) : world :=
  set_objs (<[l := f (deref w l)]> (objs w)) w.

Definition with_connected (b : bool) (c : conn) : conn :=
  Conn b (socketId c) (status c) (lastStatusAt c).
Definition with_socketId (s : option string) (c : conn) : conn :=
  Conn (connected c) s (status c) (lastStatusAt c).
Definition with_status (s : option string) (c : conn) : conn :=
  Conn (connected c) (socketId c) s (lastStatusAt c).
Definition with_lastStatusAt (t : option Z) (c : conn) : conn :=
  Conn (connected c) (socketId c) (status c) t.

(** [socket.pcId = id] on the socket [sid]. *)
Definition tagSocket (sid : string) (id : string) (w : world) : world :=
  set_sockets
    (map (λ e : string * socket,
            if decide (e.1 = sid) then (e.1, Socket (Some id) (sess_userId e.2))
            else e)
         (sockets w)) w.

Definition socketOf (w : world) (sid : string) : option socket :=
  snd <$> List.find (λ e : string * socket, bool_decide (e.1 = sid)) (sockets w).

(** ** What the server sends *)

Inductive target :=
  | ToSocket (sid : string)        (* [io.to(socketId)], [socket.emit] *)
  | ToDashboard (ownerId : Z)      (* [io.to(`dashboard:${ownerId}`)] *)
.

Inductive message :=
  | PcUpdate (l : list pc_view)                (* ['pc_update'] *)
  | ScheduleUpdate (rows : list block_period)  (* ['schedule_update'] *)
  | StatusRequest (probeId : string)           (* ['status_request'] *)
  | Command (action : option string)           (* ['command'] *)
.

Record emit := Emit { em_to : target; em_msg : message }.

Global Instance target_eq_dec : EqDecision target.
Proof. solve_decision. Defined.
Global Instance message_eq_dec : EqDecision message.
Proof. solve_decision. Defined.
Global Instance emit_eq_dec : EqDecision emit.
Proof. solve_decision. Defined.

(** The row of a [pc_update] list for a persisted row, in state [w]. *)
Definition viewOf (w : world) (row : pc_row) : pc_view :=
  mergedView (connOrEmpty w (pc_id row)) row.

(** ** broadcastUpdate *)

(** [if (!byOwner[owner]) byOwner[owner] = []; byOwner[owner].push(v)] *)
Definition byOwner_push (owner : Z) (v : pc_view)
    (byOwner : JsObject.t Z (list pc_view)) : JsObject.t Z (list pc_view) :=
  JsObject.set owner (default [] (JsObject.get owner byOwner) ++ [v]) byOwner.

(** The body of [rows.forEach] in [broadcastUpdate]. *)
Definition groupRow (w : world) (byOwner : JsObject.t Z (list pc_view))
    (row : pc_row) : JsObject.t Z (list pc_view) :=
  match js_or (owner_id row) None with
  | Some owner =>
      if truthy owner
      then byOwner_push owner (viewOf w row) byOwner
      else byOwner
  | None => byOwner                               (* skip unowned *)
  end.

Definition groupByOwner (w : world) (rows : list pc_row) : JsObject.t Z (list pc_view) :=
  foldl (groupRow w) [] rows.

(** One [pc_update] per owner that has a device, to that owner's dashboard
    room. *)
Definition broadcastUpdate (w : world) : list emit :=
  map (λ e : Z * list pc_view, Emit (ToDashboard e.1) (PcUpdate e.2))
      (groupByOwner w (pc_settings (db w))).

(** ** GET /api/pcs *)

Inductive response (A : Type) :=
  | Json (body : A)                 (* 200 *)
  | Error (code : Z) (msg : string).
Global Arguments Json {A} body.
Global Arguments Error {A} code msg.

(** [requireAuth]: the session user id when it is set. *)
Definition requireAuth (session : option Z) : option Z :=
  if truthy session then session else None.

Definition api_pcs (session : option Z) (w : world) : response (list pc_view) :=
  match requireAuth session with
  | None => Error 401 "Unauthorized"
  | Some userId =>
      Json (map (viewOf w) (selectByOwner userId (pc_settings (db w))))
  end.

(** ** Store operations used by the handlers *)

(** SQL [COALESCE(a, b)]. *)
Definition coalesce {A} (a b : option A) : option A :=
  match a with Some _ => a | None => b end.

(** [a] sorts strictly before [b] under [ORDER BY last_seen DESC] (NULLs
    come first in descending order). *)
Definition seen_before (a b : option Z) : bool :=
  match a, b with
  | None, Some _ => true
  | Some x, Some y => y <? x
  | _, None => false
  end.

(** [SELECT pc_id, owner_id FROM pc_settings WHERE name = $1
     ORDER BY last_seen DESC LIMIT 1]; among rows seen at the same time the
    first one of the table is taken. *)
Definition findDeviceByName (nm : string) (t : list pc_row) : option pc_row :=
  foldl (λ best r,
           match best with
           | None => Some r
           | Some b => if seen_before (last_seen r) (last_seen b) then Some r else Some b
           end)
        None
        (List.filter (λ r, bool_decide (name r = Some nm)) t).

(** The upsert of the [register_pc] handler:
    [INSERT ... ON CONFLICT (pc_id) DO UPDATE SET name = EXCLUDED.name,
     last_seen = EXCLUDED.last_seen, ip = COALESCE(EXCLUDED.ip, pc_settings.ip),
     owner_id = COALESCE(EXCLUDED.owner_id, pc_settings.owner_id)]. *)
Definition upsertOnAnnounce (pcId nm : string) (now : Z) (ipv : option string)
    (owner : option Z) (t : list pc_row) : list pc_row :=
  match selectPc pcId t with
  | Some _ =>
      map (λ r, if decide (pc_id r = pcId)
                then PcRow pcId (Some nm) (Some now) (coalesce owner (owner_id r))
                           (coalesce ipv (ip r)) (last_status r) (last_status_at r)
                else r) t
  | None => t ++ [PcRow pcId (Some nm) (Some now) owner ipv None None]
  end.

(** The upsert of [POST /api/register-pc]: owner and ip are overwritten. *)
Definition upsertOnRegister (pcId nm : string) (now : Z) (owner : option Z)
    (ipv : option string) (t : list pc_row) : list pc_row :=
  match selectPc pcId t with
  | Some _ =>
      map (λ r, if decide (pc_id r = pcId)
                then PcRow pcId (Some nm) (Some now) owner ipv
                           (last_status r) (last_status_at r)
                else r) t
  | None => t ++ [PcRow pcId (Some nm) (Some now) owner ipv None None]
  end.

(** [UPDATE pc_settings SET last_status = $1, last_status_at = $2 WHERE pc_id = $3] *)
Definition updateStatus (pcId : string) (st : option string) (at_ : Z)
    (t : list pc_row) : list pc_row :=
  map (λ r, if decide (pc_id r = pcId)
            then PcRow (pc_id r) (name r) (last_seen r) (owner_id r) (ip r)
                       st (Some at_)
            else r) t.

(** [UPDATE pc_settings SET last_seen = $1 WHERE pc_id = $2] *)
Definition updateLastSeen (pcId : string) (now : Z) (t : list pc_row) : list pc_row :=
  map (λ r, if decide (pc_id r = pcId)
            then PcRow (pc_id r) (name r) (Some now) (owner_id r) (ip r)
                       (last_status r) (last_status_at r)
            else r) t.

(** [ORDER BY id DESC] *)
Definition id_desc (a b : block_period) : Prop := bp_id b ≤ bp_id a.
Global Instance id_desc_dec : RelDecision id_desc.
Proof. intros a b. unfold id_desc. apply _. Defined.

(** [SELECT ... FROM block_periods WHERE user_id = $1 ORDER BY id DESC] *)
Definition selectPeriods (userId : Z) (t : list block_period) : list block_period :=
  merge_sort id_desc
             (List.filter (λ p, bool_decide (user_id p = Some userId)) t).

(** ** Socket.IO handlers *)

(** Payload of [register_pc]. *)
Record register_data := RegisterData {
  rd_id : string;
  rd_name : option string;
  rd_clientType : option string;
  rd_localIp : option string
}.

(** Payload of [pc_status]; a missing payload has both fields unset. *)
Record status_data := StatusData {
  sd_id : option string;
  sd_status : option string
}.

(** Payload of [status_reply]. *)
Record reply_payload := ReplyPayload {
  rp_probeId : option string;
  rp_status : option string;
  rp_lastStatusAt : option Z
}.

(** [io.on('connection')]: the socket enters [io.sockets.sockets]. *)
Definition on_connect (sid : string) (session : option Z) (w : world) : world :=
  set_sockets (sockets w ++ [(sid, Socket None session)]) w.

(** If there is no status in memory, load it from the store; leave it unset
    when the store has none. *)
Definition hydrateStatus (id : string) (l : nat) (w : world) : world :=
  if truthy (status (deref w l)) then w
  else match selectPc id (pc_settings (db w)) with
       | Some r =>
           if truthy (last_status r) then update l (with_status (last_status r)) w
           else w
       | None => w
       end.

(** The owner carried by the socket's session, if it is authenticated. *)
Definition sessionOwner (w : world) (sid : string) : option Z :=
  match socketOf w sid with
  | Some s => if truthy (sess_userId s) then sess_userId s else None
  | None => None
  end.

(** The row found by display name, when a name was sent. *)
Definition existingByName (nm : option string) (w : world) : option pc_row :=
  match nm with
  | Some n => if truthy n then findDeviceByName n (pc_settings (db w)) else None
  | None => None
  end.

(** The tail of [register_pc]: read the owner of [pcId] and push the saved
    block periods to the PC if it is connected. *)
Definition pushScheduleOnRegister (pcId : string) (w : world) : list emit :=
  match selectPc pcId (pc_settings (db w)) with
  | Some r =>
      match owner_id r with
      | Some ownerId =>
          if truthy ownerId then
            let periods := selectPeriods ownerId (block_periods (db w)) in
            match pcConn w pcId with
            | Some c =>
                match socketId c with
                | Some s =>
                    if connected c && truthy s
                    then [Emit (ToSocket s) (ScheduleUpdate periods)]
                    else []
                | None => []
                end
            | None => []
            end
          else []
      | None => []
      end
  | None => []
  end.

(** The first part of [register_pc]: merge the connection state into the
    entry for [id] (created if absent) without touching a status that is
    already known, and tag the socket. *)
Definition announceConn (sid id : string) (w : world) : nat * world :=
  let '(l, w1) := ensureConn id w in
  let w2 := update l (with_socketId (Some sid)) (update l (with_connected true) w1) in
  (l, tagSocket sid id (hydrateStatus id l w2)).

(** [if (existingPcId && existingOwnerId) ownerId = existingOwnerId], over
    the owner of the socket's session. *)
Definition ownerIdToUse (existing : option pc_row) (w : world) (sid : string)
    : option Z :=
  if truthy (pc_id <$> existing) && truthy (existing ≫= owner_id)
  then existing ≫= owner_id
  else sessionOwner w sid.

(** [existingPcId && existingPcId !== id] *)
Definition mergesInto (existing : option pc_row) (id : string) : bool :=
  truthy (pc_id <$> existing) && negb (bool_decide (pc_id <$> existing = Some id)).

(** [socket.on('register_pc')] on socket [sid] at time [now], when no other
    event is handled while the handler waits for the store. *)
Definition on_register_pc (sid : string) (d : register_data) (now : Z)
    (w : world) : world * list emit :=
  let id := rd_id d in
  if decide (rd_clientType d = Some "pc_app") then
    let '(l, w4) := announceConn sid id w in
    (* look for an existing PC with this name *)
    let existing := existingByName (rd_name d) w4 in
    let finalPcId := js_or_lit (pc_id <$> existing) id in
    let w5 :=
      set_pc_settings
        (upsertOnAnnounce finalPcId (js_or_lit (rd_name d) id) now
                          (js_or (rd_localIp d) None) (ownerIdToUse existing w4 sid)
                          (pc_settings (db w4)))
        w4 in
    (* move the connection state under the existing id *)
    if mergesInto existing id then
      let w6 :=
        tagSocket sid finalPcId
          (set_registry
             (JsObject.del id (JsObject.set finalPcId l (pcConnections w5))) w5) in
      (w6, pushScheduleOnRegister finalPcId w6)
    else (w5, pushScheduleOnRegister id w5)
  else (w, []).

(** [Object.keys(pcConnections).find(k => pcConnections[k].socketId === socket.id)] *)
Definition keyOfSocket (w : world) (sid : string) : option string :=
  fst <$> List.find (λ e : string * nat,
                       bool_decide (socketId (deref w e.2) = Some sid))
                    (pcConnections w).

(** [... .find(...) || socket.pcId] *)
Definition resolveBySocket (w : world) (sid : string) : option string :=
  js_or (keyOfSocket w sid) (socketOf w sid ≫= sock_pcId).

(** The pc id a status report is about: the explicit one, else the one
    already associated with the socket. *)
Definition incomingId (w : world) (sid : string) (d : status_data) : option string :=
  if truthy (sd_id d) then sd_id d else resolveBySocket w sid.

(** The status stored by a report: the reported one, else the one already
    known, else ['Unknown']. *)
Definition reportedStatus (d : status_data) (c : conn) : string :=
  js_or_lit (js_or (sd_status d) (status c)) "Unknown".

(** [socket.on('pc_status')] on socket [sid] at time [now]; [write_ok] tells
    whether the [UPDATE] of the store succeeds. *)
Definition on_pc_status (sid : string) (d : status_data) (now : Z)
    (write_ok : bool) (w : world) : world * list emit :=
  match incomingId w sid d with
  | Some id =>
      if truthy id then
        let '(l, w1) := ensureConn id w in
        let st := reportedStatus d (deref w1 l) in
        let w2 :=
          update l (with_socketId (Some sid))
            (update l (with_connected true)
               (update l (with_lastStatusAt (Some now))
                  (update l (with_status (Some st)) w1))) in
        let w3 := tagSocket sid id w2 in
        let w4 :=
          if write_ok
          then set_pc_settings (updateStatus id (Some st) now (pc_settings (db w3))) w3
          else w3 in
        (w4, broadcastUpdate w4)
      else (w, [])
  | None => (w, [])
  end.

(** [socket.on('disconnect')]; the socket has left [io.sockets.sockets]. *)
Definition on_disconnect (sid : string) (now : Z) (w : world) : world * list emit :=
  let gone (w' : world) :=
    set_sockets (List.filter (λ e : string * socket, negb (bool_decide (e.1 = sid)))
                             (sockets w')) w' in
  match resolveBySocket w sid with
  | Some pcId =>
      if truthy pcId then
        let '(l, w1) := ensureConn pcId w in
        let w2 := update l (with_socketId None) (update l (with_connected false) w1) in
        let w3 := set_pc_settings (updateLastSeen pcId now (pc_settings (db w2))) w2 in
        (gone w3, broadcastUpdate w3)
      else (gone w, [])
  | None => (gone w, [])
  end.

(** [socket.on('identify')] with [type === 'dashboard']: the socket joins
    its owner's room and is sent one snapshot. *)
Definition on_identify (sid : string) (w : world) : list emit :=
  match sessionOwner w sid with
  | Some userId =>
      [Emit (ToSocket sid)
            (PcUpdate (map (viewOf w) (selectByOwner userId (pc_settings (db w)))))]
  | None => [Emit (ToSocket sid) (PcUpdate [])]
  end.

(** ** Schedule notifications *)

(** [notifyScheduleChangeForUser]: push the owner's block periods to each of
    the owner's connected PCs and to the owner's dashboards, unless the list
    is empty. *)
Definition notifyScheduleChangeForUser (userId : Z) (w : world) : list emit :=
  let rows := selectPeriods userId (block_periods (db w)) in
  flat_map
    (λ r, match pcConn w (pc_id r) with
          | Some c =>
              match socketId c with
              | Some s =>
                  if connected c && truthy s then
                    if bool_decide (0 < length rows)%nat
                    then [Emit (ToSocket s) (ScheduleUpdate rows)]
                    else []
                  else []
              | None => []
              end
          | None => []
          end)
    (selectByOwner userId (pc_settings (db w)))
  ++ (if bool_decide (0 < length rows)%nat
      then [Emit (ToDashboard userId) (ScheduleUpdate rows)]
      else []).

(** Body of [POST /api/register-pc]. *)
Record register_body := RegisterBody {
  rb_id : option string;
  rb_name : option string;
  rb_localIp : option string;
  rb_clientType : option string
}.

Definition api_register_pc (session : option Z) (b : register_body) (now : Z)
    (w : world) : world * list emit * response unit :=
  match requireAuth session with
  | None => (w, [], Error 401 "Unauthorized")
  | Some userId =>
      match rb_id b with
      | Some id =>
          if truthy id then
            let w1 :=
              if decide (rb_clientType b = Some "pc_app")
              then set_pc_settings
                     (upsertOnRegister id (js_or_lit (rb_name b) id) now (Some userId)
                                       (js_or (rb_localIp b) None) (pc_settings (db w))) w
              else w in
            let rows := selectPeriods userId (block_periods (db w1)) in
            let schedule :=
              match pcConn w1 id with
              | Some c =>
                  match socketId c with
                  | Some s =>
                      if bool_decide (rb_clientType b = Some "pc_app")
                         && connected c && truthy s
                      then if bool_decide (0 < length rows)%nat
                           then [Emit (ToSocket s) (ScheduleUpdate rows)]
                           else []
                      else []
                  | None => []
                  end
              | None => []
              end in
            (w1, schedule ++ broadcastUpdate w1, Json ())
          else (w, [], Error 400 "pc id required")
      | None => (w, [], Error 400 "pc id required")
      end
  end.

(** ** Events and time

    While the probe waits, the other handlers keep running. The environment
    of a probe is a timeline of incoming events, each with the delay (in
    milliseconds) since the previous one; timers fire exactly when due. *)

Inductive event :=
  | EvConnect (sid : string) (session : option Z)
  | EvRegisterPc (sid : string) (d : register_data)
  | EvPcStatus (sid : string) (d : status_data) (write_ok : bool)
  | EvStatusReply (sid : string) (p : reply_payload)
  | EvDisconnect (sid : string).

Definition timeline := list (nat * event).

(** The handlers registered in [io.on('connection')]; the global
    [status_reply] listener only logs. *)
Definition handle (now : Z) (e : event) (w : world) : world * list emit :=
  match e with
  | EvConnect sid session => (on_connect sid session w, [])
  | EvRegisterPc sid d => on_register_pc sid d now w
  | EvPcStatus sid d write_ok => on_pc_status sid d now write_ok w
  | EvStatusReply _ _ => (w, [])
  | EvDisconnect sid => on_disconnect sid now w
  end.

(** State of a waiting request: the server state, the clock, what is left
    of the timeline and what has been sent so far. *)
Record running := Running {
  r_world : world;
  r_now : Z;
  r_rest : timeline;
  r_out : list emit
}.

(** [await new Promise(r => setTimeout(r, ms))]: the events due within the
    next [ms] milliseconds are handled, in order, before the timer fires. *)
Fixpoint sleep (ms : nat) (now : Z) (tl : timeline) (w : world) (out : list emit)
    : running :=
  match tl with
  | [] => Running w (now + Z.of_nat ms) [] out
  | (d, e) :: rest =>
      if (d <=? ms)%nat then
        let '(w', o) := handle (now + Z.of_nat d) e w in
        sleep (ms - d) (now + Z.of_nat d) rest w' (out ++ o)
      else Running w (now + Z.of_nat ms) (((d - ms)%nat, e) :: rest) out
  end.

(** ** GET /api/pc/:id/probe *)

Inductive probe_body :=
  | Probed (st : string) (lastAt : option Z)   (* [{status, lastStatusAt, probed: true}] *)
  | Stale (st : string) (lastAt : option Z)    (* [{status, lastStatusAt, stale: true}] *)
.

Global Instance probe_body_eq_dec : EqDecision probe_body.
Proof. solve_decision. Defined.

Definition scanTimeoutMs : nat := 2000.
Definition scanIntervalMs : nat := 100.
Definition replyTimeoutMs : nat := 3000.
Definition pollTimeoutMs : Z := 3000.
Definition pollIntervalMs : nat := 100.

(** The first socket of [io.sockets.sockets] tagged with [pcId]. *)
Definition socketTagged (w : world) (pcId : string) : option string :=
  fst <$> List.find (λ e : string * socket, bool_decide (sock_pcId e.2 = Some pcId))
                    (sockets w).

(** A tagged socket was found: [conn = pcConnections[pcId] = pcConnections[pcId] || {}]
    and the three assignments that follow. *)
Definition adoptSocket (pcId sid : string) (w : world) : nat * world :=
  let '(l, w1) := ensureConn pcId w in
  let w2 := update l (with_socketId (Some sid)) (update l (with_connected true) w1) in
  (l, update l (λ c, with_status (Some (js_or_lit (status c) "Unknown")) c) w2).

(** One pass of the rescan: pick up an entry that has a socket id, else
    adopt the first socket tagged with [pcId]. *)
Definition scanOnce (pcId : string) (w : world) : option (nat * world) :=
  let viaSockets :=
    match socketTagged w pcId with
    | Some sid => Some (adoptSocket pcId sid w)
    | None => None
    end in
  match connRef w pcId with
  | Some l => if truthy (socketId (deref w l)) then Some (l, w) else viaSockets
  | None => viaSockets
  end.

(** The rescan loop [while (!foundConn && Date.now() - scanStart < scanTimeoutMs)].
    [conn] is the reference held by the request. [fuel] only bounds the
    recursion: the guard fails after [scanTimeoutMs / scanIntervalMs] sleeps. *)
Fixpoint scanLoop (fuel : nat) (pcId : string) (scanStart : Z) (conn : option nat)
    (r : running) : option nat * running :=
  if r_now r - scanStart <? Z.of_nat scanTimeoutMs then
    match fuel with
    | O => (conn, r)
    | S fuel' =>
        match scanOnce pcId (r_world r) with
        | Some (l, w') => (Some l, Running w' (r_now r) (r_rest r) (r_out r))
        | None =>
            scanLoop fuel' pcId scanStart conn
                     (sleep scanIntervalMs (r_now r) (r_rest r) (r_world r) (r_out r))
        end
    end
  else (conn, r).

Definition scanFuel : nat := scanTimeoutMs / scanIntervalMs.

(** What the fast path resolves to: [{status, lastStatusAt}]. *)
Definition reply := (option string * Z)%type.

(** The one-shot [status_reply] listener of the fast path. *)
Definition replyHandler (probeId : string) (now : Z) (p : reply_payload) : option reply :=
  if bool_decide (rp_probeId p = Some probeId)
  then Some (rp_status p, js_or_lit (rp_lastStatusAt p) now)
  else None.

(** The one-shot [pc_status] listener of the fast path; [c] is the held
    connection object when the listener runs. *)
Definition pcStatusHandler (pcId : string) (now : Z) (c : conn) (d : status_data)
    : option reply :=
  if (truthy (sd_id d) && bool_decide (sd_id d = Some pcId)) || truthy (sd_status d)
  then Some (Some (js_or_lit (js_or (sd_status d) (status c)) "Unknown"), now)
  else None.

(** [await Promise.race([replyPromise, timeout])] for [ms] more milliseconds.
    Every event is first handled by the server's own listeners; an event of
    socket [sid] then runs the corresponding one-shot listener if it is
    still armed. The first listener that resolves ends the wait. *)
Fixpoint race (ms : nat) (sid pcId probeId : string) (l : nat)
    (armedReply armedStatus : bool) (now : Z) (tl : timeline) (w : world)
    (out : list emit) : option reply * running :=
  match tl with
  | [] => (None, Running w (now + Z.of_nat ms) [] out)
  | (d, e) :: rest =>
      if (d <=? ms)%nat then
        let now' := now + Z.of_nat d in
        let '(w', o) := handle now' e w in
        let continue (aR aS : bool) :=
          race (ms - d) sid pcId probeId l aR aS now' rest w' (out ++ o) in
        match e with
        | EvStatusReply sid' p =>
            if armedReply && bool_decide (sid' = sid) then
              match replyHandler probeId now' p with
              | Some rep => (Some rep, Running w' now' rest (out ++ o))
              | None => continue false armedStatus
              end
            else continue armedReply armedStatus
        | EvPcStatus sid' sd _ =>
            if armedStatus && bool_decide (sid' = sid) then
              match pcStatusHandler pcId now' (deref w' l) sd with
              | Some rep => (Some rep, Running w' now' rest (out ++ o))
              | None => continue armedReply false
              end
            else continue armedReply armedStatus
        | _ => continue armedReply armedStatus
        end
      else (None, Running w (now + Z.of_nat ms) (((d - ms)%nat, e) :: rest) out)
  end.

(** The reply is normalised into the held connection object. *)
Definition applyReply (l : nat) (rep : reply) (r : running) : running :=
  let w := r_world r in
  let st := js_or_lit (js_or rep.1 (status (deref w l))) "Unknown" in
  let w1 := update l (with_status (Some st)) w in
  let w2 := update l (with_lastStatusAt (Some (js_or_lit (Some rep.2) (r_now r)))) w1 in
  Running w2 (r_now r) (r_rest r) (r_out r).

(** The legacy polling loop [while (elapsed < timeoutMs)]. *)
Fixpoint pollLoop (fuel : nat) (elapsed start : Z) (l : nat) (r : running) : running :=
  if elapsed <? pollTimeoutMs then
    match fuel with
    | O => r
    | S fuel' =>
        let last := js_or_lit (lastStatusAt (deref (r_world r) l)) 0 in
        if start <=? last then r
        else pollLoop fuel' (elapsed + Z.of_nat pollIntervalMs) start l
                      (sleep pollIntervalMs (r_now r) (r_rest r) (r_world r) (r_out r))
    end
  else r.

Definition pollFuel : nat := Z.to_nat pollTimeoutMs / pollIntervalMs.

Record probe_run := ProbeRun {
  pr_response : response probe_body;
  pr_state : running
}.

Definition offlineMessage : string :=
  "PC is offline or not connected (may be reconnecting). Retry after a few seconds.".

(** No live connection: answer from the persisted status, or 503. *)
Definition probeOffline (pcId : string) (r : running) : probe_run :=
  let offline := ProbeRun (Error 503 offlineMessage) r in
  match selectPc pcId (pc_settings (db (r_world r))) with
  | Some row =>
      match last_status row with
      | Some st => if truthy st then ProbeRun (Json (Stale st (last_status_at row))) r
                   else offline
      | None => offline
      end
  | None => offline
  end.

(** The fast path, when the socket of the connection is still there. *)
Definition probeFastPath (pcId probeId : string) (l : nat) (r : running)
    : bool * running :=
  match socketId (deref (r_world r) l) with
  | Some sid =>
      match socketOf (r_world r) sid with
      | Some _ =>
          let out := r_out r ++ [Emit (ToSocket sid) (StatusRequest probeId)] in
          match race replyTimeoutMs sid pcId probeId l true true
                     (r_now r) (r_rest r) (r_world r) out with
          | (Some rep, r') => (true, applyReply l rep r')
          | (None, r') => (false, r')
          end
      | None => (false, r)
      end
  | None => (false, r)
  end.

(** A live connection was resolved: fast path, then the polling fallback. *)
Definition probeLive (pcId probeId : string) (l : nat) (r : running) : probe_run :=
  let start := r_now r in
  let '(replied, r1) := probeFastPath pcId probeId l r in
  let r2 := if replied then r1 else pollLoop pollFuel 0 start l r1 in
  let c := deref (r_world r2) l in
  ProbeRun (Json (Probed (js_or_lit (status c) "Unknown") (js_or (lastStatusAt c) None))) r2.

(** The handler. [probeId] stands for the token built from the clock and
    [Math.random()]; [now] is the time of the request and [tl] what happens
    while it waits. *)
Definition api_pc_probe (session : option Z) (pcId probeId : string) (now : Z)
    (tl : timeline) (w : world) : probe_run :=
  let r0 := Running w now tl [] in
  match requireAuth session with
  | None => ProbeRun (Error 401 "Unauthorized") r0
  | Some userId =>
      match selectPc pcId (pc_settings (db w)) with
      | Some row =>
          if decide (owner_id row = Some userId) then
            let conn0 := connRef w pcId in
            let '(conn, r1) :=
              if conn_live (deref w <$> conn0) then (conn0, r0)
              else scanLoop scanFuel pcId now conn0 r0 in
            match conn with
            | Some l =>
                if conn_live (Some (deref (r_world r1) l))
                then probeLive pcId probeId l r1
                else probeOffline pcId r1
            | None => probeOffline pcId r1
            end
          else ProbeRun (Error 403 "Forbidden") r0
      | None => ProbeRun (Error 403 "Forbidden") r0
      end
  end.

(** ** Notions used to state the properties *)

(** The merged-view policy in the words of the specification: "effective
    status = in-memory status if present and not [Unknown], else persisted
    [last_status], else literal [Unknown]". A status is present when it is
    set and is not the empty string. *)
Definition present (s : option string) : option string :=
  match s with
  | Some s => if decide (s = "") then None else Some s
  | None => None
  end.

Definition spec_effective_status (inMemory persisted : option string) : string :=
  match present inMemory with
  | Some s =>
      if decide (s = "Unknown") then default "Unknown" (present persisted) else s
  | None => default "Unknown" (present persisted)
  end.




(** An event that resolves the fast path of a probe of [pcId] sent to socket
    [sid] with token [probeId]: a [status_reply] of that socket carrying the
    token, or a [pc_status] of that socket that has a status or names the
    device. *)
Definition answers (sid pcId probeId : string) (e : event) : bool :=
  match e with
  | EvStatusReply sid' p =>
      bool_decide (sid' = sid) && bool_decide (rp_probeId p = Some probeId)
  | EvPcStatus sid' d _ =>
      bool_decide (sid' = sid)
      && ((truthy (sd_id d) && bool_decide (sd_id d = Some pcId)) || truthy (sd_status d))
  | _ => false
  end.

(** No such event is due within the next [ms] milliseconds. *)
Fixpoint unanswered (ms : nat) (sid pcId probeId : string) (tl : timeline) : bool :=
  match tl with
  | [] => true
  | (d, e) :: rest =>
      if (d <=? ms)%nat
      then negb (answers sid pcId probeId e) && unanswered (ms - d) sid pcId probeId rest
      else true
  end.

(** The state of the server [ms] milliseconds after [now], left to itself. *)
Definition worldAfter (ms : nat) (now : Z) (tl : timeline) (w : world) : world :=
  r_world (sleep ms now tl w []).

(** ** Sample states and inputs *)

Module Sample.
Definition lab : pc_row :=
  PcRow "tmp1" (Some "Lab-PC") (Some 1000) (Some 7) None (Some "Unlocked") (Some 900).
Definition den : pc_row :=
  PcRow "tmp9" (Some "Den-PC") (Some 500) (Some 7) None None None.
Definition stray : pc_row :=
  PcRow "tmp5" (Some "Stray") (Some 700) None None (Some "Locked") (Some 650).

(** [tmp1] is connected on socket [s1] and has reported [Locked]; [tmp9]
    and [tmp5] have never connected. *)
Definition w0 : world :=
  World [("tmp1", 0%nat)]
        {[ 0%nat := Conn true (Some "s1") (Some "Locked") (Some 950) ]}
        1
        (Database [lab; den; stray] [])
        [("s1", Socket (Some "tmp1") None)].

(** Nothing in memory yet; socket [s1] has just connected. *)
Definition fresh : world :=
  World [] ∅ 0 (Database [lab; den; stray] []) [("s1", Socket None None)].

Definition announce_lab : register_data :=
  RegisterData "tmp1" (Some "Lab-PC") (Some "pc_app") None.

Definition report_lab : status_data := StatusData (Some "tmp1") (Some "Locked").

(** A report for a pc id that has no row in [pc_settings]. *)
Definition report_unregistered : status_data :=
  StatusData (Some "tmp7") (Some "Locked").

(** A report that does not name the device, and one that names it but
    carries no status. *)
Definition anonymous_report : status_data := StatusData None (Some "Locked").
Definition empty_report : status_data := StatusData (Some "tmp1") None.

(** The same device after a reinstall: a new id, the same name; and its
    status report under the new id. *)
Definition reannounce : register_data :=
  RegisterData "tmp2" (Some "Lab-PC") (Some "pc_app") None.
Definition report_new_id : status_data := StatusData (Some "tmp2") (Some "Locked").




(** [tmp1] is connected on [s1]; the last thing known about it is
    ['Unknown'], recorded at 950. *)
Definition unknown_live : world :=
  World [("tmp1", 0%nat)]
        {[ 0%nat := Conn true (Some "s1") (Some "Unknown") (Some 950) ]}
        1
        (Database [lab; den; stray] [])
        [("s1", Socket (Some "tmp1") None)].

(** The device answers the probe ["tok"] after 10 ms. *)
Definition answer : timeline :=
  [(10%nat, EvStatusReply "s1" (ReplyPayload (Some "tok") (Some "Unknown") (Some 950)))].

(** Somebody else reports a status 150 ms into the wait. *)
Definition bystander : timeline :=
  [(150%nat, EvPcStatus "s9" (StatusData (Some "tmp5") (Some "Locked")) true)].
End Sample.

(** ** More of the server: invariants, commands, block periods *)

(** The registry holds no sharing: the keys of [pcConnections] are distinct,
    two different pc ids never refer to the same connection object, and
    every reference has been allocated. *)
Definition registry_ok (w : world) : Prop :=
  NoDup (JsObject.keys (pcConnections w)) ∧
  (∀ k k' l, connRef w k = Some l → connRef w k' = Some l → k = k') ∧
  (∀ k l, connRef w k = Some l → (l < next_ref w)%nat).

(** ** Keys that are not the registry's own

    [pcConnections] is a plain object literal, so it inherits the
    properties of [Object.prototype]. For one of these names
    [pcConnections[k]] is truthy although the registry has no such entry,
    [if (!pcConnections[k]) pcConnections[k] = {}] creates nothing, and for
    ['__proto__'] the handlers write their fields on [Object.prototype]
    itself, where every entry that lacks a field of its own reads them.
    [ensureConn] describes none of this: the registry of this development
    holds own keys only, and the properties below that depend on it assume
    that the pc ids in play are not among these names. *)
Definition inheritedKeys : list string :=
  ["__proto__"; "constructor"; "hasOwnProperty"; "isPrototypeOf";
   "propertyIsEnumerable"; "toLocaleString"; "toString"; "valueOf";
   "__defineGetter__"; "__defineSetter__"; "__lookupGetter__"; "__lookupSetter__"].

Definition ownKey (k : string) : Prop := k ∉ inheritedKeys.

Global Instance ownKey_dec (k : string) : Decision (ownKey k).
Proof. unfold ownKey. apply _. Defined.

(** A world whose pc ids are all own keys: those of the registry, of the
    rows of [pc_settings], and of the tags left on the sockets. *)
Definition ordinaryWorld (w : world) : Prop :=
  Forall ownKey (JsObject.keys (pcConnections w)) ∧
  Forall (λ r, ownKey (pc_id r)) (pc_settings (db w)) ∧
  Forall (λ e : string * socket, ∀ k, sock_pcId e.2 = Some k → ownKey k) (sockets w).



(** ** [register_pc] and what is handled while it waits

    [register_pc] is an [async] function: at each [await] the event loop is
    free to run the handler of another event before the announce goes on.
    [on_register_pc] is the handler when nothing is handled in between; the
    definitions below follow the same lines of [server.js] with one other
    event handled at one of these points.

    The other event is given by its effect [ev] on the world (for a status
    report, the registry writes of lines 766-771 and the [UPDATE] issued at
    line 781; what it sends is not part of this model). Its arrival is a
    position: 0 before the first line of the announce, then while the
    announce waits for 1 the persisted status (line 625), 2 the lookup by
    name (line 663), 3 the upsert (line 693), 4 the owner (line 717), 5 the
    block periods (line 724), and 6 after its last line. An [await] that the
    announce does not reach does not yield: the event is then handled at the
    next one that is reached. A query reads or writes the store when it is
    issued; its result is used when the announce resumes. *)
Record pending := Pending {
  p_world : world;
  p_handled : bool
}.

(** The [await] at position [j], for an event that arrives at position [i]. *)
Definition await (j i : nat) (ev : world → world) (p : pending) : pending :=
  if negb (p_handled p) && (i <=? j)%nat then Pending (ev (p_world p)) true else p.

Definition onWorld (f : world → world) (p : pending) : pending :=
  Pending (f (p_world p)) (p_handled p).

(** Lines 617-619. *)
Definition markConnected (sid id : string) (w : world) : world :=
  let '(l, w1) := ensureConn id w in
  update l (with_socketId (Some sid)) (update l (with_connected true) w1).

(** Line 627: [pcConnections[id].status = rows[0].last_status], on the
    entry found when the announce resumes; the [TypeError] of a missing
    entry is caught at line 630. *)
Definition assignStatus (id : string) (st : option string) (w : world) : world :=
  match connRef w id with
  | Some l => update l (with_status st) w
  | None => w
  end.

(** Lines 623-635: the status is tested before the query is awaited and
    assigned after it. *)
Definition loadStatus (id : string) (i : nat) (ev : world → world) (p : pending)
    : pending :=
  if truthy (status (connOrEmpty (p_world p) id)) then p
  else
    let looked := selectPc id (pc_settings (db (p_world p))) ≫= last_status in
    let p1 := await 1 i ev p in
    if truthy looked then onWorld (assignStatus id looked) p1 else p1.

(** Lines 659-674: the lookup by name, awaited only when a name was sent. *)
Definition lookupByName (d : register_data) (i : nat) (ev : world → world)
    (p : pending) : option pc_row * pending :=
  (existingByName (rd_name d) (p_world p),
   if truthy (rd_name d) then await 2 i ev p else p).

(** Lines 677-693: the upsert of the row of the final id; [owner] is the
    owner carried by the session of the socket. *)
Definition upsertAnnounced (d : register_data) (now : Z) (existing : option pc_row)
    (owner : option Z) (i : nat) (ev : world → world) (p : pending) : pending :=
  let id := rd_id d in
  let ownerId :=
    if truthy (pc_id <$> existing) && truthy (existing ≫= owner_id)
    then existing ≫= owner_id else owner in
  let finalPcId := js_or_lit (pc_id <$> existing) id in
  await 3 i ev
    (onWorld (λ w, set_pc_settings
                     (upsertOnAnnounce finalPcId (js_or_lit (rd_name d) id) now
                                       (js_or (rd_localIp d) None) ownerId
                                       (pc_settings (db w))) w) p).

(** Lines 697-704: the entry found under [id] when the announce resumes is
    moved under the existing id. When that entry is gone the source stores
    [undefined] under the existing id, which no registry of this model
    describes: there is no result then. *)
Definition mergeEntry (sid id : string) (existing : option pc_row) (w : world)
    : option world :=
  if mergesInto existing id then
    let finalPcId := js_or_lit (pc_id <$> existing) id in
    match connRef w id with
    | Some l =>
        Some (tagSocket sid finalPcId
                (set_registry
                   (JsObject.del id (JsObject.set finalPcId l (pcConnections w))) w))
    | None => None
    end
  else Some w.

(** Lines 715-735: the owner is read, then the periods, then the entry. *)
Definition pushSchedule (pcId : string) (i : nat) (ev : world → world) (p : pending)
    : list emit * pending :=
  let row := selectPc pcId (pc_settings (db (p_world p))) in
  let p1 := await 4 i ev p in
  match row ≫= owner_id with
  | Some ownerId =>
      if truthy ownerId then
        let periods := selectPeriods ownerId (block_periods (db (p_world p1))) in
        let p2 := await 5 i ev p1 in
        (match pcConn (p_world p2) pcId with
         | Some c =>
             match socketId c with
             | Some s =>
                 if connected c && truthy s
                 then [Emit (ToSocket s) (ScheduleUpdate periods)]
                 else []
             | None => []
             end
         | None => []
         end, p2)
      else ([], p1)
  | None => ([], p1)
  end.

(** Lines 613-706 for a desktop client: the pc id used by the rest of the
    handler, and the state when the merge is done. The session of the
    socket is read where the handler starts: it belongs to the socket
    object and never changes. *)
Definition announcePrefix (sid : string) (d : register_data) (now : Z) (i : nat)
    (ev : world → world) (p0 : pending) : option (string * pending) :=
  let id := rd_id d in
  let owner := sessionOwner (p_world p0) sid in
  let p1 := onWorld (markConnected sid id) p0 in
  let p2 := onWorld (tagSocket sid id) (loadStatus id i ev p1) in
  let '(existing, p3) := lookupByName d i ev p2 in
  let p4 := upsertAnnounced d now existing owner i ev p3 in
  match mergeEntry sid id existing (p_world p4) with
  | Some w5 =>
      Some (if mergesInto existing id then js_or_lit (pc_id <$> existing) id else id,
            Pending w5 (p_handled p4))
  | None => None
  end.

(** [socket.on('register_pc')] on socket [sid] at time [now], with the
    event [ev] arriving at position [i]: the final world and what the
    announce itself sends. From position 7 on nothing arrives. *)
Definition register_pc_during (sid : string) (d : register_data) (now : Z) (i : nat)
    (ev : world → world) (w : world) : option (world * list emit) :=
  let p0 := await 0 i ev (Pending w false) in
  if decide (rd_clientType d = Some "pc_app") then
    match announcePrefix sid d now i ev p0 with
    | Some (pcId, p5) =>
        let '(out, p6) := pushSchedule pcId i ev p5 in
        Some (p_world (await 6 i ev p6), out)
    | None => None
    end
  else Some (p_world (await 6 i ev p0), []).

(** The announce loads a status from the store: none is known in memory
    and the row of [id] has one. *)
Definition loadsStatus (id : string) (w : world) : bool :=
  negb (truthy (status (connOrEmpty w id))) &&
  truthy (selectPc id (pc_settings (db w)) ≫= last_status).

(** The lookup by name does not lead to another identity: it finds no row,
    or the row of [id] itself. *)
Definition sameIdentity (nm : option string) (id : string) (w : world) : Prop :=
  ∀ a, existingByName nm w = Some a → pc_id a = id.

(** A state of the announce in which the registry is [R] and, once the
    other event has been handled, the entry of [id] is [c]. *)
Definition settled (R : JsObject.t string nat) (id : string) (c : conn)
    (p : pending) : Prop :=
  pcConnections (p_world p) = R ∧
  (p_handled p = true → pcConn (p_world p) id = Some c).

(** The effect of a status report on the world. *)
Definition statusReport (sid : string) (d : status_data) (now : Z) (write_ok : bool)
    (w : world) : world :=
  (on_pc_status sid d now write_ok w).1.

(** A run of status reports for [id] on socket [sid]: each report is the
    status it carries (if any), its time, and whether the store write
    succeeds. *)
Definition report := (option string * Z * bool)%type.

Definition runReports (sid id : string) (rs : list report) (w : world) : world :=
  foldl (λ w0 (r : report),
           (on_pc_status sid (StatusData (Some id) r.1.1) r.1.2 r.2 w0).1)
        w rs.

(** The most recent non-empty status of a run, over what was known. *)
Definition lastReported (known : option string) (rs : list report) : option string :=
  foldl (λ acc (r : report), js_or r.1.1 acc) known rs.

(** ** POST /api/command *)

(** The route answers [{success, message}]; [log_ok] tells whether the
    insert into [audit_logs] succeeds. The row written to [audit_logs] is
    returned beside the emissions. *)
Definition api_command (session : option Z) (id command : string) (log_ok : bool)
    (w : world) : list emit * option (string * string) * response string :=
  match requireAuth session with
  | None => ([], None, Error 401 "Unauthorized")
  | Some _ =>
      match pcConn w id with
      | Some c =>
          match socketId c with
          | Some s =>
              if connected c && truthy s then
                let sent := [Emit (ToSocket s) (Command (Some command))] in
                if log_ok
                then (sent, Some (id, command),
                      Json ("Sent " +:+ command +:+ " to " +:+ id))
                else (sent, None, Error 500 "Failed to log command")
              else ([], None, Error 400 "PC is offline or unknown")
          | None => ([], None, Error 400 "PC is offline or unknown")
          end
      | None => ([], None, Error 400 "PC is offline or unknown")
      end
  end.

(** ** The block-period routes *)

Definition set_block_periods (t : list block_period) (w : world) : world :=
  World (pcConnections w) (objs w) (next_ref w)
        (Database (pc_settings (db w)) t) (sockets w).


(** [POST /api/block-period]; [newId] is the id drawn from the sequence of
    the table by [INSERT ... RETURNING id]. The answer is
    [{id, from, to, days}]. *)
Definition api_block_period_create (session : option Z)
    (from to : option string) (ds : list string) (newId : Z) (w : world)
    : world * list emit * response (Z * option string * option string * list string) :=
  match requireAuth session with
  | None => (w, [], Error 401 "Unauthorized")
  | Some userId =>
      let p := BlockPeriod newId (Some userId) from to ds in
      let w1 := set_block_periods (block_periods (db w) ++ [p]) w in
      (w1, notifyScheduleChangeForUser userId w1, Json (newId, from, to, ds))
  end.

(** The [id] column of [block_periods] is a PostgreSQL [integer]: a value
    of [:id] outside its range makes the query fail. *)
Definition int4 (z : Z) : bool := (-2147483648 <=? z) && (z <=? 2147483647).

(** [DELETE /api/block-period/:id], for a numeric [:id]:
    [DELETE FROM block_periods WHERE id = $1 AND user_id = $2]. When the
    query fails the route answers 500 and notifies nobody. *)
Definition api_block_period_delete (session : option Z) (id : Z) (w : world)
    : world * list emit * response unit :=
  match requireAuth session with
  | None => (w, [], Error 401 "Unauthorized")
  | Some userId =>
      if int4 id then
        let w1 :=
          set_block_periods
            (List.filter (λ p, negb (bool_decide (bp_id p = id)
                                     && bool_decide (user_id p = Some userId)))
                         (block_periods (db w))) w in
        (w1, notifyScheduleChangeForUser userId w1, Json ())
      else (w, [], Error 500 "Failed to delete block period.")
  end.


(** ** Notions used to state the properties of the probe's fast path *)

(** The time a timeline takes. *)
Definition duration (tl : timeline) : nat := foldr (λ de n, (de.1 + n)%nat) 0%nat tl.

(** An event that runs one of the one-shot listeners a probe puts on the
    socket [sid]: any [status_reply] or [pc_status] of that socket. *)
Definition heardOn (sid : string) (e : event) : bool :=
  match e with
  | EvStatusReply sid' _ | EvPcStatus sid' _ _ => bool_decide (sid' = sid)
  | _ => false
  end.

(** None of the events is heard by the probe. *)
Definition unheard (sid : string) (tl : timeline) : bool :=
  forallb (λ de : nat * event, negb (heardOn sid de.2)) tl.

(** The timeline holds nothing but [status_reply] events. *)
Definition onlyReplies (tl : timeline) : bool :=
  forallb (λ de : nat * event,
             match de.2 with EvStatusReply _ _ => true | _ => false end) tl.

(** ** The status writer (worker)

    A separate process buffers the status messages it receives and writes
    them to [pc_settings] in batches. Timestamps are numbers (milliseconds);
    the payload of a message is taken as parsed. *)

(** A JavaScript [Map] with string keys: entries are kept in insertion
    order, and [set] on a key that is present keeps its place. *)
Module JsMap.
Definition t (V : Type) := list (string * V).

Definition get {V} (k : string) (m : t V) : option V := JsObject.get k m.

Definition set {V} (k : string) (v : V) (m : t V) : t V :=
  match JsObject.get k m with
  | Some _ => JsObject.replace k v m
  | None => m ++ [(k, v)]
  end.

(** [Array.from(m.values())] *)
Definition values {V} (m : t V) : list V := m.*2.
End JsMap.

Module Worker.
(** A buffered entry [{ pcId, status, lastStatusAt }]. *)
Record item := Item {
  it_pcId : string;
  it_status : string;
  it_lastStatusAt : Z
}.

(** The buffer of the worker and the table it writes. *)
Record state := State {
  buffer : list item;
  table : list pc_row
}.

(** The body of the deduplication loop: keep, for each pc id, the entry
    with the most recent [lastStatusAt]. *)
Definition dedupStep (dedup : JsMap.t item) (it : item) : JsMap.t item :=
  match JsMap.get (it_pcId it) dedup with
  | Some prev =>
      if truthy (it_lastStatusAt it) && (it_lastStatusAt prev <? it_lastStatusAt it)
      then JsMap.set (it_pcId it) it dedup
      else dedup
  | None => JsMap.set (it_pcId it) it dedup
  end.

Definition dedupEntries (entriesRaw : list item) : list item :=
  JsMap.values (foldl dedupStep [] entriesRaw).

(** One row of [INSERT INTO pc_settings (pc_id, last_status, last_status_at)
    VALUES ... ON CONFLICT (pc_id) DO UPDATE SET last_status =
    EXCLUDED.last_status, last_status_at = EXCLUDED.last_status_at]. *)
Definition upsertStatus (t : list pc_row) (it : item) : list pc_row :=
  match selectPc (it_pcId it) t with
  | Some _ => updateStatus (it_pcId it) (Some (it_status it)) (it_lastStatusAt it) t
  | None =>
      t ++ [PcRow (it_pcId it) None None None None
                  (Some (it_status it)) (Some (it_lastStatusAt it))]
  end.

Definition bulkUpsert (entries : list item) (t : list pc_row) : list pc_row :=
  foldl upsertStatus t entries.

(** [flushBuffer]. [pool_ready] is [db.getPool()], [write_ok] tells
    whether the bulk write succeeds, and [arrived] is what the message
    handler pushes while the write is awaited. *)
Definition flushBuffer (pool_ready write_ok : bool) (arrived : list item)
    (s : state) : state :=
  match buffer s with
  | [] => s
  | _ :: _ =>
      let entriesRaw := buffer s in
      if negb pool_ready then State (entriesRaw ++ []) (table s)
      else
        let entries := dedupEntries entriesRaw in
        if write_ok then State arrived (bulkUpsert entries (table s))
        else State (entries ++ arrived) (table s)
  end.

(** The payload of a message: [{ pcId, status, lastStatusAt }] or
    [{ id, s, ts }]. *)
Record payload := Payload {
  p_pcId : option string;
  p_id : option string;
  p_status : option string;
  p_s : option string;
  p_lastStatusAt : option Z;
  p_ts : option Z
}.

(** [sub.on('message')] at time [now], with [MAX_BATCH] set to [maxBatch];
    a flush started here finds nothing new in the buffer when it ends. *)
Definition on_message (maxBatch : nat) (p : payload) (now : Z)
    (pool_ready write_ok : bool) (s : state) : state :=
  match js_or (p_pcId p) (p_id p), js_or (p_status p) (p_s p) with
  | Some pcId, Some status =>
      if truthy pcId && truthy status then
        let lastStatusAt := js_or_lit (js_or (p_lastStatusAt p) (p_ts p)) now in
        let s1 := State (buffer s ++ [Item pcId status lastStatusAt]) (table s) in
        if (maxBatch <=? length (buffer s1))%nat
        then flushBuffer pool_ready write_ok [] s1
        else s1
      else s
  | _, _ => s
  end.

(** Every buffered entry names a device and a status and has a
    timestamp. *)
Definition wellformed (b : list item) : Prop :=
  Forall (λ it, it_pcId it ≠ "" ∧ it_status it ≠ "" ∧ it_lastStatusAt it ≠ 0) b.
End Worker.

(** ** The status writer with retries

    The later version of the worker retries a failing write with an
    exponential backoff and acknowledges Pub/Sub messages itself. Its flush
    reads two fields of a buffered entry, [payload] and [message]; the
    message handler pushes entries [{ pcId, status, lastStatusAt }], which
    have neither. A message is identified by a number. *)
Module RetryWorker.
Record entry := Entry {
  en_pcId : string;
  en_status : string;
  en_lastStatusAt : Z;
  en_payload : option Worker.payload;   (* [item.payload] *)
  en_message : option nat               (* [item.message] *)
}.

(** What a flush leaves behind: the buffer and the table, the messages it
    acknowledged and refused, the payloads it published to the dead-letter
    topic, the number of writes it attempted and the time it slept. *)
Record state := State {
  buffer : list entry;
  table : list pc_row;
  acked : list nat;
  nacked : list nat;
  published : list Worker.payload;
  attempts : nat;
  waited : nat
}.

Definition MAX_RETRY : nat := 4.
Definition BACKOFF_BASE_MS : nat := 200.

(** [item.payload && (item.payload.pcId || item.payload.id)] *)
Definition keyOf (it : entry) : option string :=
  match en_payload it with
  | Some p => js_or (Worker.p_pcId p) (Worker.p_id p)
  | None => None
  end.

(** [item.payload && item.payload.lastStatusAt &&
     item.payload.lastStatusAt > prev.payload.lastStatusAt]; a comparison
    with [undefined] is false. *)
Definition newer (it prev : entry) : bool :=
  match en_payload it ≫= Worker.p_lastStatusAt,
        en_payload prev ≫= Worker.p_lastStatusAt with
  | Some a, Some b => truthy a && (b <? a)
  | _, _ => false
  end.

(** [try { m.ack() } catch (e) {}]: nothing happens without a message. *)
Definition ack (m : option nat) (acks : list nat) : list nat :=
  acks ++ option_list m.

(** The body of the deduplication loop, with the acknowledgements it
    makes. *)
Definition dedupStep (st : JsMap.t entry * list nat) (it : entry)
    : JsMap.t entry * list nat :=
  match keyOf it with
  | Some key =>
      if truthy key then
        match JsMap.get key st.1 with
        | Some prev =>
            if newer it prev
            then (JsMap.set key it st.1, ack (en_message prev) st.2)
            else (st.1, ack (en_message it) st.2)
        | None => (JsMap.set key it st.1, st.2)
        end
      else st
  | None => st
  end.

(** The row written for an entry: [pcId], [status] and [at] are read from
    its payload ([now] stands for [Date.now()]). An entry of the
    deduplication map always has a payload. *)
Definition upsertEntry (now : Z) (t : list pc_row) (it : entry) : list pc_row :=
  match en_payload it with
  | Some p =>
      let pcId := default "" (js_or (Worker.p_pcId p) (Worker.p_id p)) in
      let status := js_or (Worker.p_status p) (Worker.p_s p) in
      let at_ := js_or_lit (js_or (Worker.p_lastStatusAt p) (Worker.p_ts p)) now in
      match selectPc pcId t with
      | Some _ => updateStatus pcId status at_ t
      | None => t ++ [PcRow pcId None None None None status (Some at_)]
      end
  | None => t
  end.

(** The retry loop [while (attempt <= MAX_RETRY)]: [ok n] tells whether
    the write of attempt [n] succeeds. The result is whether a write
    succeeded, the number of writes attempted and the time slept. [fuel]
    only bounds the recursion. *)
Fixpoint writeLoop (fuel attempt : nat) (ok : nat → bool) (slept : nat)
    : bool * nat * nat :=
  if (attempt <=? MAX_RETRY)%nat then
    match fuel with
    | O => (false, attempt, slept)
    | S fuel' =>
        if ok attempt then (true, S attempt, slept)
        else
          let attempt' := S attempt in
          if (MAX_RETRY <? attempt')%nat then (false, attempt', slept)
          else writeLoop fuel' attempt' ok
                         (slept + BACKOFF_BASE_MS * 2 ^ (attempt' - 1))%nat
    end
  else (false, attempt, slept).

(** [flushBuffer]. [pool_ready] is [db.getPool()], [dlq] tells whether a
    dead-letter topic is configured and reachable, [arrived] is what the
    message handler pushes while the flush waits. *)
Definition flushBuffer (pool_ready : bool) (ok : nat → bool) (dlq : bool) (now : Z)
    (arrived : list entry) (s : state) : state :=
  match buffer s with
  | [] => s
  | _ :: _ =>
      let entriesRaw := buffer s in
      if negb pool_ready
      then State (entriesRaw ++ []) (table s) (acked s) (nacked s) (published s)
                 (attempts s) (waited s)
      else
        let '(dedup, acks) := foldl dedupStep ([], acked s) entriesRaw in
        let entries := JsMap.values dedup in
        match entries with
        | [] => State [] (table s) acks (nacked s) (published s) (attempts s) (waited s)
        | _ :: _ =>
            let '(written, tries, slept) := writeLoop (S MAX_RETRY) 0 ok 0 in
            let messages := omap en_message entries in
            if written then
              State arrived (foldl (upsertEntry now) (table s) entries)
                    (acks ++ messages) (nacked s) (published s)
                    (attempts s + tries) (waited s + slept)
            else if dlq then
              State arrived (table s) (acks ++ messages) (nacked s)
                    (published s ++ omap en_payload entries)
                    (attempts s + tries) (waited s + slept)
            else
              State arrived (table s) acks (nacked s ++ messages) (published s)
                    (attempts s + tries) (waited s + slept)
        end
  end.

(** [sub.on('message')] for the message [m] at time [now], with
    [MAX_BATCH] set to [maxBatch]; the entry pushed has no [payload] and
    no [message] field, and the handler acknowledges the message when it
    is done. *)
Definition on_message (maxBatch : nat) (m : nat) (p : Worker.payload) (now : Z)
    (pool_ready : bool) (ok : nat → bool) (dlq : bool) (s : state) : state :=
  let s2 :=
    match js_or (Worker.p_pcId p) (Worker.p_id p),
          js_or (Worker.p_status p) (Worker.p_s p) with
    | Some pcId, Some status =>
        if truthy pcId && truthy status then
          let lastStatusAt :=
            js_or_lit (js_or (Worker.p_lastStatusAt p) (Worker.p_ts p)) now in
          let s1 := State (buffer s ++ [Entry pcId status lastStatusAt None None])
                          (table s) (acked s) (nacked s) (published s)
                          (attempts s) (waited s) in
          if (maxBatch <=? length (buffer s1))%nat
          then flushBuffer pool_ready ok dlq now [] s1
          else s1
        else s
    | _, _ => s
    end in
  State (buffer s2) (table s2) (ack (Some m) (acked s2)) (nacked s2) (published s2)
        (attempts s2) (waited s2).

(** A message as it reaches the handler: its number, its payload and the
    time. *)
Definition delivery := (nat * Worker.payload * Z)%type.

Definition receive (maxBatch : nat) (pool_ready : bool) (ok : nat → bool)
    (dlq : bool) (ds : list delivery) (s : state) : state :=
  foldl (λ s0 (d : delivery), on_message maxBatch d.1.1 d.1.2 d.2 pool_ready ok dlq s0)
        s ds.

(** The buffer holds only entries as the message handler pushes them. *)
Definition pushedByHandler (b : list entry) : Prop :=
  Forall (λ it, en_payload it = None ∧ en_message it = None) b.
End RetryWorker.

(** ** A client that does not say it is a desktop client

    The test client registers with [{ id, name }] and reports
    [{ status }]: no [clientType], no [id] in the reports. *)

(** An event of socket [sid] as such a client sends them. *)
Definition plainClientEvent (sid : string) (e : event) : bool :=
  match e with
  | EvRegisterPc sid' d =>
      bool_decide (sid' = sid) && negb (bool_decide (rd_clientType d = Some "pc_app"))
  | EvPcStatus sid' d _ => bool_decide (sid' = sid) && negb (truthy (sd_id d))
  | EvStatusReply sid' _ => bool_decide (sid' = sid)
  | _ => false
  end.

(** ** cleanup_duplicates.js *)

(** [ORDER BY last_seen DESC]: [a] may come before [b]. *)
Definition seen_desc (a b : pc_row) : Prop :=
  seen_before (last_seen b) (last_seen a) = false.
Global Instance seen_desc_dec : RelDecision seen_desc.
Proof. intros a b. unfold seen_desc. apply _. Defined.

(** [SELECT ... FROM pc_settings WHERE name = 'POOKY-PC' ORDER BY last_seen DESC] *)
Definition selectPooky (t : list pc_row) : list pc_row :=
  merge_sort seen_desc (List.filter (λ r, bool_decide (name r = Some "POOKY-PC")) t).

(** [DELETE FROM pc_settings WHERE pc_id = $1] *)
Definition deletePc (t : list pc_row) (id : string) : list pc_row :=
  List.filter (λ r, negb (bool_decide (pc_id r = id))) t.

(** [cleanupDuplicates]: keep the first of the rows named ['POOKY-PC'],
    delete the others by their pc id. *)
Definition cleanupDuplicates (t : list pc_row) : list pc_row :=
  let pcs := selectPooky t in
  if bool_decide (length pcs ≤ 1)%nat then t
  else
    let deleteIds := pc_id <$> drop 1 pcs in
    foldl deletePc t deleteIds.

(** * Properties *)

(** ** Truthiness *)

Lemma truthy_string_nonempty (s : string) : truthy s = true ↔ s ≠ "".
Proof. destruct s; cbv; split; intros; congruence. Qed.

Lemma truthy_Z_nonzero (z : Z) : truthy z = true ↔ z ≠ 0.
Proof. destruct z; cbv; split; intros; congruence. Qed.


Lemma js_or_lit_truthy {A} `{Truthy A} (a : A) (d : A) :
  truthy a = true → js_or_lit (Some a) d = a.
Proof. intros Ha. unfold js_or_lit. by rewrite Ha. Qed.

Lemma js_or_lit_falsy {A} `{Truthy A} (o : option A) (d : A) :
  truthy o = false → js_or_lit o d = d.
Proof.
  destruct o as [a|]; [|done].
  unfold js_or_lit. change (truthy (Some a)) with (truthy a). by intros ->.
Qed.

(** ** Objects as maps *)

Module JsObjectFacts.
Import JsObject.
Section facts.
Context {K V : Type} `{EqDecision K} `{PropertyKey K}.
Implicit Types (k : K) (v : V) (o : JsObject.t K V).

Lemma get_replace_eq k v o : is_Some (get k o) → get k (replace k v o) = Some v.
Proof.
  induction o as [|[k' v'] o IH]; simpl; [by intros [? ?]|].
  destruct (decide (k' = k)) as [->|Hne]; simpl.
  - by rewrite decide_True.
  - rewrite decide_False by done. auto.
Qed.

Lemma get_replace_ne k k' v o : k ≠ k' → get k' (replace k v o) = get k' o.
Proof.
  intros Hne. induction o as [|[k0 v0] o IH]; simpl; [done|].
  destruct (decide (k0 = k)) as [->|Hk0]; simpl.
  - by rewrite !decide_False.
  - destruct (decide (k0 = k')); auto.
Qed.

Lemma get_place_index_eq n k v o :
  get k o = None → get k (place_index n k v o) = Some v.
Proof.
  induction o as [|[k' v'] o IH]; simpl.
  - by rewrite decide_True.
  - destruct (decide (k' = k)) as [->|Hne]; [done|]. intros Hget.
    destruct (arrayIndex k') as [n'|]; [destruct (n' <? n)%N|]; simpl;
      rewrite ?decide_True, ?decide_False by done; auto.
Qed.

Lemma get_place_index_ne n k k' v o :
  k ≠ k' → get k' (place_index n k v o) = get k' o.
Proof.
  intros Hne. induction o as [|[k0 v0] o IH]; simpl.
  - by rewrite decide_False.
  - destruct (arrayIndex k0) as [n'|]; [destruct (n' <? n)%N|]; simpl;
      rewrite ?(decide_False (P := k = k')) by done; [|done..].
    destruct (decide (k0 = k')); auto.
Qed.

Lemma get_app_None k o o' : get k o = None → get k (o ++ o') = get k o'.
Proof.
  induction o as [|[k0 v0] o IH]; simpl; [done|].
  destruct (decide (k0 = k)); [done | auto].
Qed.

Lemma get_app_Some k o o' x : get k o = Some x → get k (o ++ o') = Some x.
Proof.
  induction o as [|[k0 v0] o IH]; simpl; [done|].
  destruct (decide (k0 = k)); [done | auto].
Qed.

Lemma get_set_eq k v o : get k (set k v o) = Some v.
Proof.
  unfold set. destruct (get k o) as [x|] eqn:Hget.
  - apply get_replace_eq. by rewrite Hget.
  - destruct (arrayIndex k) as [n|].
    + by apply get_place_index_eq.
    + rewrite get_app_None by done. simpl. by rewrite decide_True.
Qed.

Lemma get_set_ne k k' v o : k ≠ k' → get k' (set k v o) = get k' o.
Proof.
  intros Hne. unfold set. destruct (get k o) as [x|] eqn:Hget.
  - by apply get_replace_ne.
  - destruct (arrayIndex k) as [n|].
    + by apply get_place_index_ne.
    + destruct (get k' o) as [y|] eqn:Hk'.
      * by apply get_app_Some.
      * rewrite get_app_None by done. simpl. by rewrite decide_False.
Qed.

Lemma get_del_eq k o : get k (del k o) = None.
Proof.
  induction o as [|[k0 v0] o IH]; simpl; [done|].
  destruct (decide (k0 = k)) as [->|Hne]; simpl; [done|].
  by rewrite decide_False.
Qed.

Lemma get_del_ne k k' o : k ≠ k' → get k' (del k o) = get k' o.
Proof.
  intros Hne. induction o as [|[k0 v0] o IH]; simpl; [done|].
  destruct (decide (k0 = k)) as [->|Hk0]; simpl.
  - by rewrite decide_False.
  - destruct (decide (k0 = k')); auto.
Qed.

Lemma get_Some_elem_of k v o : get k o = Some v → (k, v) ∈ o.
Proof.
  induction o as [|[k0 v0] o IH]; simpl; [done|].
  destruct (decide (k0 = k)) as [->|Hne].
  - intros [= ->]. left.
  - intros Hget. right. auto.
Qed.

Lemma elem_of_get k v o : (k, v) ∈ o → is_Some (get k o).
Proof.
  induction o as [|[k0 v0] o IH]; [by intros ?%elem_of_nil|].
  intros [[= -> ->]|Hin]%elem_of_cons; simpl.
  - rewrite decide_True by done. eauto.
  - destruct (decide (k0 = k)); eauto.
Qed.

Lemma elem_of_replace k v o e :
  e ∈ replace k v o → e = (k, v) ∨ e ∈ o.
Proof.
  induction o as [|[k0 v0] o IH]; simpl; [by intros ?%elem_of_nil|].
  destruct (decide (k0 = k)) as [->|Hne].
  - intros [->|Hin]%elem_of_cons; [by left | right; by right].
  - intros [->|Hin]%elem_of_cons; [right; by left|].
    destruct (IH Hin); [by left | right; by right].
Qed.

Lemma elem_of_place_index n k v o e :
  e ∈ place_index n k v o → e = (k, v) ∨ e ∈ o.
Proof.
  induction o as [|[k0 v0] o IH]; simpl.
  - intros ->%list_elem_of_singleton. by left.
  - destruct (arrayIndex k0) as [n'|]; [destruct (n' <? n)%N|];
      intros [->|Hin]%elem_of_cons; auto.
    + right; by left.
    + destruct (IH Hin); [by left | right; by right].
Qed.

Lemma elem_of_set k v o e : e ∈ set k v o → e = (k, v) ∨ e ∈ o.
Proof.
  unfold set. destruct (get k o); [apply elem_of_replace|].
  destruct (arrayIndex k); [apply elem_of_place_index|].
  intros [Hin| ->%list_elem_of_singleton]%elem_of_app; auto.
Qed.

Lemma get_None_not_key k o : get k o = None ↔ k ∉ keys o.
Proof.
  unfold keys. induction o as [|[k0 v0] o IH]; simpl.
  - split; [intros _ ?%elem_of_nil; done | done].
  - destruct (decide (k0 = k)) as [->|Hne].
    + split; [done | intros []; left].
    + rewrite IH, not_elem_of_cons. split; [intros ?; split; [congruence | done] | by intros [_ ?]].
Qed.

Lemma keys_replace k v o : keys (replace k v o) = keys o.
Proof.
  unfold keys. induction o as [|[k0 v0] o IH]; simpl; [done|].
  destruct (decide (k0 = k)); simpl; by f_equal.
Qed.

Lemma keys_place_index n k v o : keys (place_index n k v o) ≡ₚ k :: keys o.
Proof.
  unfold keys. induction o as [|[k0 v0] o IH]; simpl; [done|].
  destruct (arrayIndex k0) as [n'|]; [destruct (n' <? n)%N|]; simpl; [|done..].
  rewrite IH. apply Permutation_swap.
Qed.

Lemma NoDup_keys_set k v o : NoDup (keys o) → NoDup (keys (set k v o)).
Proof.
  intros Hnd. unfold set. destruct (get k o) eqn:Hget.
  - by rewrite keys_replace.
  - apply get_None_not_key in Hget. destruct (arrayIndex k).
    + rewrite keys_place_index. by constructor.
    + unfold keys in *. rewrite fmap_app. simpl.
      apply NoDup_app. split_and!; [done| |apply NoDup_singleton].
      intros x Hx ->%list_elem_of_singleton. done.
Qed.

Lemma NoDup_keys_del k o : NoDup (keys o) → NoDup (keys (del k o)).
Proof.
  unfold keys. induction o as [|[k0 v0] o IH]; simpl; [done|].
  intros [Hk0 Hnd]%NoDup_cons. destruct (decide (k0 = k)); [auto|].
  simpl. apply NoDup_cons. split; [|auto].
  intros Hin. apply Hk0. clear -Hin.
  induction o as [|[k1 v1] o IH]; simpl in *; [done|].
  destruct (decide (k1 = k)); [right; auto|].
  simpl in Hin. apply elem_of_cons in Hin as [->|Hin]; [left | right; auto].
Qed.

Lemma elem_of_NoDup_get k v o : NoDup (keys o) → (k, v) ∈ o → get k o = Some v.
Proof.
  unfold keys. induction o as [|[k0 v0] o IH]; simpl; [by intros _ ?%elem_of_nil|].
  intros [Hk0 Hnd]%NoDup_cons [[= -> ->]|Hin]%elem_of_cons.
  - by rewrite decide_True.
  - destruct (decide (k0 = k)) as [->|Hne]; [|auto].
    exfalso. apply Hk0. apply list_elem_of_fmap. by exists (k, v).
Qed.
End facts.
End JsObjectFacts.

(** Array-index keys are enumerated first, in numeric order. *)
Example array_index_keys :
  arrayIndex "12" = Some 12%N ∧ arrayIndex "012" = None ∧
  arrayIndex "tmp1" = None ∧ arrayIndex "4294967295" = None ∧
  arrayIndex 7 = Some 7%N ∧ arrayIndex (-1) = None.
Proof. by vm_compute. Qed.

Example keys_order :
  JsObject.keys (JsObject.set "2" 3%nat (JsObject.set "10" 2%nat
                   (JsObject.set "b" 1%nat (JsObject.set "a" 0%nat []))))
    = ["2"; "10"; "a"; "b"].
Proof. by vm_compute. Qed.

(** ** The merged view and the broadcast *)

Lemma mergedStatus_spec (c : conn) (row : pc_row) :
  mergedStatus c row = spec_effective_status (status c) (last_status row).
Proof.
  unfold mergedStatus, spec_effective_status, present, js_or_lit.
  destruct (status c) as [[|a s]|], (last_status row) as [[|b p]|]; simpl; try done;
    destruct (decide (String a s = "Unknown")) as [->|Hne]; simpl; try done;
    by rewrite bool_decide_eq_false_2.
Qed.

Lemma status_connOrEmpty (w : world) (k : string) :
  status (connOrEmpty w k) = pcConn w k ≫= status.
Proof. unfold connOrEmpty. by destruct (pcConn w k). Qed.

Lemma selectByOwner_cons (o : Z) (r : pc_row) (rows : list pc_row) :
  selectByOwner o (r :: rows) =
    if decide (owner_id r = Some o) then r :: selectByOwner o rows
    else selectByOwner o rows.
Proof.
  unfold selectByOwner. simpl.
  destruct (decide (owner_id r = Some o)) as [Heq|Hne].
  - by rewrite bool_decide_eq_true_2.
  - by rewrite bool_decide_eq_false_2.
Qed.

Lemma elem_of_selectByOwner (o : Z) (r : pc_row) (rows : list pc_row) :
  r ∈ selectByOwner o rows ↔ r ∈ rows ∧ owner_id r = Some o.
Proof.
  unfold selectByOwner. rewrite list_elem_of_In, List.filter_In, <- list_elem_of_In.
  by rewrite bool_decide_eq_true.
Qed.

Lemma get_groupRow (w : world) (acc : JsObject.t Z (list pc_view)) (r : pc_row) (o : Z) :
  truthy o = true →
  JsObject.get o (groupRow w acc r) =
    if decide (owner_id r = Some o)
    then Some (default [] (JsObject.get o acc) ++ [viewOf w r])
    else JsObject.get o acc.
Proof.
  intros Ho. unfold groupRow, js_or, byOwner_push.
  destruct (owner_id r) as [o'|] eqn:Hown; [|by rewrite decide_False].
  change (truthy (Some o')) with (truthy o').
  destruct (truthy o') eqn:Ho'.
  - rewrite Ho'. destruct (decide (Some o' = Some o)) as [[= ->]|Hne].
    + apply JsObjectFacts.get_set_eq.
    + apply JsObjectFacts.get_set_ne. congruence.
  - rewrite decide_False; [done|]. intros [= ->]. congruence.
Qed.

Lemma get_foldl_groupRow (w : world) (rows : list pc_row)
    (acc : JsObject.t Z (list pc_view)) (o : Z) :
  truthy o = true →
  JsObject.get o (foldl (groupRow w) acc rows) =
    match JsObject.get o acc, selectByOwner o rows with
    | None, [] => None
    | g, owned => Some (default [] g ++ map (viewOf w) owned)
    end.
Proof.
  intros Ho. revert acc. induction rows as [|r rows IH]; intros acc.
  - simpl. destruct (JsObject.get o acc); simpl; [by rewrite app_nil_r | done].
  - rewrite selectByOwner_cons. cbn [foldl]. rewrite IH, get_groupRow by done.
    destruct (decide (owner_id r = Some o)); [|done].
    destruct (JsObject.get o acc); simpl; [|done].
    by rewrite <- app_assoc.
Qed.

Lemma get_groupByOwner (w : world) (rows : list pc_row) (o : Z) :
  truthy o = true →
  JsObject.get o (groupByOwner w rows) =
    match selectByOwner o rows with
    | [] => None
    | owned => Some (map (viewOf w) owned)
    end.
Proof.
  intros Ho. unfold groupByOwner. rewrite get_foldl_groupRow by done. simpl.
  by destruct (selectByOwner o rows).
Qed.

Lemma groupRow_keys (w : world) (acc : JsObject.t Z (list pc_view)) (r : pc_row) :
  NoDup (JsObject.keys acc) ∧ Forall (λ e, truthy e.1 = true) acc →
  NoDup (JsObject.keys (groupRow w acc r)) ∧
  Forall (λ e, truthy e.1 = true) (groupRow w acc r).
Proof.
  intros [Hnd Hall]. unfold groupRow, js_or, byOwner_push.
  destruct (owner_id r) as [o'|]; [|done].
  change (truthy (Some o')) with (truthy o').
  destruct (truthy o') eqn:Ho'; rewrite ?Ho'; [|done].
  split; [by apply JsObjectFacts.NoDup_keys_set|].
  apply Forall_forall. intros e [->|Hin]%JsObjectFacts.elem_of_set; [done|].
  by apply (proj1 (Forall_forall _ _) Hall).
Qed.

Lemma groupByOwner_keys (w : world) (rows : list pc_row) :
  NoDup (JsObject.keys (groupByOwner w rows)) ∧
  Forall (λ e, truthy e.1 = true) (groupByOwner w rows).
Proof.
  unfold groupByOwner.
  assert (NoDup (JsObject.keys ([] : JsObject.t Z (list pc_view))) ∧
          Forall (λ e, truthy e.1 = true) ([] : JsObject.t Z (list pc_view))) as Hacc
    by (split; constructor).
  revert Hacc. generalize ([] : JsObject.t Z (list pc_view)).
  induction rows as [|r rows IH]; intros acc Hacc; simpl; [done|].
  apply IH. by apply groupRow_keys.
Qed.

(** Every emission of [broadcastUpdate] is the list of all rows of one
    owner, and every owner with a row gets one. *)
Lemma elem_of_broadcastUpdate (w : world) (e : emit) :
  e ∈ broadcastUpdate w ↔
  ∃ o, truthy o = true ∧ selectByOwner o (pc_settings (db w)) ≠ [] ∧
       e = Emit (ToDashboard o)
                (PcUpdate (map (viewOf w) (selectByOwner o (pc_settings (db w))))).
Proof.
  unfold broadcastUpdate. rewrite list_elem_of_fmap. split.
  - intros [[o l] [-> Hin]]. simpl.
    destruct (groupByOwner_keys w (pc_settings (db w))) as [Hnd Hall].
    assert (truthy o = true) as Ho
      by apply (proj1 (Forall_forall _ _) Hall _ Hin).
    apply JsObjectFacts.elem_of_NoDup_get in Hin; [|done].
    rewrite get_groupByOwner in Hin by done.
    exists o. destruct (selectByOwner o (pc_settings (db w))); [done|].
    by injection Hin as <-.
  - intros (o & Ho & Hne & ->).
    exists (o, map (viewOf w) (selectByOwner o (pc_settings (db w)))).
    split; [done|]. apply JsObjectFacts.get_Some_elem_of.
    rewrite get_groupByOwner by done.
    by destruct (selectByOwner o (pc_settings (db w))).
Qed.

(** C1. For every device row produced by the merged-view read (the list
    returned by [/api/pcs] and the per-owner list of [broadcastUpdate]),
    the status shown is the in-memory status when it is present and is not
    ['Unknown'], else the persisted [last_status] when present, else
    ['Unknown']; both lists hold exactly the rows owned by the owner, so no
    owned device is left out whatever its status. *)
Theorem merged_view_three_tier (w : world) (userId : Z) :
  userId ≠ 0 →
  let owned := selectByOwner userId (pc_settings (db w)) in
  api_pcs (Some userId) w = Json (map (viewOf w) owned) ∧
  (∀ e, e ∈ broadcastUpdate w → em_to e = ToDashboard userId →
        em_msg e = PcUpdate (map (viewOf w) owned)) ∧
  (owned ≠ [] →
     Emit (ToDashboard userId) (PcUpdate (map (viewOf w) owned)) ∈ broadcastUpdate w) ∧
  (∀ row, row ∈ pc_settings (db w) → owner_id row = Some userId →
     viewOf w row ∈ map (viewOf w) owned ∧
     v_id (viewOf w row) = pc_id row ∧
     v_status (viewOf w row) =
       spec_effective_status (pcConn w (pc_id row) ≫= status) (last_status row)).
Proof.
  intros Hu owned. apply truthy_Z_nonzero in Hu. split_and!.
  - unfold api_pcs, requireAuth. change (truthy (Some userId)) with (truthy userId).
    by rewrite Hu.
  - intros e (o & Ho & Hne & ->)%elem_of_broadcastUpdate [= ->]. done.
  - intros Hne. apply elem_of_broadcastUpdate. by exists userId.
  - intros row Hin Hown. split_and!.
    + apply list_elem_of_fmap. exists row. split; [done|].
      by apply elem_of_selectByOwner.
    + done.
    + unfold viewOf, mergedView. simpl.
      by rewrite mergedStatus_spec, status_connOrEmpty.
Qed.

Lemma merged_view_three_tier_witness :
  api_pcs (Some 7) Sample.w0 =
    Json [PcView "tmp1" (Some "Lab-PC") true (Some "s1") "Locked" (Some 1000) (Some 900) (Some 7) None;
          PcView "tmp9" (Some "Den-PC") false None "Unknown" (Some 500) None (Some 7) None].
Proof.
  exact (proj1 (merged_view_three_tier Sample.w0 7 ltac:(discriminate))).
Defined.

(** C5. Every list pushed by [broadcastUpdate] holds only devices whose
    persisted [owner_id] is set: each element is the view of a row with a
    non-null owner, and carries that owner. *)
Theorem broadcast_excludes_unowned (w : world) (e : emit) (l : list pc_view) (v : pc_view) :
  e ∈ broadcastUpdate w → em_msg e = PcUpdate l → v ∈ l →
  ∃ row owner, row ∈ pc_settings (db w) ∧ v = viewOf w row ∧
               owner_id row = Some owner ∧ owner ≠ 0 ∧
               em_to e = ToDashboard owner ∧ v_ownerId v = Some owner.
Proof.
  intros (o & Ho & _ & ->)%elem_of_broadcastUpdate [= <-] Hv.
  apply list_elem_of_fmap in Hv as (row & -> & [Hin Hown]%elem_of_selectByOwner).
  exists row, o. split_and!; try done.
  - by apply truthy_Z_nonzero.
  - unfold viewOf, mergedView, js_or. simpl. rewrite Hown.
    change (truthy (Some o)) with (truthy o). by rewrite Ho.
Qed.

Lemma broadcast_excludes_unowned_witness :
  broadcastUpdate Sample.w0 =
    [Emit (ToDashboard 7) (PcUpdate [viewOf Sample.w0 Sample.lab; viewOf Sample.w0 Sample.den])] ∧
  ∃ row owner, row ∈ pc_settings (db Sample.w0) ∧
               viewOf Sample.w0 Sample.den = viewOf Sample.w0 row ∧
               owner_id row = Some owner ∧ owner ≠ 0 ∧
               ToDashboard 7 = ToDashboard owner ∧
               v_ownerId (viewOf Sample.w0 Sample.den) = Some owner.
Proof.
  split; [reflexivity|].
  apply (broadcast_excludes_unowned Sample.w0
           (Emit (ToDashboard 7) (PcUpdate [viewOf Sample.w0 Sample.lab; viewOf Sample.w0 Sample.den]))
           [viewOf Sample.w0 Sample.lab; viewOf Sample.w0 Sample.den]).
  - vm_compute. left.
  - reflexivity.
  - right. left.
Defined.

(** ** The registry: references and field updates *)

Section registry.
Implicit Types (w : world) (k : string) (l : nat) (f : conn → conn).

Lemma ensureConn_ref k w : connRef (ensureConn k w).2 k = Some (ensureConn k w).1.
Proof.
  unfold ensureConn. destruct (connRef w k) as [l|] eqn:Hk; simpl; [done|].
  unfold connRef. simpl. apply JsObjectFacts.get_set_eq.
Qed.

Lemma ensureConn_ref_ne k k' w : k ≠ k' → connRef (ensureConn k w).2 k' = connRef w k'.
Proof.
  intros Hne. unfold ensureConn. destruct (connRef w k) as [l|] eqn:Hk; simpl; [done|].
  unfold connRef. simpl. by apply JsObjectFacts.get_set_ne.
Qed.


Lemma ensureConn_deref k w : deref (ensureConn k w).2 (ensureConn k w).1 = connOrEmpty w k.
Proof.
  unfold ensureConn, connOrEmpty, pcConn.
  destruct (connRef w k) as [l|] eqn:Hk; simpl; [done|].
  unfold deref. simpl. by rewrite lookup_insert_eq.
Qed.

Lemma ensureConn_db k w : db (ensureConn k w).2 = db w.
Proof. unfold ensureConn. by destruct (connRef w k). Qed.

Lemma ensureConn_sockets k w : sockets (ensureConn k w).2 = sockets w.
Proof. unfold ensureConn. by destruct (connRef w k). Qed.

Lemma deref_update_eq l f w : deref (update l f w) l = f (deref w l).
Proof. unfold update, deref at 1. simpl. by rewrite lookup_insert_eq. Qed.

Lemma deref_update_ne l l' f w : l ≠ l' → deref (update l f w) l' = deref w l'.
Proof. intros Hne. unfold update, deref. simpl. by rewrite lookup_insert_ne. Qed.

Lemma connRef_update l f w k : connRef (update l f w) k = connRef w k.
Proof. done. Qed.

Lemma connRef_tagSocket sid id w k : connRef (tagSocket sid id w) k = connRef w k.
Proof. done. Qed.

Lemma deref_tagSocket sid id w l : deref (tagSocket sid id w) l = deref w l.
Proof. done. Qed.

Lemma connRef_set_pc_settings t w k : connRef (set_pc_settings t w) k = connRef w k.
Proof. done. Qed.

Lemma deref_set_pc_settings t w l : deref (set_pc_settings t w) l = deref w l.
Proof. done. Qed.

Lemma pcConn_ref w k l : connRef w k = Some l → pcConn w k = Some (deref w l).
Proof. unfold pcConn. by intros ->. Qed.

Lemma hydrateStatus_ref id l w k : connRef (hydrateStatus id l w) k = connRef w k.
Proof.
  unfold hydrateStatus. destruct (truthy (status (deref w l))); [done|].
  destruct (selectPc id (pc_settings (db w))) as [r|]; [|done].
  by destruct (truthy (last_status r)).
Qed.

Lemma hydrateStatus_db id l w : db (hydrateStatus id l w) = db w.
Proof.
  unfold hydrateStatus. destruct (truthy (status (deref w l))); [done|].
  destruct (selectPc id (pc_settings (db w))) as [r|]; [|done].
  by destruct (truthy (last_status r)).
Qed.

Lemma hydrateStatus_sockets id l w : sockets (hydrateStatus id l w) = sockets w.
Proof.
  unfold hydrateStatus. destruct (truthy (status (deref w l))); [done|].
  destruct (selectPc id (pc_settings (db w))) as [r|]; [|done].
  by destruct (truthy (last_status r)).
Qed.

(** Hydration only touches the status, and only when none is known. *)
Lemma hydrateStatus_deref id l w :
  deref (hydrateStatus id l w) l =
    with_status (js_or (status (deref w l))
                       (js_or (selectPc id (pc_settings (db w)) ≫= last_status)
                              (status (deref w l))))
                (deref w l).
Proof.
  unfold hydrateStatus, js_or.
  destruct (truthy (status (deref w l))) eqn:Hst; [by destruct (deref w l)|].
  destruct (selectPc id (pc_settings (db w))) as [r|]; simpl.
  - destruct (truthy (last_status r)) eqn:Hr.
    + by rewrite deref_update_eq.
    + by destruct (deref w l).
  - by destruct (deref w l).
Qed.
End registry.

(** ** The store *)

Lemma selectPc_Some (pcId : string) (t : list pc_row) (r : pc_row) :
  selectPc pcId t = Some r → r ∈ t ∧ pc_id r = pcId.
Proof.
  unfold selectPc. intros [Hin Hp%bool_decide_eq_true]%List.find_some.
  by rewrite list_elem_of_In.
Qed.

Lemma selectPc_None (pcId : string) (t : list pc_row) :
  selectPc pcId t = None ↔ ∀ r, r ∈ t → pc_id r ≠ pcId.
Proof.
  unfold selectPc. split.
  - intros Hnone r Hin%list_elem_of_In.
    pose proof (List.find_none _ _ Hnone r Hin) as Hr. simpl in Hr.
    by apply bool_decide_eq_false in Hr.
  - intros Hall. induction t as [|r t IH]; simpl; [done|].
    rewrite bool_decide_eq_false_2 by (apply Hall; left).
    apply IH. intros r' Hr'. apply Hall. by right.
Qed.

(** With [pc_id] a key of the table, a row is found under its own id. *)
Lemma selectPc_key (t : list pc_row) (r : pc_row) :
  NoDup (pc_id <$> t) → r ∈ t → selectPc (pc_id r) t = Some r.
Proof.
  unfold selectPc. induction t as [|r0 t IH]; simpl; [by intros _ ?%elem_of_nil|].
  intros [Hr0 Hnd]%NoDup_cons [->|Hin]%elem_of_cons.
  - by rewrite bool_decide_eq_true_2.
  - rewrite bool_decide_eq_false_2; [auto|].
    intros Heq. apply Hr0. rewrite Heq. apply list_elem_of_fmap. eauto.
Qed.

Lemma selectPc_map (pcId : string) (g : pc_row → pc_row) (t : list pc_row) :
  (∀ r, pc_id (g r) = pc_id r) →
  selectPc pcId (map g t) = g <$> selectPc pcId t.
Proof.
  intros Hg. unfold selectPc. induction t as [|r t IH]; simpl; [done|].
  rewrite Hg. destruct (bool_decide (pc_id r = pcId)); [done | apply IH].
Qed.

Lemma selectPc_app (pcId : string) (t t' : list pc_row) :
  selectPc pcId (t ++ t') =
    match selectPc pcId t with Some r => Some r | None => selectPc pcId t' end.
Proof.
  unfold selectPc. induction t as [|r t IH]; simpl; [done|].
  by destruct (bool_decide (pc_id r = pcId)).
Qed.

Lemma selectPc_updateStatus (pcId k : string) (st : option string) (at_ : Z)
    (t : list pc_row) :
  selectPc k (updateStatus pcId st at_ t) =
    (λ r, if decide (pc_id r = pcId)
          then PcRow (pc_id r) (name r) (last_seen r) (owner_id r) (ip r) st (Some at_)
          else r) <$> selectPc k t.
Proof. unfold updateStatus. apply selectPc_map. intros r. by destruct (decide _). Qed.

Lemma updateStatus_absent (pcId : string) (st : option string) (at_ : Z)
    (t : list pc_row) :
  selectPc pcId t = None → updateStatus pcId st at_ t = t.
Proof.
  rewrite selectPc_None. intros Hall. unfold updateStatus.
  induction t as [|r t IH]; simpl; [done|].
  rewrite decide_False by (apply Hall; left). f_equal.
  apply IH. intros r' Hr'. apply Hall. by right.
Qed.

Lemma selectByOwner_updateStatus (o : Z) (pcId : string) (st : option string)
    (at_ : Z) (t : list pc_row) :
  selectByOwner o t ≠ [] → selectByOwner o (updateStatus pcId st at_ t) ≠ [].
Proof.
  induction t as [|r t IH]; [done|]. intros Hne.
  unfold updateStatus. cbn [map]. rewrite selectByOwner_cons.
  rewrite selectByOwner_cons in Hne.
  destruct (decide (pc_id r = pcId)); simpl;
    destruct (decide (owner_id r = Some o)); try done; by apply IH.
Qed.

(** ** Status reports *)

Lemma on_pc_status_resolved (w : world) (sid : string) (d : status_data) (now : Z)
    (write_ok : bool) (id : string) :
  incomingId w sid d = Some id → id ≠ "" →
  on_pc_status sid d now write_ok w =
    let l := (ensureConn id w).1 in
    let w1 := (ensureConn id w).2 in
    let st := reportedStatus d (connOrEmpty w id) in
    let w3 :=
      tagSocket sid id
        (update l (with_socketId (Some sid))
           (update l (with_connected true)
              (update l (with_lastStatusAt (Some now))
                 (update l (with_status (Some st)) w1)))) in
    let w4 :=
      if write_ok
      then set_pc_settings (updateStatus id (Some st) now (pc_settings (db w3))) w3
      else w3 in
    (w4, broadcastUpdate w4).
Proof.
  intros Hid Hne%truthy_string_nonempty. unfold on_pc_status. rewrite Hid, Hne.
  rewrite <- (ensureConn_deref id w). by destruct (ensureConn id w).
Qed.

Lemma on_pc_status_entry (w : world) (sid : string) (d : status_data) (now : Z)
    (write_ok : bool) (id : string) :
  incomingId w sid d = Some id → id ≠ "" →
  let run := on_pc_status sid d now write_ok w in
  pcConn run.1 id =
    Some (Conn true (Some sid) (Some (reportedStatus d (connOrEmpty w id))) (Some now)) ∧
  pcConnections run.1 = pcConnections (ensureConn id w).2 ∧
  pc_settings (db run.1) =
    (if write_ok
     then updateStatus id (Some (reportedStatus d (connOrEmpty w id))) now (pc_settings (db w))
     else pc_settings (db w)) ∧
  block_periods (db run.1) = block_periods (db w) ∧
  sockets run.1 = sockets (tagSocket sid id w).
Proof.
  intros Hid Hne run. subst run.
  rewrite (on_pc_status_resolved _ _ _ _ _ _ Hid Hne). cbv zeta.
  pose proof (ensureConn_db id w) as Hdb.
  pose proof (ensureConn_ref id w) as Href.
  pose proof (ensureConn_sockets id w) as Hsock.
  set (l := (ensureConn id w).1) in *. set (w1 := (ensureConn id w).2) in *.
  destruct write_ok; simpl; rewrite Hdb; (split_and!; try done).
  - erewrite pcConn_ref by exact Href.
    by rewrite deref_set_pc_settings, deref_tagSocket, !deref_update_eq.
  - unfold tagSocket. simpl. by rewrite Hsock.
  - erewrite pcConn_ref by exact Href.
    by rewrite deref_tagSocket, !deref_update_eq.
  - unfold tagSocket. simpl. by rewrite Hsock.
Qed.

Lemma reportedStatus_given (d : status_data) (c : conn) (s : string) :
  sd_status d = Some s → s ≠ "" → reportedStatus d c = s.
Proof.
  intros Hs Hne%truthy_string_nonempty. unfold reportedStatus, js_or. rewrite Hs.
  change (truthy (Some s)) with (truthy s). rewrite Hne. by apply js_or_lit_truthy.
Qed.

Lemma incomingId_explicit (w : world) (sid : string) (d : status_data) (id : string) :
  sd_id d = Some id → id ≠ "" → incomingId w sid d = Some id.
Proof.
  intros Hid Hne%truthy_string_nonempty. unfold incomingId. rewrite Hid.
  change (truthy (Some id)) with (truthy id). by rewrite Hne.
Qed.

(** C4, as the code has it. For every status report that resolves to a pc
    id, the registry entry becomes (status, lastStatusAt = now, connected,
    this socket); the store write is an UPDATE of the existing row for the
    pc id (nothing is written when there is no such row); the broadcast
    follows, whether or not the write succeeded, and a failed write leaves
    the registry exactly as a successful one does. *)
Theorem status_report_updates_then_broadcasts (w : world) (sid : string)
    (d : status_data) (now : Z) (write_ok : bool) (id : string) :
  incomingId w sid d = Some id → id ≠ "" →
  let st := reportedStatus d (connOrEmpty w id) in
  let run := on_pc_status sid d now write_ok w in
  let run_ok := on_pc_status sid d now true w in
  pcConn run.1 id = Some (Conn true (Some sid) (Some st) (Some now)) ∧
  pcConnections run.1 = pcConnections run_ok.1 ∧
  objs run.1 = objs run_ok.1 ∧
  pc_settings (db run.1) =
    (if write_ok then updateStatus id (Some st) now (pc_settings (db w))
     else pc_settings (db w)) ∧
  (selectPc id (pc_settings (db w)) = None →
     pc_settings (db run.1) = pc_settings (db w)) ∧
  (∀ row, selectPc id (pc_settings (db w)) = Some row → write_ok = true →
     selectPc id (pc_settings (db run.1)) =
       Some (PcRow id (name row) (last_seen row) (owner_id row) (ip row)
                   (Some st) (Some now))) ∧
  run.2 = broadcastUpdate run.1 ∧
  (∀ o, o ≠ 0 → selectByOwner o (pc_settings (db w)) ≠ [] →
     ∃ l, Emit (ToDashboard o) (PcUpdate l) ∈ run.2).
Proof.
  intros Hid Hne st run run_ok. subst run run_ok.
  rewrite !(on_pc_status_resolved _ _ _ _ _ _ Hid Hne). cbv zeta. fold st.
  pose proof (ensureConn_db id w) as Hdb.
  pose proof (ensureConn_ref id w) as Href.
  set (l := (ensureConn id w).1) in *. set (w1 := (ensureConn id w).2) in *.
  assert (∀ o, o ≠ 0 → selectByOwner o (pc_settings (db w)) ≠ [] →
            ∀ w', selectByOwner o (pc_settings (db w')) ≠ [] →
              ∃ l0, Emit (ToDashboard o) (PcUpdate l0) ∈ broadcastUpdate w') as Hbc.
  { intros o Ho _ w' Hw'. eexists. apply elem_of_broadcastUpdate.
    exists o. split_and!; [by apply truthy_Z_nonzero | done | done]. }
  destruct write_ok; simpl; rewrite Hdb; (split_and!; try done).
  - erewrite pcConn_ref by exact Href.
    by rewrite deref_set_pc_settings, deref_tagSocket, !deref_update_eq.
  - by apply updateStatus_absent.
  - intros row Hrow _. rewrite selectPc_updateStatus, Hrow. simpl.
    apply selectPc_Some in Hrow as [_ Hpc]. rewrite decide_True by done.
    by rewrite Hpc.
  - intros o Ho Hown. apply (Hbc o Ho Hown). simpl.
    by apply selectByOwner_updateStatus.
  - erewrite pcConn_ref by exact Href.
    by rewrite deref_tagSocket, !deref_update_eq.
  - intros o Ho Hown. apply (Hbc o Ho Hown). simpl. by rewrite Hdb.
Qed.

Lemma status_report_updates_then_broadcasts_witness :
  pcConn (on_pc_status "s1" Sample.report_lab 3000 false Sample.fresh).1 "tmp1" =
    Some (Conn true (Some "s1") (Some "Locked") (Some 3000)).
Proof.
  exact (proj1 (status_report_updates_then_broadcasts Sample.fresh "s1"
                  Sample.report_lab 3000 false "tmp1" eq_refl ltac:(discriminate))).
Defined.

(** C4 as stated fails: a report for a pc id without a row resolves to that
    id and updates the registry, yet nothing is inserted in the store. *)
Lemma status_report_does_not_insert_row :
  let run := on_pc_status "s1" Sample.report_unregistered 3000 true Sample.fresh in
  incomingId Sample.fresh "s1" Sample.report_unregistered = Some "tmp7" ∧
  pcConn run.1 "tmp7" = Some (Conn true (Some "s1") (Some "Locked") (Some 3000)) ∧
  selectPc "tmp7" (pc_settings (db run.1)) = None ∧
  pc_settings (db run.1) = pc_settings (db Sample.fresh).
Proof. vm_compute. done. Qed.

(** ** Schedule pushes *)

Lemma length_pos_nonempty {A} (l : list A) : (0 < length l)%nat → l ≠ [].
Proof. destruct l; simpl; [lia | done]. Qed.

(** The schedule notification never sends an empty list. *)
Lemma notifyScheduleChangeForUser_nonempty (userId : Z) (w : world) (e : emit)
    (rows : list block_period) :
  e ∈ notifyScheduleChangeForUser userId w → em_msg e = ScheduleUpdate rows → rows ≠ [].
Proof.
  unfold notifyScheduleChangeForUser. intros [Hin|Hin]%elem_of_app Hmsg.
  - apply list_elem_of_In, List.in_flat_map in Hin as (r & _ & Hin).
    apply list_elem_of_In in Hin.
    destruct (pcConn w (pc_id r)) as [c|]; [|by apply elem_of_nil in Hin].
    destruct (socketId c) as [s|]; [|by apply elem_of_nil in Hin].
    destruct (connected c && truthy s); [|by apply elem_of_nil in Hin].
    case_bool_decide as Hlen; [|by apply elem_of_nil in Hin].
    apply list_elem_of_singleton in Hin as ->. injection Hmsg as <-.
    by apply length_pos_nonempty.
  - case_bool_decide as Hlen; [|by apply elem_of_nil in Hin].
    apply list_elem_of_singleton in Hin as ->. injection Hmsg as <-.
    by apply length_pos_nonempty.
Qed.

(** Neither does the HTTP registration. *)
Lemma api_register_pc_nonempty (session : option Z) (b : register_body) (now : Z)
    (w : world) (e : emit) (rows : list block_period) :
  e ∈ (api_register_pc session b now w).1.2 → em_msg e = ScheduleUpdate rows → rows ≠ [].
Proof.
  unfold api_register_pc.
  destruct (requireAuth session) as [userId|]; [|by intros ?%elem_of_nil].
  destruct (rb_id b) as [id|]; [|by intros ?%elem_of_nil].
  destruct (truthy id); [|by intros ?%elem_of_nil]. simpl.
  intros [Hin|Hin]%elem_of_app Hmsg.
  - match type of Hin with _ ∈ match pcConn ?w1 id with _ => _ end =>
      destruct (pcConn w1 id) as [c|]; [|by apply elem_of_nil in Hin] end.
    destruct (socketId c) as [s|]; [|by apply elem_of_nil in Hin].
    destruct (_ && _ && _); [|by apply elem_of_nil in Hin].
    case_bool_decide as Hlen; [|by apply elem_of_nil in Hin].
    apply list_elem_of_singleton in Hin as ->. injection Hmsg as <-.
    by apply length_pos_nonempty.
  - apply elem_of_broadcastUpdate in Hin as (o & _ & _ & ->). done.
Qed.

(** C8 fails on the socket registration: [register_pc] for a connected PC
    whose owner has no block period sends [schedule_update] with an empty
    list. *)
Theorem register_pc_pushes_empty_schedule :
  selectPeriods 7 (block_periods (db Sample.fresh)) = [] ∧
  (on_register_pc "s1" Sample.announce_lab 2000 Sample.fresh).2 =
    [Emit (ToSocket "s1") (ScheduleUpdate [])].
Proof. vm_compute. done. Qed.

(** ** Probe: the ownership check *)



(** ** Announces *)

Section announce.
Implicit Types (w : world) (sid id k : string).

Lemma announceConn_eq sid id w :
  announceConn sid id w =
    let l := (ensureConn id w).1 in
    let w1 := (ensureConn id w).2 in
    (l, tagSocket sid id
          (hydrateStatus id l
             (update l (with_socketId (Some sid)) (update l (with_connected true) w1)))).
Proof. unfold announceConn. by destruct (ensureConn id w). Qed.

Lemma announceConn_ref sid id w :
  connRef (announceConn sid id w).2 id = Some (announceConn sid id w).1.
Proof.
  rewrite announceConn_eq. cbv zeta. cbn [fst snd].
  rewrite connRef_tagSocket, hydrateStatus_ref, !connRef_update.
  apply ensureConn_ref.
Qed.

Lemma announceConn_registry sid id w :
  pcConnections (announceConn sid id w).2 = pcConnections (ensureConn id w).2.
Proof.
  rewrite announceConn_eq. cbv zeta. cbn [fst snd]. unfold tagSocket. simpl.
  unfold hydrateStatus. repeat case_match; done.
Qed.

Lemma announceConn_db sid id w : db (announceConn sid id w).2 = db w.
Proof.
  rewrite announceConn_eq. cbv zeta. cbn [fst snd].
  unfold tagSocket. simpl. rewrite hydrateStatus_db. simpl. apply ensureConn_db.
Qed.

Lemma announceConn_sockets sid id w :
  sockets (announceConn sid id w).2 = sockets (tagSocket sid id w).
Proof.
  rewrite announceConn_eq. cbv zeta. cbn [fst snd].
  unfold tagSocket. simpl. rewrite hydrateStatus_sockets. simpl.
  by rewrite ensureConn_sockets.
Qed.

(** The entry after the announce: connected on this socket, with the
    status and timestamp it had, the status being loaded from the store
    only when none was known. *)
Lemma announceConn_deref sid id w :
  deref (announceConn sid id w).2 (announceConn sid id w).1 =
    let c0 := connOrEmpty w id in
    Conn true (Some sid)
         (js_or (status c0)
                (js_or (selectPc id (pc_settings (db w)) ≫= last_status) (status c0)))
         (lastStatusAt c0).
Proof.
  rewrite announceConn_eq. cbv zeta. cbn [fst snd].
  rewrite deref_tagSocket, hydrateStatus_deref. simpl db.
  rewrite !deref_update_eq, ensureConn_db, ensureConn_deref. done.
Qed.


Lemma sessionOwner_tagSocket sid id w sid' :
  sessionOwner (tagSocket sid id w) sid' = sessionOwner w sid'.
Proof.
  unfold sessionOwner, socketOf, tagSocket. simpl.
  induction (sockets w) as [|[sid0 sk] l IH]; simpl; [done|].
  destruct (decide (sid0 = sid)) as [->|Hne]; simpl.
  - destruct (bool_decide (sid = sid')); [done | apply IH].
  - destruct (bool_decide (sid0 = sid')); [done | apply IH].
Qed.

Lemma sessionOwner_sockets w w' sid :
  sockets w = sockets w' → sessionOwner w sid = sessionOwner w' sid.
Proof. unfold sessionOwner, socketOf. by intros ->. Qed.
End announce.

(** ** Lookup by display name *)

Lemma foldl_pick_map (g : pc_row → pc_row) (l : list pc_row) (b : option pc_row) :
  (∀ r, last_seen (g r) = last_seen r) →
  foldl (λ best r,
           match best with
           | None => Some r
           | Some b => if seen_before (last_seen r) (last_seen b) then Some r else Some b
           end) (g <$> b) (map g l) =
  g <$> foldl (λ best r,
           match best with
           | None => Some r
           | Some b => if seen_before (last_seen r) (last_seen b) then Some r else Some b
           end) b l.
Proof.
  intros Hg. revert b. induction l as [|r l IH]; intros b; simpl; [done|].
  rewrite <- IH. f_equal. destruct b as [b|]; simpl; [|done].
  rewrite !Hg. by destruct (seen_before _ _).
Qed.

(** The lookup is insensitive to updates of the other columns. *)
Lemma findDeviceByName_map (g : pc_row → pc_row) (nm : string) (t : list pc_row) :
  (∀ r, name (g r) = name r) → (∀ r, last_seen (g r) = last_seen r) →
  findDeviceByName nm (map g t) = g <$> findDeviceByName nm t.
Proof.
  intros Hname Hseen. unfold findDeviceByName.
  rewrite <- (foldl_pick_map g _ None) by done. simpl. f_equal.
  induction t as [|r t IH]; simpl; [done|]. rewrite Hname.
  destruct (bool_decide (name r = Some nm)); simpl; by rewrite IH.
Qed.



Lemma existingByName_db (nm : option string) (w w' : world) :
  pc_settings (db w) = pc_settings (db w') → existingByName nm w = existingByName nm w'.
Proof. unfold existingByName. by intros ->. Qed.


Lemma existingByName_updateStatus (nm : option string) (w : world) (pcId : string)
    (st : option string) (at_ : Z) :
  existingByName nm (set_pc_settings (updateStatus pcId st at_ (pc_settings (db w))) w) =
    (λ r, if decide (pc_id r = pcId)
          then PcRow (pc_id r) (name r) (last_seen r) (owner_id r) (ip r) st (Some at_)
          else r) <$> existingByName nm w.
Proof.
  unfold existingByName. destruct nm as [n|]; [|done].
  destruct (truthy n); [|done]. simpl.
  unfold updateStatus. apply findDeviceByName_map; intros r; by destruct (decide _).
Qed.

Lemma on_register_pc_eq (sid : string) (d : register_data) (now : Z) (w : world) :
  rd_clientType d = Some "pc_app" →
  on_register_pc sid d now w =
    let id := rd_id d in
    let l := (announceConn sid id w).1 in
    let w4 := (announceConn sid id w).2 in
    let existing := existingByName (rd_name d) w in
    let finalPcId := js_or_lit (pc_id <$> existing) id in
    let w5 :=
      set_pc_settings
        (upsertOnAnnounce finalPcId (js_or_lit (rd_name d) id) now
                          (js_or (rd_localIp d) None) (ownerIdToUse existing w sid)
                          (pc_settings (db w)))
        w4 in
    if mergesInto existing id then
      let w6 :=
        tagSocket sid finalPcId
          (set_registry
             (JsObject.del id (JsObject.set finalPcId l (pcConnections w5))) w5) in
      (w6, pushScheduleOnRegister finalPcId w6)
    else (w5, pushScheduleOnRegister id w5).
Proof.
  intros Hct. unfold on_register_pc. rewrite decide_True by done.
  pose proof (announceConn_db sid (rd_id d) w) as Hdb.
  pose proof (announceConn_sockets sid (rd_id d) w) as Hsock.
  destruct (announceConn sid (rd_id d) w) as [l w4]. cbn [fst snd] in *.
  rewrite (existingByName_db _ w4 w) by by rewrite Hdb.
  assert (∀ ex, ownerIdToUse ex w4 sid = ownerIdToUse ex w sid) as ->.
  { intros ex. unfold ownerIdToUse.
    by rewrite (sessionOwner_sockets w4 (tagSocket sid (rd_id d) w) sid Hsock),
               sessionOwner_tagSocket. }
  by rewrite Hdb.
Qed.

(** When the lookup by name finds nothing, or the announcing id itself, the
    entry of the announcing id is the announced one. *)
Lemma on_register_pc_entry (sid : string) (d : register_data) (now : Z) (w : world) :
  rd_clientType d = Some "pc_app" →
  mergesInto (existingByName (rd_name d) w) (rd_id d) = false →
  let w' := (on_register_pc sid d now w).1 in
  let c0 := connOrEmpty w (rd_id d) in
  pcConn w' (rd_id d) =
    Some (Conn true (Some sid)
               (js_or (status c0)
                      (js_or (selectPc (rd_id d) (pc_settings (db w)) ≫= last_status)
                             (status c0)))
               (lastStatusAt c0)) ∧
  pcConnections w' = pcConnections (ensureConn (rd_id d) w).2.
Proof.
  intros Hct Hmerge. rewrite (on_register_pc_eq _ _ _ _ Hct). cbv zeta.
  rewrite Hmerge. cbn [fst]. split.
  - erewrite pcConn_ref by apply announceConn_ref.
    by rewrite deref_set_pc_settings, announceConn_deref.
  - simpl. apply announceConn_registry.
Qed.

Lemma mergesInto_same (existing : option pc_row) (id : string) :
  (∀ a, existing = Some a → pc_id a = id) → mergesInto existing id = false.
Proof.
  intros Hsame. unfold mergesInto. destruct existing as [a|]; [|done].
  simpl. rewrite (Hsame a eq_refl), bool_decide_eq_true_2 by done.
  apply andb_false_r.
Qed.

Lemma ensureConn_present (k : string) (w : world) :
  is_Some (connRef w k) → (ensureConn k w).2 = w.
Proof. intros [l Hl]. unfold ensureConn. by rewrite Hl. Qed.

Lemma ensureConn_idemp (k : string) (w w' : world) :
  pcConnections w' = pcConnections (ensureConn k w).2 →
  pcConnections (ensureConn k w').2 = pcConnections (ensureConn k w).2.
Proof.
  intros Hreg. rewrite ensureConn_present; [done|].
  unfold connRef. rewrite Hreg. fold (connRef (ensureConn k w).2 k).
  rewrite ensureConn_ref. eauto.
Qed.

(** ** Identity reconciliation *)






(** ** Lifetime of registry entries *)

Section keys.
Implicit Types (w : world) (k : string) (tl : timeline) (r : running).















Lemma probeOffline_state pcId r : pr_state (probeOffline pcId r) = r.
Proof. unfold probeOffline. repeat case_match; done. Qed.


End keys.



(** ** Waiting *)

Section waiting.
Implicit Types (w : world) (tl : timeline) (r : running) (ms a b : nat).

Lemma sleep_now ms now tl w out : r_now (sleep ms now tl w out) = now + Z.of_nat ms.
Proof.
  revert ms now w out. induction tl as [|[d e] tl IH]; intros ms now w out;
    cbn [sleep]; [done|].
  destruct (d <=? ms)%nat eqn:Hd; [|done].
  destruct (handle (now + Z.of_nat d) e w) as [w' o]. rewrite IH.
  apply Nat.leb_le in Hd. lia.
Qed.

(** What has been sent so far does not influence the wait. *)
Lemma sleep_out ms now tl w out :
  sleep ms now tl w out =
    Running (r_world (sleep ms now tl w [])) (r_now (sleep ms now tl w []))
            (r_rest (sleep ms now tl w [])) (out ++ r_out (sleep ms now tl w [])).
Proof.
  revert ms now w out. induction tl as [|[d e] tl IH]; intros ms now w out;
    cbn [sleep].
  - by rewrite app_nil_r.
  - destruct (d <=? ms)%nat; [|by rewrite app_nil_r].
    destruct (handle (now + Z.of_nat d) e w) as [w' o].
    rewrite (IH _ _ _ (out ++ o)), (IH _ _ _ ([] ++ o)). simpl.
    by rewrite app_assoc.
Qed.

Lemma sleep_world ms now tl w out :
  r_world (sleep ms now tl w out) = worldAfter ms now tl w.
Proof. by rewrite sleep_out. Qed.

(** Two waits in a row are one longer wait. *)
Lemma sleep_add a b now tl w out :
  sleep b (r_now (sleep a now tl w out)) (r_rest (sleep a now tl w out))
          (r_world (sleep a now tl w out)) (r_out (sleep a now tl w out)) =
  sleep (a + b) now tl w out.
Proof.
  revert a now w out. induction tl as [|[d e] tl IH]; intros a now w out.
  - cbn [sleep r_now r_rest r_world r_out]. f_equal. lia.
  - cbn [sleep]. destruct (d <=? a)%nat eqn:Hda.
    + apply Nat.leb_le in Hda.
      rewrite (proj2 (Nat.leb_le d (a + b))) by lia.
      destruct (handle (now + Z.of_nat d) e w) as [w' o].
      rewrite IH. f_equal. lia.
    + apply Nat.leb_gt in Hda. cbn [sleep r_now r_rest r_world r_out].
      replace (now + Z.of_nat a + Z.of_nat (d - a)) with (now + Z.of_nat d) by lia.
      destruct (d <=? a + b)%nat eqn:Hdab.
      * apply Nat.leb_le in Hdab. rewrite (proj2 (Nat.leb_le (d - a) b)) by lia.
        destruct (handle (now + Z.of_nat d) e w) as [w' o].
        f_equal. lia.
      * apply Nat.leb_gt in Hdab. rewrite (proj2 (Nat.leb_gt (d - a) b)) by lia.
        f_equal; [lia|]. do 2 f_equal. lia.
Qed.

(** The fast path times out when no answering event is due. *)
Lemma race_unanswered ms sid pcId probeId l aR aS now tl w out :
  unanswered ms sid pcId probeId tl = true →
  race ms sid pcId probeId l aR aS now tl w out = (None, sleep ms now tl w out).
Proof.
  revert ms aR aS now w out.
  induction tl as [|[d e] tl IH]; intros ms aR aS now w out; cbn [race sleep unanswered];
    [done|].
  destruct (d <=? ms)%nat; [|done].
  intros [Hans Hrest]%andb_true_iff. apply negb_true_iff in Hans.
  destruct (handle (now + Z.of_nat d) e w) as [w' o].
  destruct e as [s0 s|s0 rd|s0 sd ok|s0 p|s0]; cbn [answers] in Hans; try by apply IH.
  - destruct (bool_decide (s0 = sid)); [|rewrite andb_false_r; by apply IH].
    rewrite andb_true_r. destruct aS; [|by apply IH].
    unfold pcStatusHandler. simpl in Hans. rewrite Hans. by apply IH.
  - destruct (bool_decide (s0 = sid)); [|rewrite andb_false_r; by apply IH].
    rewrite andb_true_r. destruct aR; [|by apply IH].
    unfold replyHandler. simpl in Hans. rewrite Hans. by apply IH.
Qed.

Lemma scanLoop_S fuel pcId scanStart conn r :
  scanLoop (S fuel) pcId scanStart conn r =
    if r_now r - scanStart <? Z.of_nat scanTimeoutMs then
      match scanOnce pcId (r_world r) with
      | Some (l, w') => (Some l, Running w' (r_now r) (r_rest r) (r_out r))
      | None =>
          scanLoop fuel pcId scanStart conn
                   (sleep scanIntervalMs (r_now r) (r_rest r) (r_world r) (r_out r))
      end
    else (conn, r).
Proof. done. Qed.

Lemma scanLoop_O pcId scanStart conn r : scanLoop 0 pcId scanStart conn r = (conn, r).
Proof. cbn [scanLoop]. by destruct (_ <? _). Qed.

Lemma scan_constants :
  scanFuel = 20%nat ∧ scanIntervalMs = 100%nat ∧ scanTimeoutMs = 2000%nat.
Proof. by vm_compute. Qed.

(** The fuel of the rescan loop is enough: once the clock is within
    [fuel] intervals of the end of the window, more fuel changes nothing. *)
Lemma scanLoop_fuel fuel extra pcId scanStart conn r :
  Z.of_nat scanTimeoutMs - Z.of_nat scanIntervalMs * Z.of_nat fuel ≤ r_now r - scanStart →
  scanLoop (fuel + extra) pcId scanStart conn r = scanLoop fuel pcId scanStart conn r.
Proof.
  destruct scan_constants as (HF & HI & HT).
  revert r. induction fuel as [|fuel IH]; intros r Hr.
  - rewrite scanLoop_O. destruct extra as [|extra]; [by rewrite scanLoop_O|].
    cbn [Nat.add]. rewrite scanLoop_S. by rewrite (proj2 (Z.ltb_ge _ _)) by lia.
  - cbn [Nat.add]. rewrite !scanLoop_S.
    destruct (_ <? _); [|done]. destruct (scanOnce _ _) as [[l w']|]; [done|].
    apply IH. rewrite sleep_now. lia.
Qed.

Lemma scanLoop_enough_fuel extra pcId now conn tl w :
  scanLoop (scanFuel + extra) pcId now conn (Running w now tl []) =
    scanLoop scanFuel pcId now conn (Running w now tl []).
Proof.
  apply scanLoop_fuel. destruct scan_constants as (-> & -> & ->). simpl r_now. lia.
Qed.

(** If every rescan comes back empty, the loop gives up when the window
    closes, still holding the reference it started with. *)
Lemma scanLoop_unresolved fuel i pcId now conn tl w out :
  (i + fuel = scanFuel)%nat →
  (∀ j, (i ≤ j < scanFuel)%nat →
        scanOnce pcId (worldAfter (scanIntervalMs * j) now tl w) = None) →
  scanLoop fuel pcId now conn (sleep (scanIntervalMs * i) now tl w out) =
    (conn, sleep scanTimeoutMs now tl w out).
Proof.
  destruct scan_constants as (HF & HI & HT).
  revert i. induction fuel as [|fuel IH]; intros i Hi Hscan.
  - rewrite scanLoop_O. do 2 f_equal. lia.
  - rewrite scanLoop_S, sleep_add, sleep_now.
    rewrite (proj2 (Z.ltb_lt _ _)) by lia.
    rewrite sleep_world, Hscan by lia.
    replace (scanIntervalMs * i + scanIntervalMs)%nat with (scanIntervalMs * S i)%nat
      by lia.
    apply IH; [lia|]. intros j Hj. apply Hscan. lia.
Qed.

Lemma pollLoop_S fuel elapsed start l r :
  pollLoop (S fuel) elapsed start l r =
    if elapsed <? pollTimeoutMs then
      if start <=? js_or_lit (lastStatusAt (deref (r_world r) l)) 0 then r
      else pollLoop fuel (elapsed + Z.of_nat pollIntervalMs) start l
                    (sleep pollIntervalMs (r_now r) (r_rest r) (r_world r) (r_out r))
    else r.
Proof. done. Qed.

Lemma pollLoop_O elapsed start l r : pollLoop 0 elapsed start l r = r.
Proof. cbn [pollLoop]. by destruct (_ <? _). Qed.

Lemma poll_constants :
  pollFuel = 30%nat ∧ pollIntervalMs = 100%nat ∧ pollTimeoutMs = 3000.
Proof. by vm_compute. Qed.

(** The fuel of the polling loop is enough as well. *)
Lemma pollLoop_fuel fuel extra elapsed start l r :
  pollTimeoutMs - Z.of_nat pollIntervalMs * Z.of_nat fuel ≤ elapsed →
  pollLoop (fuel + extra) elapsed start l r = pollLoop fuel elapsed start l r.
Proof.
  destruct poll_constants as (HF & HI & HT).
  revert elapsed r. induction fuel as [|fuel IH]; intros elapsed r Hr.
  - rewrite pollLoop_O. destruct extra as [|extra]; [by rewrite pollLoop_O|].
    cbn [Nat.add]. rewrite pollLoop_S. by rewrite (proj2 (Z.ltb_ge _ _)) by lia.
  - cbn [Nat.add]. rewrite !pollLoop_S.
    destruct (_ <? _); [|done]. destruct (_ <=? _); [done|].
    apply IH. lia.
Qed.

Lemma pollLoop_enough_fuel extra start l r :
  pollLoop (pollFuel + extra) 0 start l r = pollLoop pollFuel 0 start l r.
Proof. apply pollLoop_fuel. destruct poll_constants as (-> & -> & ->). lia. Qed.

(** If [lastStatusAt] stays behind the start of the probe at every poll,
    the loop runs for the whole [pollTimeoutMs]. *)
Lemma pollLoop_unanswered fuel i start l base now tl w out :
  (i + fuel = pollFuel)%nat →
  (∀ j, (i ≤ j < pollFuel)%nat →
        js_or_lit (lastStatusAt (deref (worldAfter (base + pollIntervalMs * j) now tl w) l)) 0
          < start) →
  pollLoop fuel (Z.of_nat (pollIntervalMs * i)) start l
           (sleep (base + pollIntervalMs * i) now tl w out) =
    sleep (base + Z.to_nat pollTimeoutMs) now tl w out.
Proof.
  destruct poll_constants as (HF & HI & HT).
  revert i. induction fuel as [|fuel IH]; intros i Hi Hpoll.
  - rewrite pollLoop_O. f_equal. lia.
  - rewrite pollLoop_S, sleep_add. rewrite (proj2 (Z.ltb_lt _ _)) by lia.
    rewrite sleep_world. rewrite (proj2 (Z.leb_gt _ _)) by (apply Hpoll; lia).
    replace (base + pollIntervalMs * i + pollIntervalMs)%nat
      with (base + pollIntervalMs * S i)%nat by lia.
    replace (Z.of_nat (pollIntervalMs * i) + Z.of_nat pollIntervalMs)
      with (Z.of_nat (pollIntervalMs * S i)) by lia.
    apply IH; [lia|]. intros j Hj. apply Hpoll. lia.
Qed.

(** *** Every wait is bounded *)

Lemma race_now ms sid pcId probeId l aR aS now tl w out :
  now ≤ r_now (race ms sid pcId probeId l aR aS now tl w out).2 ≤ now + Z.of_nat ms.
Proof.
  revert ms aR aS now w out.
  induction tl as [|[d e] tl IH]; intros ms aR aS now w out; cbn [race]; [simpl; lia|].
  destruct (d <=? ms)%nat eqn:Hd; [|simpl; lia]. apply Nat.leb_le in Hd.
  destruct (handle (now + Z.of_nat d) e w) as [w' o].
  assert (∀ aR' aS',
            now ≤ r_now (race (ms - d) sid pcId probeId l aR' aS'
                              (now + Z.of_nat d) tl w' (out ++ o)).2
                ≤ now + Z.of_nat ms) as Hrec.
  { intros aR' aS'.
    pose proof (IH (ms - d)%nat aR' aS' (now + Z.of_nat d) w' (out ++ o)). lia. }
  destruct e as [s0 s|s0 rd|s0 sd ok|s0 p|s0]; try apply Hrec.
  - destruct (aS && bool_decide (s0 = sid)); [|apply Hrec].
    destruct (pcStatusHandler _ _ _ _); [simpl; lia | apply Hrec].
  - destruct (aR && bool_decide (s0 = sid)); [|apply Hrec].
    destruct (replyHandler _ _ _); [simpl; lia | apply Hrec].
Qed.

Lemma scanLoop_now fuel i pcId scanStart conn r :
  (i + fuel = scanFuel)%nat →
  r_now r = scanStart + Z.of_nat (scanIntervalMs * i) →
  ∃ k, (i ≤ k ≤ scanFuel)%nat ∧
       r_now (scanLoop fuel pcId scanStart conn r).2 =
         scanStart + Z.of_nat (scanIntervalMs * k).
Proof.
  destruct scan_constants as (HF & HI & HT).
  revert i r. induction fuel as [|fuel IH]; intros i r Hi Hr.
  - rewrite scanLoop_O. exists i. split; [lia | done].
  - rewrite scanLoop_S. destruct (_ <? _); [|exists i; split; [lia | done]].
    destruct (scanOnce _ _) as [[l w']|]; [exists i; split; [lia | done]|].
    destruct (IH (S i) (sleep scanIntervalMs (r_now r) (r_rest r) (r_world r) (r_out r)))
      as (k & Hk & Hnow); [lia | rewrite sleep_now; lia |].
    exists k. split; [lia | done].
Qed.

Lemma pollLoop_now fuel i start l r :
  (i + fuel = pollFuel)%nat →
  ∃ k, (i ≤ k ≤ pollFuel)%nat ∧
       r_now (pollLoop fuel (Z.of_nat (pollIntervalMs * i)) start l r) =
         r_now r + Z.of_nat (pollIntervalMs * (k - i)).
Proof.
  destruct poll_constants as (HF & HI & HT).
  revert i r. induction fuel as [|fuel IH]; intros i r Hi.
  - rewrite pollLoop_O. exists i. split; [lia|]. lia.
  - rewrite pollLoop_S. destruct (_ <? _); [|exists i; split; lia].
    destruct (_ <=? _); [exists i; split; lia|].
    replace (Z.of_nat (pollIntervalMs * i) + Z.of_nat pollIntervalMs)
      with (Z.of_nat (pollIntervalMs * S i)) by lia.
    destruct (IH (S i) (sleep pollIntervalMs (r_now r) (r_rest r) (r_world r) (r_out r)))
      as (k & Hk & Hnow); [lia|].
    exists k. split; [lia|]. rewrite Hnow, sleep_now. lia.
Qed.

Lemma probeLive_now pcId probeId l r :
  r_now r ≤ r_now (pr_state (probeLive pcId probeId l r)) ≤ r_now r + 6000.
Proof.
  destruct poll_constants as (HF & HI & HT).
  unfold probeLive.
  assert (r_now r ≤ r_now (probeFastPath pcId probeId l r).2 ≤ r_now r + 3000) as Hfast.
  { unfold probeFastPath.
    destruct (socketId (deref (r_world r) l)) as [sid|]; [|simpl; lia].
    destruct (socketOf (r_world r) sid); [|simpl; lia].
    match goal with |- context [race ?ms ?a ?b ?c ?d ?e ?f ?g ?h ?i ?j] =>
      pose proof (race_now ms a b c d e f g h i j) as Hrace;
      destruct (race ms a b c d e f g h i j) as [[rep|] r'] end;
      cbn [snd applyReply r_now] in *;
      assert (Z.of_nat replyTimeoutMs = 3000) by (by vm_compute); lia. }
  destruct (probeFastPath pcId probeId l r) as [[|] r1]; cbn [snd] in Hfast;
    cbn [pr_state]; [lia|].
  destruct (pollLoop_now pollFuel 0 (r_now r) l r1) as (k & Hk & Hnow); [lia|].
  replace (Z.of_nat (pollIntervalMs * 0)) with 0 in Hnow by lia.
  rewrite Hnow. lia.
Qed.

(** Whatever happens around it, the probe answers within the 2 s of the
    rescan, the 3 s of the fast path and the 3 s of the polling. *)
Lemma api_pc_probe_bounded session pcId probeId now tl w :
  now ≤ r_now (pr_state (api_pc_probe session pcId probeId now tl w)) ≤ now + 8000.
Proof.
  destruct scan_constants as (HF & HI & HT).
  unfold api_pc_probe.
  destruct (requireAuth session) as [userId|]; [|simpl; lia].
  destruct (selectPc pcId (pc_settings (db w))) as [row|]; [|simpl; lia].
  destruct (decide (owner_id row = Some userId)); [|simpl; lia].
  assert (now ≤ r_now (if conn_live (deref w <$> connRef w pcId)
                       then (connRef w pcId, Running w now tl [])
                       else scanLoop scanFuel pcId now (connRef w pcId)
                                     (Running w now tl [])).2 ≤ now + 2000) as Hscan.
  { destruct (conn_live _); [simpl; lia|].
    destruct (scanLoop_now scanFuel 0 pcId now (connRef w pcId) (Running w now tl []))
      as (k & Hk & Hnow); [lia | simpl; lia |].
    rewrite Hnow. lia. }
  destruct (if conn_live (deref w <$> connRef w pcId) then _ else _) as [conn r1].
  cbn [snd] in Hscan.
  destruct conn as [l|]; [|rewrite probeOffline_state; lia].
  destruct (conn_live _); [|rewrite probeOffline_state; lia].
  pose proof (probeLive_now pcId probeId l r1). lia.
Qed.
End waiting.

(** ** Probe: a device that is not there *)

Lemma requireAuth_user (userId : Z) : userId ≠ 0 → requireAuth (Some userId) = Some userId.
Proof.
  intros Hu%truthy_Z_nonzero. unfold requireAuth.
  change (truthy (Some userId)) with (truthy userId). by rewrite Hu.
Qed.

Lemma api_pc_probe_owned (w : world) (userId : Z) (pcId probeId : string) (now : Z)
    (tl : timeline) (row : pc_row) :
  userId ≠ 0 →
  selectPc pcId (pc_settings (db w)) = Some row → owner_id row = Some userId →
  api_pc_probe (Some userId) pcId probeId now tl w =
    let r0 := Running w now tl [] in
    let scanned :=
      if conn_live (pcConn w pcId) then (connRef w pcId, r0)
      else scanLoop scanFuel pcId now (connRef w pcId) r0 in
    match scanned.1 with
    | Some l =>
        if conn_live (Some (deref (r_world scanned.2) l))
        then probeLive pcId probeId l scanned.2
        else probeOffline pcId scanned.2
    | None => probeOffline pcId scanned.2
    end.
Proof.
  intros Hu Hrow Hown. unfold api_pc_probe.
  rewrite (requireAuth_user _ Hu), Hrow, decide_True by done.
  cbv zeta. fold (pcConn w pcId).
  by destruct (if conn_live (pcConn w pcId) then _ else _).
Qed.

Lemma probeOffline_response (pcId : string) (r : running) :
  let persisted := selectPc pcId (pc_settings (db (r_world r))) in
  (∃ st, persisted ≫= last_status = Some st ∧ st ≠ "" ∧
         pr_response (probeOffline pcId r) =
           Json (Stale st (persisted ≫= last_status_at))) ∨
  ((persisted ≫= last_status = None ∨ persisted ≫= last_status = Some "") ∧
   pr_response (probeOffline pcId r) = Error 503 offlineMessage).
Proof.
  cbv zeta. unfold probeOffline.
  destruct (selectPc pcId (pc_settings (db (r_world r)))) as [row|]; simpl; [|by auto].
  destruct (last_status row) as [st|]; [|by auto].
  destruct (truthy st) eqn:Hst.
  - left. exists st. by apply truthy_string_nonempty in Hst.
  - right. destruct st; [by auto | discriminate].
Qed.

(** C9. A probe of an owned device that has no live connection, that no
    rescan finds (no socket id in its entry and no socket tagged with it,
    at the first pass and at each of the passes made every
    [scanIntervalMs]) and whose entry is still not live when the window
    closes, answers after exactly the [scanTimeoutMs] of rescanning, 2 s,
    well within 5 s: with the persisted [last_status] and [last_status_at],
    tagged stale, when a status is persisted, and with the 503 "offline,
    retry" otherwise. *)
Theorem probe_of_absent_device_is_bounded (w : world) (userId : Z)
    (pcId probeId : string) (now : Z) (tl : timeline) (row : pc_row) :
  userId ≠ 0 →
  selectPc pcId (pc_settings (db w)) = Some row → owner_id row = Some userId →
  conn_live (pcConn w pcId) = false →
  scanOnce pcId w = None →
  (∀ i, (1 ≤ i < scanFuel)%nat →
        scanOnce pcId (worldAfter (scanIntervalMs * i) now tl w) = None) →
  (∀ l, connRef w pcId = Some l →
        conn_live (Some (deref (worldAfter scanTimeoutMs now tl w) l)) = false) →
  let run := api_pc_probe (Some userId) pcId probeId now tl w in
  let persisted := selectPc pcId (pc_settings (db (worldAfter scanTimeoutMs now tl w))) in
  r_now (pr_state run) = now + 2000 ∧
  r_now (pr_state run) - now ≤ 5000 ∧
  r_world (pr_state run) = worldAfter scanTimeoutMs now tl w ∧
  ((∃ st, persisted ≫= last_status = Some st ∧ st ≠ "" ∧
          pr_response run = Json (Stale st (persisted ≫= last_status_at))) ∨
   ((persisted ≫= last_status = None ∨ persisted ≫= last_status = Some "") ∧
    pr_response run = Error 503 offlineMessage)).
Proof.
  intros Hu Hrow Hown Hlive Hfirst Hscan Hheld run persisted. subst run persisted.
  rewrite (api_pc_probe_owned _ _ _ _ _ _ _ Hu Hrow Hown). cbv zeta.
  rewrite Hlive.
  destruct scan_constants as (HF & HI & HT).
  assert (scanLoop scanFuel pcId now (connRef w pcId) (Running w now tl []) =
          (connRef w pcId, sleep scanTimeoutMs now tl w [])) as ->.
  { rewrite HF, scanLoop_S. cbn [r_now r_world r_rest r_out].
    rewrite (proj2 (Z.ltb_lt _ _)) by lia. rewrite Hfirst.
    replace scanIntervalMs with (scanIntervalMs * 1)%nat at 1 by lia.
    apply scanLoop_unresolved; [lia|]. intros j Hj. apply Hscan. lia. }
  cbn [fst snd].
  assert (match connRef w pcId with
          | Some l =>
              if conn_live (Some (deref (r_world (sleep scanTimeoutMs now tl w [])) l))
              then probeLive pcId probeId l (sleep scanTimeoutMs now tl w [])
              else probeOffline pcId (sleep scanTimeoutMs now tl w [])
          | None => probeOffline pcId (sleep scanTimeoutMs now tl w [])
          end = probeOffline pcId (sleep scanTimeoutMs now tl w [])) as ->.
  { destruct (connRef w pcId) as [l|] eqn:Hl; [|done].
    fold (worldAfter scanTimeoutMs now tl w). by rewrite (Hheld l eq_refl). }
  rewrite probeOffline_state, sleep_now. split_and!; [lia | lia | done |].
  apply (probeOffline_response pcId (sleep scanTimeoutMs now tl w [])).
Qed.

Lemma probe_of_absent_device_is_bounded_witness :
  let run := api_pc_probe (Some 7) "tmp1" "tok" 5000 Sample.bystander Sample.fresh in
  r_now (pr_state run) = 7000 ∧
  pr_response run = Json (Stale "Unlocked" (Some 900)).
Proof.
  destruct (probe_of_absent_device_is_bounded Sample.fresh 7 "tmp1" "tok" 5000
              Sample.bystander Sample.lab) as (Hnow & _ & _ & Hresp).
  - discriminate.
  - reflexivity.
  - reflexivity.
  - reflexivity.
  - reflexivity.
  - intros i Hi. do 20 (destruct i as [|i]; [by vm_compute|]).
    destruct scan_constants as (HF & _). lia.
  - intros l Hl. discriminate Hl.
  - split; [exact Hnow|].
    destruct Hresp as [(st & Hst & _ & Hresp)|[Hst _]].
    + vm_compute in Hst. injection Hst as <-. exact Hresp.
    + vm_compute in Hst. destruct Hst; discriminate.
Defined.

(** ** Probe: a connection that does not answer *)

(** C3, as the code has it. For a probe against a resolved live connection,
    when no answering event arrives within [replyTimeoutMs] and
    [lastStatusAt] stays behind the start of the probe at each of the polls
    of the fallback, the probe waits the 3 s + 3 s and then answers with the
    same body as a successful probe, [probed: true], carrying whatever the
    registry entry holds: its status, or ['Unknown'] when it has none, and
    its [lastStatusAt], or [null]. *)
Theorem probe_without_answer_reads_registry (w : world) (userId : Z)
    (pcId probeId : string) (now : Z) (tl : timeline) (row : pc_row) (l : nat)
    (sid : string) (sk : socket) :
  userId ≠ 0 →
  selectPc pcId (pc_settings (db w)) = Some row → owner_id row = Some userId →
  connRef w pcId = Some l →
  connected (deref w l) = true → socketId (deref w l) = Some sid → sid ≠ "" →
  socketOf w sid = Some sk →
  unanswered replyTimeoutMs sid pcId probeId tl = true →
  (∀ i, (i < pollFuel)%nat →
        js_or_lit (lastStatusAt
                     (deref (worldAfter (replyTimeoutMs + pollIntervalMs * i) now tl w) l)) 0
          < now) →
  let run := api_pc_probe (Some userId) pcId probeId now tl w in
  let c := deref (worldAfter (replyTimeoutMs + Z.to_nat pollTimeoutMs) now tl w) l in
  r_now (pr_state run) = now + 6000 ∧
  pr_response run =
    Json (Probed (js_or_lit (status c) "Unknown") (js_or (lastStatusAt c) None)) ∧
  Emit (ToSocket sid) (StatusRequest probeId) ∈ r_out (pr_state run).
Proof.
  intros Hu Hrow Hown Hl Hconn Hsid Hsne%truthy_string_nonempty Hsk Hquiet Hpoll run c.
  subst run c.
  rewrite (api_pc_probe_owned _ _ _ _ _ _ _ Hu Hrow Hown). cbv zeta.
  assert (conn_live (pcConn w pcId) = true) as Hlive.
  { erewrite pcConn_ref by exact Hl. unfold conn_live. rewrite Hconn, Hsid. done. }
  rewrite Hlive. cbn [fst snd r_world]. rewrite Hl.
  erewrite pcConn_ref in Hlive by exact Hl. rewrite Hlive.
  destruct poll_constants as (HF & HI & HT).
  assert (replyTimeoutMs = 3000%nat) as HR by by vm_compute.
  unfold probeLive, probeFastPath. cbn [r_world r_now r_rest r_out].
  rewrite Hsid, Hsk, (race_unanswered _ _ _ _ _ _ _ _ _ _ _ Hquiet).
  pose proof (pollLoop_unanswered pollFuel 0 now l replyTimeoutMs now tl w
                ([] ++ [Emit (ToSocket sid) (StatusRequest probeId)])) as Hloop.
  replace (replyTimeoutMs + pollIntervalMs * 0)%nat with replyTimeoutMs in Hloop by lia.
  replace (Z.of_nat (pollIntervalMs * 0)) with 0 in Hloop by lia.
  rewrite Hloop by (lia || (intros j Hj; apply Hpoll; lia)).
  cbn [pr_state pr_response].
  rewrite sleep_now, sleep_world. split_and!; [lia | done |].
  rewrite sleep_out. cbn [r_out]. apply elem_of_app. left. by left.
Qed.

Lemma probe_without_answer_reads_registry_witness :
  let run := api_pc_probe (Some 7) "tmp1" "tok" 5000 Sample.bystander Sample.unknown_live in
  r_now (pr_state run) = 11000 ∧
  pr_response run = Json (Probed "Unknown" (Some 950)).
Proof.
  destruct (probe_without_answer_reads_registry Sample.unknown_live 7 "tmp1" "tok" 5000
              Sample.bystander Sample.lab 0%nat "s1" (Socket (Some "tmp1") None))
    as (Hnow & Hresp & _).
  - discriminate.
  - reflexivity.
  - reflexivity.
  - reflexivity.
  - reflexivity.
  - reflexivity.
  - discriminate.
  - reflexivity.
  - by vm_compute.
  - intros i Hi. do 30 (destruct i as [|i]; [by vm_compute|]).
    destruct poll_constants as (HF & _). lia.
  - split; [exact Hnow | exact Hresp].
Defined.

(** C3 as stated fails: a probe that nobody answers (it waits the whole
    6 s) and a probe answered after 10 ms with a confirmed ['Unknown'] get
    the same response. *)
Lemma silent_probe_looks_answered :
  let silent := api_pc_probe (Some 7) "tmp1" "tok" 5000 [] Sample.unknown_live in
  let answered :=
    api_pc_probe (Some 7) "tmp1" "tok" 5000 Sample.answer Sample.unknown_live in
  unanswered replyTimeoutMs "s1" "tmp1" "tok" [] = true ∧
  r_now (pr_state silent) = 11000 ∧
  r_now (pr_state answered) = 5010 ∧
  pr_response silent = Json (Probed "Unknown" (Some 950)) ∧
  pr_response answered = pr_response silent.
Proof. by vm_compute. Qed.

(** * Further properties of the server *)

(** ** The registry holds no sharing *)

Section sharing.
Implicit Types (w : world) (k : string) (l : nat).

Lemma registry_ok_same w w' :
  pcConnections w' = pcConnections w → next_ref w' = next_ref w →
  registry_ok w → registry_ok w'.
Proof.
  intros Hreg Hnext (Hnd & Hinj & Hlt). unfold registry_ok, connRef in *.
  rewrite Hreg, Hnext. done.
Qed.

Lemma ensureConn_next k w :
  next_ref (ensureConn k w).2 =
    match connRef w k with Some _ => next_ref w | None => S (next_ref w) end.
Proof. unfold ensureConn. by destruct (connRef w k). Qed.

Lemma ensureConn_ok k w : registry_ok w → registry_ok (ensureConn k w).2.
Proof.
  intros (Hnd & Hinj & Hlt). unfold ensureConn.
  destruct (connRef w k) as [l|] eqn:Hk; [done|]. cbn [snd].
  unfold registry_ok, connRef in *. cbn [pcConnections next_ref]. split_and!.
  - by apply JsObjectFacts.NoDup_keys_set.
  - intros k1 k2 l0.
    destruct (decide (k = k1)) as [<-|Hk1], (decide (k = k2)) as [<-|Hk2];
      rewrite ?JsObjectFacts.get_set_eq, ?JsObjectFacts.get_set_ne by done; try done.
    + intros [= <-] Hk2'. apply Hlt in Hk2'. lia.
    + intros Hk1' [= <-]. apply Hlt in Hk1'. lia.
    + apply Hinj.
  - intros k1 l0. destruct (decide (k = k1)) as [<-|Hk1];
      rewrite ?JsObjectFacts.get_set_eq, ?JsObjectFacts.get_set_ne by done.
    + intros [= <-]. lia.
    + intros Hk1'%Hlt. lia.
Qed.

Lemma hydrateStatus_registry id l w :
  pcConnections (hydrateStatus id l w) = pcConnections w ∧
  next_ref (hydrateStatus id l w) = next_ref w.
Proof. unfold hydrateStatus. repeat case_match; done. Qed.

Lemma announceConn_next sid id w :
  next_ref (announceConn sid id w).2 = next_ref (ensureConn id w).2.
Proof.
  rewrite announceConn_eq. cbv zeta. cbn [fst snd]. unfold tagSocket.
  cbn [next_ref set_sockets]. by rewrite (proj2 (hydrateStatus_registry _ _ _)).
Qed.

Lemma announceConn_ok sid id w : registry_ok w → registry_ok (announceConn sid id w).2.
Proof.
  intros Hok. eapply registry_ok_same;
    [apply announceConn_registry | apply announceConn_next | by apply ensureConn_ok].
Qed.

(** Moving an entry under another key and deleting the old key keeps the
    registry free of sharing. *)
Lemma move_ok (o : JsObject.t string nat) (next : nat) (id A : string) (l : nat) :
  A ≠ id → JsObject.get id o = Some l →
  NoDup (JsObject.keys o) →
  (∀ k k' l0, JsObject.get k o = Some l0 → JsObject.get k' o = Some l0 → k = k') →
  (∀ k l0, JsObject.get k o = Some l0 → (l0 < next)%nat) →
  NoDup (JsObject.keys (JsObject.del id (JsObject.set A l o))) ∧
  (∀ k k' l0, JsObject.get k (JsObject.del id (JsObject.set A l o)) = Some l0 →
              JsObject.get k' (JsObject.del id (JsObject.set A l o)) = Some l0 → k = k') ∧
  (∀ k l0, JsObject.get k (JsObject.del id (JsObject.set A l o)) = Some l0 →
           (l0 < next)%nat).
Proof.
  intros HA Hid Hnd Hinj Hlt.
  assert (∀ k, JsObject.get k (JsObject.del id (JsObject.set A l o)) =
               if decide (k = id) then None
               else if decide (k = A) then Some l else JsObject.get k o) as Hget.
  { intros k. destruct (decide (k = id)) as [->|Hk].
    - apply JsObjectFacts.get_del_eq.
    - rewrite JsObjectFacts.get_del_ne by done.
      destruct (decide (k = A)) as [->|HkA].
      + apply JsObjectFacts.get_set_eq.
      + by apply JsObjectFacts.get_set_ne. }
  split_and!.
  - by apply JsObjectFacts.NoDup_keys_del, JsObjectFacts.NoDup_keys_set.
  - intros k k' l0. rewrite !Hget.
    destruct (decide (k = id)); [done|]. destruct (decide (k' = id)); [done|].
    destruct (decide (k = A)) as [->|], (decide (k' = A)) as [->|]; try done.
    + intros [= <-] Hk'. exfalso. by apply n0, (Hinj k' id l).
    + intros Hk [= <-]. exfalso. by apply n, (Hinj k id l).
    + apply Hinj.
  - intros k l0. rewrite Hget. destruct (decide (k = id)); [done|].
    destruct (decide (k = A)) as [->|]; [intros [= <-]; by apply (Hlt id)|apply Hlt].
Qed.

Lemma on_register_pc_ok sid d now w :
  registry_ok w → registry_ok (on_register_pc sid d now w).1.
Proof.
  intros Hok. destruct (decide (rd_clientType d = Some "pc_app")) as [Hct|Hct].
  2:{ unfold on_register_pc. by rewrite decide_False. }
  rewrite (on_register_pc_eq _ _ _ _ Hct). cbv zeta.
  pose proof (announceConn_ok sid (rd_id d) w Hok) as (Hnd & Hinj & Hlt).
  pose proof (announceConn_ref sid (rd_id d) w) as Href.
  destruct (mergesInto (existingByName (rd_name d) w) (rd_id d)) eqn:Hm; cbn [fst];
    [|done].
  unfold mergesInto in Hm. apply andb_true_iff in Hm as [Ht Hne].
  apply negb_true_iff, bool_decide_eq_false in Hne.
  destruct (existingByName (rd_name d) w) as [a|]; [|done].
  change (truthy (pc_id a) = true) in Ht.
  assert (js_or_lit (pc_id <$> Some a) (rd_id d) = pc_id a) as ->
    by (by apply js_or_lit_truthy).
  unfold registry_ok, connRef in *.
  cbn [pcConnections next_ref tagSocket set_sockets set_registry set_pc_settings].
  apply move_ok; try done. cbn in Hne. congruence.
Qed.

Lemma on_pc_status_ok sid d now write_ok w :
  registry_ok w → registry_ok (on_pc_status sid d now write_ok w).1.
Proof.
  intros Hok. destruct (incomingId w sid d) as [id|] eqn:Hid.
  2:{ unfold on_pc_status. by rewrite Hid. }
  destruct (decide (id = "")) as [->|Hne].
  { unfold on_pc_status. by rewrite Hid. }
  rewrite (on_pc_status_resolved _ _ _ _ _ _ Hid Hne). cbv zeta. cbn [fst].
  apply (registry_ok_same (ensureConn id w).2); [by destruct write_ok..|].
  by apply ensureConn_ok.
Qed.










End sharing.

Lemma sample_registry_ok : registry_ok Sample.w0.
Proof.
  unfold registry_ok, connRef. simpl. split_and!.
  - apply NoDup_singleton.
  - intros k k' l. destruct (decide ("tmp1" = k)) as [<-|], (decide ("tmp1" = k')) as [<-|];
      done.
  - intros k l. destruct (decide ("tmp1" = k)); [intros [= <-]; lia | done].
Qed.

(** ** The pc ids stay own keys *)















Lemma ordinaryWorld_same (w w' : world) :
  pcConnections w' = pcConnections w → db w' = db w → sockets w' = sockets w →
  ordinaryWorld w → ordinaryWorld w'.
Proof. unfold ordinaryWorld. by intros -> -> ->. Qed.









(** ** Status reports are local *)

Lemma ensureConn_deref_other (id : string) (w : world) (l' : nat) :
  l' ≠ (ensureConn id w).1 → deref (ensureConn id w).2 l' = deref w l'.
Proof.
  unfold ensureConn. destruct (connRef w id) as [l|]; cbn [fst snd]; [done|].
  intros Hne. unfold deref. cbn [objs]. by rewrite lookup_insert_ne.
Qed.

Lemma ensureConn_ref_other (id k : string) (w : world) (l' : nat) :
  registry_ok w → k ≠ id → connRef w k = Some l' → l' ≠ (ensureConn id w).1.
Proof.
  intros (_ & Hinj & Hlt) Hne Hk. unfold ensureConn.
  destruct (connRef w id) as [l|] eqn:Hid; cbn [fst].
  - intros ->. by apply Hne, (Hinj k id l).
  - apply Hlt in Hk. lia.
Qed.

(** X2. A status report that resolves to a pc id which is an own key of
    the registry (not a property name inherited from [Object.prototype])
    touches nothing but that device: the registry entry and the persisted
    row of every other pc id, and the block periods, are what they were. *)
Theorem status_report_is_local (w : world) (sid : string) (d : status_data) (now : Z)
    (write_ok : bool) (id k : string) :
  registry_ok w → incomingId w sid d = Some id → id ≠ "" → ownKey id → k ≠ id →
  let w' := (on_pc_status sid d now write_ok w).1 in
  pcConn w' k = pcConn w k ∧
  selectPc k (pc_settings (db w')) = selectPc k (pc_settings (db w)) ∧
  block_periods (db w') = block_periods (db w).
Proof.
  intros Hok Hid Hne _ Hk w'. subst w'.
  destruct (on_pc_status_entry w sid d now write_ok id Hid Hne)
    as (_ & _ & Hrows & Hbp & _).
  split_and!; [|rewrite Hrows|done].
  - rewrite (on_pc_status_resolved _ _ _ _ _ _ Hid Hne). cbv zeta. cbn [fst].
    set (l := (ensureConn id w).1).
    set (w3 := tagSocket sid id _).
    assert (connRef w3 k = connRef w k) as Hc.
    { subst w3. rewrite connRef_tagSocket, !connRef_update.
      by apply ensureConn_ref_ne. }
    assert (∀ l', connRef w k = Some l' → deref w3 l' = deref w l') as Hd.
    { intros l' Hl'. subst w3.
      pose proof (ensureConn_ref_other id k w l' Hok Hk Hl') as Hother.
      rewrite deref_tagSocket, !deref_update_ne by done.
      by apply ensureConn_deref_other. }
    assert (pcConn w3 k = pcConn w k) as Hw3.
    { unfold pcConn. rewrite Hc. destruct (connRef w k) as [l'|] eqn:Hl'; [|done].
      simpl. f_equal. by apply Hd. }
    by destruct write_ok.
  - destruct write_ok; [|done]. rewrite selectPc_updateStatus.
    destruct (selectPc k (pc_settings (db w))) as [r|] eqn:Hr; [|done]. simpl.
    apply selectPc_Some in Hr as [_ Hpc]. rewrite decide_False; [done | congruence].
Qed.

Lemma status_report_is_local_witness :
  let w' := (on_pc_status "s9" Sample.report_unregistered 3000 true Sample.w0).1 in
  pcConn w' "tmp1" = pcConn Sample.w0 "tmp1".
Proof.
  refine (proj1 (status_report_is_local Sample.w0 "s9" Sample.report_unregistered 3000
                   true "tmp7" "tmp1" sample_registry_ok _ _ _ _)).
  - reflexivity.
  - discriminate.
  - by apply (bool_decide_unpack _); vm_compute.
  - discriminate.
Defined.

(** ** Sequences of status reports *)

Lemma js_or_lit_Unknown_truthy (o : option string) : truthy (js_or_lit o "Unknown") = true.
Proof.
  unfold js_or_lit. destruct o as [s|]; [|done]. by destruct (truthy s) eqn:Hs.
Qed.

Lemma runReports_snoc (sid id : string) (rs : list report) (r : report) (w : world) :
  runReports sid id (rs ++ [r]) w =
    (on_pc_status sid (StatusData (Some id) r.1.1) r.1.2 r.2 (runReports sid id rs w)).1.
Proof. unfold runReports. by rewrite foldl_app. Qed.

Lemma lastReported_snoc (known : option string) (rs : list report) (r : report) :
  lastReported known (rs ++ [r]) = js_or r.1.1 (lastReported known rs).
Proof. unfold lastReported. by rewrite foldl_app. Qed.

(** X3. After any non-empty run of status reports for a device, its entry
    is connected on the reporting socket, its status is the most recent
    non-empty status of the run (else the status known before the run,
    else ['Unknown']), and [lastStatusAt] is the time of the last report,
    whether or not it is later than the previous ones. *)
Theorem last_report_wins (w : world) (sid id : string) (rs : list report) (r : report) :
  id ≠ "" →
  pcConn (runReports sid id (rs ++ [r]) w) id =
    Some (Conn true (Some sid)
               (Some (js_or_lit (lastReported (status (connOrEmpty w id)) (rs ++ [r]))
                                "Unknown"))
               (Some r.1.2)).
Proof.
  intros Hne. revert r. induction rs as [|r0 rs IH] using rev_ind; intros r.
  - simpl. unfold runReports, lastReported. simpl.
    by destruct (on_pc_status_entry w sid (StatusData (Some id) r.1.1) r.1.2 r.2 id
                   (incomingId_explicit w sid (StatusData (Some id) r.1.1) id eq_refl Hne)
                   Hne) as (-> & _).
  - rewrite runReports_snoc, lastReported_snoc. specialize (IH r0).
    set (w1 := runReports sid id (rs ++ [r0]) w) in *.
    destruct (on_pc_status_entry w1 sid (StatusData (Some id) r.1.1) r.1.2 r.2 id
                (incomingId_explicit w1 sid (StatusData (Some id) r.1.1) id eq_refl Hne)
                Hne) as (-> & _).
    do 3 f_equal. unfold connOrEmpty at 1. rewrite IH. simpl.
    unfold reportedStatus. simpl. unfold js_or.
    destruct (truthy r.1.1); [done|].
    apply js_or_lit_truthy, js_or_lit_Unknown_truthy.
Qed.

Lemma last_report_wins_witness :
  pcConn (runReports "s1" "tmp1" [(Some "Locked", 3000, true); (None, 2500, false)]
                     Sample.fresh) "tmp1" =
    Some (Conn true (Some "s1") (Some "Locked") (Some 2500)).
Proof.
  exact (last_report_wins Sample.fresh "s1" "tmp1" [(Some "Locked", 3000, true)]
           (None, 2500, false) ltac:(discriminate)).
Defined.

(** ** Disconnects *)

Lemma on_disconnect_resolved (w : world) (sid : string) (now : Z) (id : string) :
  resolveBySocket w sid = Some id → id ≠ "" →
  on_disconnect sid now w =
    let l := (ensureConn id w).1 in
    let w3 :=
      set_pc_settings (updateLastSeen id now (pc_settings (db w)))
        (update l (with_socketId None)
           (update l (with_connected false) (ensureConn id w).2)) in
    (set_sockets (List.filter (λ e : string * socket, negb (bool_decide (e.1 = sid)))
                              (sockets w3)) w3,
     broadcastUpdate w3).
Proof.
  intros Hres Hne%truthy_string_nonempty. unfold on_disconnect. rewrite Hres, Hne.
  pose proof (ensureConn_db id w) as Hdb.
  destruct (ensureConn id w) as [l w1]. cbn [fst snd] in *.
  change (db (update l (with_socketId None) (update l (with_connected false) w1)))
    with (db w1). by rewrite Hdb.
Qed.

Lemma on_disconnect_entry (w : world) (sid : string) (now : Z) (id : string) :
  resolveBySocket w sid = Some id → id ≠ "" →
  pcConn (on_disconnect sid now w).1 id =
    Some (Conn false None (status (connOrEmpty w id)) (lastStatusAt (connOrEmpty w id))).
Proof.
  intros Hres Hne. rewrite (on_disconnect_resolved _ _ _ _ Hres Hne). cbv zeta. cbn [fst].
  erewrite pcConn_ref by apply ensureConn_ref. f_equal.
  change (deref (set_sockets _ (set_pc_settings _ ?w0)) ?l) with (deref w0 l).
  rewrite !deref_update_eq, ensureConn_deref. by destruct (connOrEmpty w id).
Qed.

Lemma elem_of_updateLastSeen (id : string) (now : Z) (t : list pc_row) (row : pc_row) :
  row ∈ t → pc_id row = id →
  PcRow id (name row) (Some now) (owner_id row) (ip row) (last_status row)
        (last_status_at row) ∈ updateLastSeen id now t.
Proof.
  intros Hin Hid. unfold updateLastSeen. apply list_elem_of_fmap. exists row.
  split; [|done]. rewrite decide_True by done. by rewrite Hid.
Qed.

(** X4. When a socket that resolves to a device disconnects, the broadcast
    that follows still lists the device for its owner: not connected, no
    socket id, [lastSeen] set to the time of the disconnect, and the status
    it showed before (the one in memory, else the persisted one), not
    ['Unknown']. *)
Theorem disconnect_keeps_device_listed (w : world) (sid : string) (now : Z)
    (id : string) (row : pc_row) (o : Z) :
  resolveBySocket w sid = Some id → id ≠ "" →
  row ∈ pc_settings (db w) → pc_id row = id → owner_id row = Some o → o ≠ 0 →
  ∃ views v,
    Emit (ToDashboard o) (PcUpdate views) ∈ (on_disconnect sid now w).2 ∧
    v ∈ views ∧ v_id v = id ∧ v_connected v = false ∧ v_socketId v = None ∧
    v_lastSeen v = Some now ∧
    v_status v = spec_effective_status (pcConn w id ≫= status) (last_status row).
Proof.
  intros Hres Hne Hin Hid Hown Ho.
  pose proof (on_disconnect_entry w sid now id Hres Hne) as Hentry.
  rewrite (on_disconnect_resolved _ _ _ _ Hres Hne) in *. cbv zeta in *.
  cbn [fst snd] in *. set (w3 := set_pc_settings _ _) in *.
  set (row' := PcRow id (name row) (Some now) (owner_id row) (ip row) (last_status row)
                     (last_status_at row)).
  assert (row' ∈ selectByOwner o (pc_settings (db w3))) as Hrow'.
  { apply elem_of_selectByOwner. split; [|done]. by apply elem_of_updateLastSeen. }
  exists (map (viewOf w3) (selectByOwner o (pc_settings (db w3)))), (viewOf w3 row').
  assert (pcConn w3 id =
          Some (Conn false None (status (connOrEmpty w id)) (lastStatusAt (connOrEmpty w id))))
    as Hc by exact Hentry.
  split_and!.
  - apply elem_of_broadcastUpdate. exists o. split_and!; [by apply truthy_Z_nonzero| |done].
    intros Hnil. rewrite Hnil in Hrow'. by apply elem_of_nil in Hrow'.
  - apply list_elem_of_fmap. by exists row'.
  - done.
  - unfold viewOf, mergedView, connOrEmpty. simpl. by rewrite Hc.
  - unfold viewOf, mergedView, connOrEmpty. simpl. by rewrite Hc.
  - done.
  - unfold viewOf, mergedView. cbn [v_status]. rewrite mergedStatus_spec.
    unfold connOrEmpty at 1. cbn [pc_id row']. rewrite Hc. simpl.
    by rewrite status_connOrEmpty.
Qed.

Lemma disconnect_keeps_device_listed_witness :
  ∃ views v,
    Emit (ToDashboard 7) (PcUpdate views) ∈ (on_disconnect "s1" 4000 Sample.w0).2 ∧
    v ∈ views ∧ v_id v = "tmp1" ∧ v_connected v = false ∧ v_socketId v = None ∧
    v_lastSeen v = Some 4000 ∧ v_status v = "Locked".
Proof.
  apply (disconnect_keeps_device_listed Sample.w0 "s1" 4000 "tmp1" Sample.lab 7).
  - reflexivity.
  - discriminate.
  - left.
  - reflexivity.
  - reflexivity.
  - discriminate.
Defined.

(** ** Commands *)

(** X5. Once a status report has been handled for a device, a command for
    that device is sent to the socket that reported, for whichever
    authenticated user asks (the route checks no ownership); the command is
    sent before the audit log is written, so a failing log answers 500 with
    the command already on its way. *)
Theorem command_goes_to_reporting_socket (w : world) (sid : string) (d : status_data)
    (now : Z) (write_ok log_ok : bool) (id command : string) (user : Z) :
  incomingId w sid d = Some id → id ≠ "" → sid ≠ "" → user ≠ 0 →
  api_command (Some user) id command log_ok (on_pc_status sid d now write_ok w).1 =
    ([Emit (ToSocket sid) (Command (Some command))],
     (if log_ok then Some (id, command) else None),
     (if log_ok then Json ("Sent " +:+ command +:+ " to " +:+ id)
      else Error 500 "Failed to log command")).
Proof.
  intros Hid Hne Hsid%truthy_string_nonempty Hu.
  destruct (on_pc_status_entry w sid d now write_ok id Hid Hne) as (Hentry & _).
  unfold api_command. rewrite (requireAuth_user _ Hu), Hentry. simpl.
  rewrite Hsid. by destruct log_ok.
Qed.

Lemma command_goes_to_reporting_socket_witness :
  api_command (Some 8) "tmp1" "lock" false
              (on_pc_status "s1" Sample.report_lab 3000 true Sample.fresh).1 =
    ([Emit (ToSocket "s1") (Command (Some "lock"))], None,
     Error 500 "Failed to log command").
Proof.
  apply (command_goes_to_reporting_socket Sample.fresh "s1" Sample.report_lab 3000
           true false "tmp1" "lock" 8); [reflexivity | discriminate..].
Defined.

(** X6. After the socket of a device has disconnected, a command for the
    device is refused with 400 and nothing is sent or logged. *)
Theorem no_command_after_disconnect (w : world) (sid : string) (now : Z)
    (id command : string) (log_ok : bool) (session : option Z) :
  resolveBySocket w sid = Some id → id ≠ "" →
  requireAuth session ≠ None →
  api_command session id command log_ok (on_disconnect sid now w).1 =
    ([], None, Error 400 "PC is offline or unknown").
Proof.
  intros Hres Hne Hauth. unfold api_command.
  destruct (requireAuth session); [|done].
  by rewrite (on_disconnect_entry w sid now id Hres Hne).
Qed.

Lemma no_command_after_disconnect_witness :
  api_command (Some 7) "tmp1" "lock" true (on_disconnect "s1" 4000 Sample.w0).1 =
    ([], None, Error 400 "PC is offline or unknown").
Proof.
  apply (no_command_after_disconnect Sample.w0 "s1" 4000 "tmp1" "lock" true (Some 7));
    [reflexivity | discriminate | discriminate].
Defined.

(** ** Reports that do not name the device *)

Lemma find_unique_key {V} (P : string * V → bool) (o : JsObject.t string V)
    (k : string) (v : V) :
  NoDup (JsObject.keys o) → JsObject.get k o = Some v → P (k, v) = true →
  (∀ e, e ∈ o → P e = true → e.1 = k) →
  List.find P o = Some (k, v).
Proof.
  unfold JsObject.keys. induction o as [|[k0 v0] o IH]; simpl; [done|].
  intros [Hk0 Hnd]%NoDup_cons Hget HP Hall.
  destruct (decide (k0 = k)) as [->|Hne].
  - injection Hget as ->. by rewrite HP.
  - destruct (P (k0, v0)) eqn:HP0.
    + exfalso. apply Hne. apply (Hall (k0, v0)); [left | done].
    + apply IH; try done. intros e He. apply Hall. by right.
Qed.

Lemma hydrateStatus_deref_other (id : string) (l l' : nat) (w : world) :
  l ≠ l' → deref (hydrateStatus id l w) l' = deref w l'.
Proof.
  intros Hne. unfold hydrateStatus. destruct (truthy (status (deref w l))); [done|].
  destruct (selectPc id (pc_settings (db w))) as [r|]; [|done].
  destruct (truthy (last_status r)); [|done]. by apply deref_update_ne.
Qed.

Lemma announceConn_deref_other (sid id : string) (w : world) (l' : nat) :
  l' ≠ (announceConn sid id w).1 → deref (announceConn sid id w).2 l' = deref w l'.
Proof.
  rewrite announceConn_eq. cbv zeta. cbn [fst snd]. intros Hne.
  rewrite deref_tagSocket, hydrateStatus_deref_other, !deref_update_ne by done.
  by apply ensureConn_deref_other.
Qed.

Lemma announceConn_fst (sid id : string) (w : world) :
  (announceConn sid id w).1 = (ensureConn id w).1.
Proof. by rewrite announceConn_eq. Qed.

(** After an announce, the reverse lookup of the socket finds the identity
    the announce resolved to. *)
Lemma keyOfSocket_after_announce (w : world) (sid : string) (d : register_data) (now : Z) :
  registry_ok w → rd_clientType d = Some "pc_app" →
  let final := js_or_lit (pc_id <$> existingByName (rd_name d) w) (rd_id d) in
  (∀ k l, connRef w k = Some l → k ≠ rd_id d → k ≠ final →
          socketId (deref w l) ≠ Some sid) →
  keyOfSocket (on_register_pc sid d now w).1 sid = Some final.
Proof.
  intros Hok Hct final Hfree.
  pose proof (on_register_pc_ok sid d now w Hok) as (Hnd & _ & _).
  pose proof (announceConn_ref sid (rd_id d) w) as Href.
  pose proof (announceConn_deref sid (rd_id d) w) as Hderef. cbv zeta in Hderef.
  assert (∀ k lk, k ≠ rd_id d → k ≠ final →
            connRef (announceConn sid (rd_id d) w).2 k = Some lk →
            socketId (deref (announceConn sid (rd_id d) w).2 lk) ≠ Some sid) as Hothers.
  { intros k lk Hk Hkf Hlk.
    unfold connRef in Hlk. rewrite announceConn_registry in Hlk.
    fold (connRef (ensureConn (rd_id d) w).2 k) in Hlk.
    rewrite ensureConn_ref_ne in Hlk by done.
    rewrite announceConn_deref_other; [by apply (Hfree k)|].
    rewrite announceConn_fst. by apply (ensureConn_ref_other _ k). }
  revert Hnd. rewrite (on_register_pc_eq _ _ _ _ Hct). cbv zeta. fold final.
  set (l := (announceConn sid (rd_id d) w).1) in *.
  set (w4 := (announceConn sid (rd_id d) w).2) in *.
  assert (final = rd_id d ∨ mergesInto (existingByName (rd_name d) w) (rd_id d) = true)
    as Hfinal.
  { subst final. unfold mergesInto.
    destruct (existingByName (rd_name d) w) as [a|]; [|by left]. simpl.
    change (truthy (Some (pc_id a))) with (truthy (pc_id a)).
    unfold js_or_lit. destruct (truthy (pc_id a)) eqn:Ht; [|by left].
    destruct (decide (pc_id a = rd_id d)) as [->|Hne]; [by left|right].
    rewrite bool_decide_eq_false_2; [done | congruence]. }
  destruct (mergesInto (existingByName (rd_name d) w) (rd_id d)) eqn:Hm; cbn [fst].
  - intros Hnd. unfold keyOfSocket.
    assert (final ≠ rd_id d) as Hfid.
    { subst final. unfold mergesInto in Hm. apply andb_true_iff in Hm as [Ht Hne].
      apply negb_true_iff, bool_decide_eq_false in Hne.
      destruct (existingByName (rd_name d) w) as [a|]; [|done].
      change (truthy (pc_id a) = true) in Ht. cbn [fmap option_fmap option_map].
      rewrite (js_or_lit_truthy _ _ Ht). cbn in Hne. congruence. }
    erewrite (find_unique_key _ _ final l); [done|exact Hnd| | |].
    + cbn [pcConnections tagSocket set_sockets set_registry set_pc_settings].
      rewrite JsObjectFacts.get_del_ne by done. apply JsObjectFacts.get_set_eq.
    + apply bool_decide_eq_true. cbn [snd].
      change (deref _ l) with (deref w4 l). by rewrite Hderef.
    + intros [k lk] Hin HP. cbn [fst snd] in *. apply bool_decide_eq_true in HP.
      destruct (decide (k = final)) as [|Hkf]; [done|]. exfalso.
      apply JsObjectFacts.elem_of_NoDup_get in Hin; [|exact Hnd].
      cbn [pcConnections tagSocket set_sockets set_registry set_pc_settings] in Hin.
      destruct (decide (k = rd_id d)) as [->|Hkid].
      { by rewrite JsObjectFacts.get_del_eq in Hin. }
      rewrite JsObjectFacts.get_del_ne, JsObjectFacts.get_set_ne in Hin by done.
      by apply (Hothers k lk Hkid Hkf Hin).
  - intros Hnd. destruct Hfinal as [Hfinal|?]; [|done]. unfold keyOfSocket.
    erewrite (find_unique_key _ _ final l); [done|exact Hnd| | |].
    + rewrite Hfinal. exact Href.
    + apply bool_decide_eq_true. cbn [snd].
      change (deref _ l) with (deref w4 l). by rewrite Hderef.
    + intros [k lk] Hin HP. cbn [fst snd] in *. apply bool_decide_eq_true in HP.
      destruct (decide (k = final)) as [|Hkf]; [done|]. exfalso.
      apply JsObjectFacts.elem_of_NoDup_get in Hin; [|exact Hnd].
      apply (Hothers k lk); [congruence | done | exact Hin | exact HP].
Qed.

(** ** The announce and what is handled while it waits *)

Lemma await_quiet (j i : nat) (ev : world → world) (p : pending) :
  p_handled p = true ∨ (j < i)%nat → await j i ev p = p.
Proof.
  intros [H|H]; unfold await.
  - by rewrite H.
  - rewrite (proj2 (Nat.leb_gt i j)) by done. by rewrite andb_false_r.
Qed.

Lemma await_fires (j i : nat) (ev : world → world) (w : world) :
  (i ≤ j)%nat → await j i ev (Pending w false) = Pending (ev w) true.
Proof. intros H. unfold await. cbn. by rewrite (proj2 (Nat.leb_le i j)). Qed.

Lemma await_handled (j i : nat) (ev : world → world) (p : pending) :
  (i ≤ j)%nat → p_handled (await j i ev p) = true.
Proof.
  intros H. unfold await. destruct p as [w [|]]; cbn; [done|].
  by rewrite (proj2 (Nat.leb_le i j)).
Qed.

Lemma onWorld_Pending (f : world → world) (w : world) (h : bool) :
  onWorld f (Pending w h) = Pending (f w) h.
Proof. done. Qed.

Lemma markConnected_eq (sid id : string) (w : world) :
  markConnected sid id w =
    update (ensureConn id w).1 (with_socketId (Some sid))
      (update (ensureConn id w).1 (with_connected true) (ensureConn id w).2).
Proof. unfold markConnected. by destruct (ensureConn id w). Qed.

Lemma markConnected_ref (sid id : string) (w : world) :
  connRef (markConnected sid id w) id = Some (ensureConn id w).1.
Proof. rewrite markConnected_eq, !connRef_update. apply ensureConn_ref. Qed.

Lemma loadStatus_quiet (id : string) (i : nat) (ev : world → world) (w : world)
    (h : bool) (l : nat) :
  connRef w id = Some l → h = true ∨ (1 < i)%nat →
  loadStatus id i ev (Pending w h) = Pending (hydrateStatus id l w) h.
Proof.
  intros Hl Hq. unfold loadStatus, hydrateStatus, connOrEmpty. cbn [p_world].
  rewrite (pcConn_ref _ _ _ Hl).
  change (default empty_conn (Some (deref w l))) with (deref w l).
  destruct (truthy (status (deref w l))); [done|].
  rewrite await_quiet by exact Hq.
  destruct (selectPc id (pc_settings (db w))) as [r|]; cbn; [|done].
  change (truthy (last_status r)) with
    (match last_status r with Some x => truthy x | None => false end).
  destruct (last_status r) as [x|] eqn:Hx; [|done].
  destruct (truthy x); [|done].
  rewrite onWorld_Pending. unfold assignStatus. by rewrite Hl.
Qed.

(** Up to the merge, an announce during which nothing is handled is
    [on_register_pc]. *)
Lemma announcePrefix_quiet (sid : string) (d : register_data) (now : Z) (i : nat)
    (ev : world → world) (w : world) (h : bool) :
  rd_clientType d = Some "pc_app" → h = true ∨ (3 < i)%nat →
  ∃ pcId,
    announcePrefix sid d now i ev (Pending w h) =
      Some (pcId, Pending (on_register_pc sid d now w).1 h) ∧
    (on_register_pc sid d now w).2 =
      pushScheduleOnRegister pcId (on_register_pc sid d now w).1.
Proof.
  intros Hct Hq. rewrite (on_register_pc_eq _ _ _ _ Hct). cbv zeta.
  unfold announcePrefix, lookupByName, upsertAnnounced. cbn [p_world p_handled].
  rewrite !onWorld_Pending.
  rewrite (loadStatus_quiet _ _ _ _ _ _ (markConnected_ref sid (rd_id d) w))
    by (destruct Hq; [by left | right; lia]).
  rewrite !onWorld_Pending. cbn [p_world p_handled].
  assert (tagSocket sid (rd_id d)
            (hydrateStatus (rd_id d) (ensureConn (rd_id d) w).1
               (markConnected sid (rd_id d) w)) = (announceConn sid (rd_id d) w).2) as ->.
  { by rewrite announceConn_eq, markConnected_eq. }
  pose proof (announceConn_db sid (rd_id d) w) as Hdb.
  pose proof (announceConn_ref sid (rd_id d) w) as Href.
  set (w4 := (announceConn sid (rd_id d) w).2) in *.
  set (l := (announceConn sid (rd_id d) w).1) in *.
  rewrite (existingByName_db _ w4 w) by by rewrite Hdb.
  set (existing := existingByName (rd_name d) w).
  assert (∀ q, (if truthy (rd_name d) then await 2 i ev (Pending q h) else Pending q h) =
               Pending q h) as ->.
  { intros q. destruct (truthy (rd_name d)); [|done].
    apply await_quiet. destruct Hq; [by left | right; lia]. }
  rewrite await_quiet by (destruct Hq; [by left | right; cbn; lia]).
  rewrite onWorld_Pending. cbn [p_world p_handled]. rewrite Hdb.
  fold (ownerIdToUse existing w sid).
  unfold mergeEntry. rewrite connRef_set_pc_settings, Href.
  destruct (mergesInto existing (rd_id d)); cbn [fst snd]; eauto.
Qed.

Lemma pushSchedule_quiet (pcId : string) (i : nat) (ev : world → world) (w : world)
    (h : bool) :
  h = true ∨ (5 < i)%nat →
  pushSchedule pcId i ev (Pending w h) = (pushScheduleOnRegister pcId w, Pending w h).
Proof.
  intros Hq. unfold pushSchedule, pushScheduleOnRegister. cbn [p_world].
  rewrite (await_quiet 4) by (destruct Hq; [by left | right; cbn; lia]).
  destruct (selectPc pcId (pc_settings (db w))) as [r|]; cbn; [|done].
  destruct (owner_id r) as [o|]; [|done]. destruct (truthy o); [|done].
  by rewrite (await_quiet 5) by (destruct Hq; [by left | right; cbn; lia]).
Qed.

(** An event that arrives once the merge is done is handled on the world
    the announce leaves. *)
Lemma pushSchedule_late (pcId : string) (i : nat) (ev : world → world) (w : world) :
  (4 ≤ i ≤ 6)%nat →
  p_world (await 6 i ev (pushSchedule pcId i ev (Pending w false)).2) = ev w.
Proof.
  intros Hi. unfold pushSchedule. cbn [p_world].
  destruct (decide (i = 4)%nat) as [->|H4].
  { rewrite await_fires by lia. cbn [p_world].
    destruct (selectPc pcId (pc_settings (db w)) ≫= owner_id) as [o|]; cbn [snd].
    - destruct (truthy o); cbn [snd]; by rewrite !await_quiet by by left.
    - by rewrite await_quiet by by left. }
  rewrite (await_quiet 4) by (right; lia).
  destruct (selectPc pcId (pc_settings (db w)) ≫= owner_id) as [o|]; cbn [snd].
  - destruct (truthy o); cbn [snd p_world].
    + destruct (decide (i = 5)%nat) as [->|H5].
      * rewrite (await_fires 5) by lia. by rewrite await_quiet by by left.
      * rewrite (await_quiet 5) by (right; lia). by rewrite await_fires by lia.
    + by rewrite await_fires by lia.
  - by rewrite await_fires by lia.
Qed.

(** When nothing arrives, the announce is [on_register_pc]. *)
Lemma register_pc_during_idle (sid : string) (d : register_data) (now : Z) (i : nat)
    (ev : world → world) (w : world) :
  (6 < i)%nat → register_pc_during sid d now i ev w = Some (on_register_pc sid d now w).
Proof.
  intros Hi. unfold register_pc_during. rewrite await_quiet by (right; lia).
  destruct (decide (rd_clientType d = Some "pc_app")) as [Hct|Hct].
  - destruct (announcePrefix_quiet sid d now i ev w false Hct) as (pcId & -> & Hout);
      [right; lia|].
    rewrite pushSchedule_quiet by (right; lia).
    rewrite await_quiet by (right; lia). cbn [p_world]. rewrite <- Hout.
    by destruct (on_register_pc sid d now w).
  - rewrite await_quiet by (right; lia). unfold on_register_pc.
    by rewrite decide_False.
Qed.

(** An event that arrives before the announce starts is handled first. *)
Lemma register_pc_during_before (sid : string) (d : register_data) (now : Z)
    (ev : world → world) (w : world) :
  register_pc_during sid d now 0 ev w = Some (on_register_pc sid d now (ev w)).
Proof.
  unfold register_pc_during. rewrite await_fires by lia.
  destruct (decide (rd_clientType d = Some "pc_app")) as [Hct|Hct].
  - destruct (announcePrefix_quiet sid d now 0 ev (ev w) true Hct) as (pcId & -> & Hout);
      [by left|].
    rewrite pushSchedule_quiet by by left.
    rewrite await_quiet by by left. cbn [p_world]. rewrite <- Hout.
    by destruct (on_register_pc sid d now (ev w)).
  - rewrite await_quiet by by left. unfold on_register_pc.
    by rewrite decide_False.
Qed.

(** An event that arrives once the merge is done, or after the announce
    ended, is handled on the world [on_register_pc] leaves. *)
Lemma register_pc_during_late (sid : string) (d : register_data) (now : Z) (i : nat)
    (ev : world → world) (w : world) :
  (4 ≤ i ≤ 6)%nat →
  ∃ out, register_pc_during sid d now i ev w =
           Some (ev (on_register_pc sid d now w).1, out).
Proof.
  intros Hi. unfold register_pc_during. rewrite await_quiet by (right; lia).
  destruct (decide (rd_clientType d = Some "pc_app")) as [Hct|Hct].
  - destruct (announcePrefix_quiet sid d now i ev w false Hct) as (pcId & -> & Hout);
      [right; lia|].
    pose proof (pushSchedule_late pcId i ev (on_register_pc sid d now w).1 Hi) as Hlate.
    destruct (pushSchedule pcId i ev _) as [out p6]. cbn [snd] in Hlate.
    exists out. by rewrite Hlate.
  - exists []. rewrite await_fires by lia. unfold on_register_pc.
    by rewrite decide_False.
Qed.

(** X7. A device that has announced can report its status without naming
    itself. When the report is handled once the announce has merged (while
    the announce reads the owner or the block periods, or after its last
    line), and no other entry holds the announcing socket, a status report
    without id sent on that socket resolves to the identity the announce
    resolved to (the existing identity of that name when the announce
    merged, the announced id otherwise) and is stored there. *)
Theorem anonymous_report_follows_announce (w : world) (sid : string)
    (d : register_data) (t1 t2 : Z) (write_ok : bool) (s : string) (i : nat) :
  registry_ok w → rd_clientType d = Some "pc_app" →
  let final := js_or_lit (pc_id <$> existingByName (rd_name d) w) (rd_id d) in
  final ≠ "" → s ≠ "" → ownKey (rd_id d) → ownKey final →
  (∀ k l, connRef w k = Some l → k ≠ rd_id d → k ≠ final →
          socketId (deref w l) ≠ Some sid) →
  (4 ≤ i ≤ 6)%nat →
  let anon := StatusData None (Some s) in
  incomingId (on_register_pc sid d t1 w).1 sid anon = Some final ∧
  ∃ w' out,
    register_pc_during sid d t1 i (statusReport sid anon t2 write_ok) w =
      Some (w', out) ∧
    pcConn w' final = Some (Conn true (Some sid) (Some s) (Some t2)).
Proof.
  intros Hok Hct final Hne Hs _ _ Hfree Hi anon.
  set (w1 := (on_register_pc sid d t1 w).1).
  assert (incomingId w1 sid anon = Some final) as Hinc.
  { unfold incomingId, resolveBySocket, js_or. simpl. subst w1.
    rewrite (keyOfSocket_after_announce w sid d t1 Hok Hct Hfree). fold final.
    change (truthy (Some final)) with (truthy final).
    by rewrite (proj2 (truthy_string_nonempty final) Hne). }
  split; [done|].
  destruct (register_pc_during_late sid d t1 i (statusReport sid anon t2 write_ok) w Hi)
    as [out Hrun].
  exists (statusReport sid anon t2 write_ok w1), out. split; [exact Hrun|].
  unfold statusReport.
  destruct (on_pc_status_entry w1 sid anon t2 write_ok final Hinc Hne) as (-> & _).
  by rewrite (reportedStatus_given anon _ s eq_refl Hs).
Qed.

Lemma anonymous_report_follows_announce_witness :
  ∃ w' out,
    register_pc_during "s1" Sample.reannounce 2000 4
      (statusReport "s1" Sample.anonymous_report 2100 true) Sample.fresh = Some (w', out) ∧
    pcConn w' "tmp1" = Some (Conn true (Some "s1") (Some "Locked") (Some 2100)).
Proof.
  refine (proj2 (anonymous_report_follows_announce Sample.fresh "s1" Sample.reannounce
                   2000 2100 true "Locked" 4 _ _ _ _ _ _ _ _)).
  - unfold registry_ok, connRef. simpl. split_and!; [constructor | done | done].
  - reflexivity.
  - discriminate.
  - discriminate.
  - by apply (bool_decide_unpack _); vm_compute.
  - by apply (bool_decide_unpack _); vm_compute.
  - intros k l Hk. discriminate Hk.
  - lia.
Defined.

(** ** A status report handled while the announce waits *)

Lemma markConnected_registry (sid id : string) (w : world) :
  pcConnections (markConnected sid id w) = pcConnections (ensureConn id w).2.
Proof. by rewrite markConnected_eq. Qed.

Lemma markConnected_db (sid id : string) (w : world) :
  db (markConnected sid id w) = db w.
Proof. rewrite markConnected_eq. apply ensureConn_db. Qed.

Lemma markConnected_entry (sid id : string) (w : world) :
  pcConn (markConnected sid id w) id =
    Some (Conn true (Some sid) (status (connOrEmpty w id))
               (lastStatusAt (connOrEmpty w id))).
Proof.
  rewrite (pcConn_ref _ _ _ (markConnected_ref sid id w)), markConnected_eq.
  by rewrite !deref_update_eq, ensureConn_deref.
Qed.

Lemma assignStatus_registry (id : string) (st : option string) (w : world) :
  pcConnections (assignStatus id st w) = pcConnections w.
Proof. unfold assignStatus. by destruct (connRef w id). Qed.

Lemma assignStatus_db (id : string) (st : option string) (w : world) :
  db (assignStatus id st w) = db w.
Proof. unfold assignStatus. by destruct (connRef w id). Qed.

Lemma pcConn_tagSocket (sid id k : string) (w : world) :
  pcConn (tagSocket sid id w) k = pcConn w k.
Proof.
  unfold pcConn. rewrite connRef_tagSocket.
  destruct (connRef w k); [|done]. simpl. by rewrite deref_tagSocket.
Qed.

Lemma pcConn_set_pc_settings (t : list pc_row) (k : string) (w : world) :
  pcConn (set_pc_settings t w) k = pcConn w k.
Proof.
  unfold pcConn. rewrite connRef_set_pc_settings.
  destruct (connRef w k); [|done]. simpl. by rewrite deref_set_pc_settings.
Qed.

Section overlap.
Variables (w : world) (sid : string) (rd : register_data) (sd : status_data).
Variables (t2 : Z) (write_ok : bool) (s : string).
Hypothesis Hid : sd_id sd = Some (rd_id rd).
Hypothesis Hne : rd_id rd ≠ "".
Hypothesis Hs : sd_status sd = Some s.
Hypothesis Hsne : s ≠ "".

Local Abbreviation id := (rd_id rd).
Local Abbreviation ev := (statusReport sid sd t2 write_ok).
Local Abbreviation R := (pcConnections (ensureConn (rd_id rd) w).2).
Local Abbreviation c := (Conn true (Some sid) (Some s) (Some t2)).

(** The report leaves the entry it reports, in the registry extended
    with the pc id. *)
Lemma report_entry (w' : world) :
  pcConnections (ev w') = pcConnections (ensureConn id w').2 ∧
  pcConn (ev w') id = Some c.
Proof.
  unfold statusReport.
  destruct (on_pc_status_entry w' sid sd t2 write_ok id
              (incomingId_explicit _ _ _ _ Hid Hne) Hne) as (Hent & Hreg & _).
  rewrite (reportedStatus_given _ _ s Hs Hsne) in Hent. done.
Qed.

Lemma report_settles (w' : world) :
  pcConnections w' = R → settled R id c (Pending (ev w') true).
Proof.
  intros Hreg. destruct (report_entry w') as [Hr He]. split; [|done].
  cbn [p_world]. rewrite Hr, ensureConn_present; [done|].
  unfold connRef. rewrite Hreg. fold (connRef (ensureConn id w).2 id).
  rewrite ensureConn_ref. eauto.
Qed.

Lemma report_sameIdentity (w' : world) :
  sameIdentity (rd_name rd) id w' → sameIdentity (rd_name rd) id (ev w').
Proof.
  intros Hsame a. unfold statusReport.
  destruct (on_pc_status_entry w' sid sd t2 write_ok id
              (incomingId_explicit _ _ _ _ Hid Hne) Hne) as (_ & _ & Hrows & _).
  rewrite (reportedStatus_given _ _ s Hs Hsne) in Hrows.
  destruct write_ok.
  - rewrite (existingByName_db _ _
               (set_pc_settings (updateStatus id (Some s) t2 (pc_settings (db w'))) w'))
      by by rewrite Hrows.
    rewrite existingByName_updateStatus.
    destruct (existingByName (rd_name rd) w') as [a0|] eqn:Hex; [|done].
    simpl. intros [= <-]. destruct (decide _); [done | by apply Hsame].
  - rewrite (existingByName_db _ _ w') by done. apply Hsame.
Qed.

Lemma await_settled (j i : nat) (p : pending) :
  settled R id c p → settled R id c (await j i ev p).
Proof.
  intros [Hreg Hent]. unfold await.
  destruct (negb (p_handled p) && (i <=? j)%nat); [|done].
  by apply report_settles.
Qed.

Lemma await_sameIdentity (j i : nat) (p : pending) :
  sameIdentity (rd_name rd) id (p_world p) →
  sameIdentity (rd_name rd) id (p_world (await j i ev p)).
Proof.
  intros Hsame. unfold await.
  destruct (negb (p_handled p) && (i <=? j)%nat); [|done].
  by apply report_sameIdentity.
Qed.

Lemma onWorld_settled (f : world → world) (p : pending) :
  (∀ w', pcConnections (f w') = pcConnections w') →
  (∀ w', pcConn (f w') id = pcConn w' id) →
  settled R id c p → settled R id c (onWorld f p).
Proof.
  intros Hreg Hent [HR Hc]. split; cbn [onWorld p_world p_handled].
  - by rewrite Hreg.
  - intros Hh. rewrite Hent. by apply Hc.
Qed.

Lemma sameIdentity_db (w1 w2 : world) :
  pc_settings (db w1) = pc_settings (db w2) →
  sameIdentity (rd_name rd) id w2 → sameIdentity (rd_name rd) id w1.
Proof. intros Hdb Hsame a. rewrite (existingByName_db _ w1 w2 Hdb). apply Hsame. Qed.

(** Lines 617-619, after the [await] of position 0. *)
Lemma markConnected_settled (i : nat) :
  settled R id c (onWorld (markConnected sid id) (await 0 i ev (Pending w false))).
Proof.
  destruct (decide (i ≤ 0)%nat) as [Hi|Hi].
  - rewrite await_fires by done. rewrite onWorld_Pending.
    destruct (report_entry w) as [Hr He].
    assert (is_Some (connRef (ev w) id)) as Hpresent.
    { unfold pcConn in He. destruct (connRef (ev w) id); [eauto | done]. }
    split; cbn [p_world p_handled].
    + by rewrite markConnected_registry, ensureConn_present.
    + intros _. rewrite markConnected_entry. unfold connOrEmpty. by rewrite He.
  - rewrite await_quiet by (right; lia). rewrite onWorld_Pending.
    split; cbn [p_world p_handled]; [apply markConnected_registry | done].
Qed.

(** Lines 623-635. The status loaded from the store is assigned over a
    report handled while its query was awaited: this is the one position
    where the report must find nothing to load. *)
Lemma loadStatus_settled (i : nat) (p : pending) :
  settled R id c p →
  (p_handled p = false → (i ≤ 1)%nat →
   truthy (status (connOrEmpty (p_world p) id)) = false →
   truthy (selectPc id (pc_settings (db (p_world p))) ≫= last_status) = false) →
  settled R id c (loadStatus id i ev p).
Proof.
  intros Hset Hrace. unfold loadStatus.
  destruct (truthy (status (connOrEmpty (p_world p) id))) eqn:Hst; [done|].
  destruct p as [w' [|]]; cbn [p_world p_handled] in *.
  - exfalso. destruct Hset as [_ Hc]. cbn [p_world p_handled] in Hc.
    unfold connOrEmpty in Hst. rewrite (Hc eq_refl) in Hst. cbn in Hst.
    change (truthy s = false) in Hst.
    by rewrite (proj2 (truthy_string_nonempty s) Hsne) in Hst.
  - destruct (decide (i ≤ 1)%nat) as [Hi|Hi].
    + rewrite (Hrace eq_refl Hi eq_refl), await_fires by done.
      apply report_settles, Hset.
    + rewrite await_quiet by (right; lia).
      destruct (truthy (selectPc id (pc_settings (db w')) ≫= last_status));
        [|exact Hset].
      rewrite onWorld_Pending. destruct Hset as [HR _].
      split; cbn [p_world p_handled]; [by rewrite assignStatus_registry | done].
Qed.

Lemma loadStatus_sameIdentity (i : nat) (p : pending) :
  sameIdentity (rd_name rd) id (p_world p) →
  sameIdentity (rd_name rd) id (p_world (loadStatus id i ev p)).
Proof.
  intros Hsame. unfold loadStatus.
  destruct (truthy (status _)); [done|]. destruct (truthy _).
  - unfold onWorld. cbn [p_world].
    eapply sameIdentity_db; [by rewrite assignStatus_db|].
    by apply await_sameIdentity.
  - by apply await_sameIdentity.
Qed.

Lemma pushSchedule_settled (pcId : string) (i : nat) (p : pending) :
  settled R id c p → settled R id c (pushSchedule pcId i ev p).2.
Proof.
  intros Hset. unfold pushSchedule.
  destruct (selectPc pcId (pc_settings (db (p_world p))) ≫= owner_id) as [o|];
    cbn [snd]; [|by apply await_settled].
  destruct (truthy o); cbn [snd]; by repeat apply await_settled.
Qed.
End overlap.

(** C7, as the code has it. When the status report names the device (an
    id that is not a property name of [Object.prototype]) and carries a
    status, and the announce does not lead to another identity, the
    registry ends in the same state wherever the report is handled: before
    the announce, after it, or while it waits for the lookup by name, the
    upsert, the owner or the block periods. The entry of the device is
    connected on this socket, with the reported status and its timestamp.
    While the announce waits for the persisted status, this holds when the
    announce has no status to load. *)
Theorem announce_and_status_converge (w : world) (sid : string) (rd : register_data)
    (sd : status_data) (t1 t2 : Z) (write_ok : bool) (s : string) (i : nat) :
  rd_clientType rd = Some "pc_app" →
  sd_id sd = Some (rd_id rd) → rd_id rd ≠ "" → ownKey (rd_id rd) →
  sd_status sd = Some s → s ≠ "" →
  sameIdentity (rd_name rd) (rd_id rd) w →
  (i ≤ 6)%nat →
  (i = 1%nat → loadsStatus (rd_id rd) w = false) →
  ∃ w' out,
    register_pc_during sid rd t1 i (statusReport sid sd t2 write_ok) w = Some (w', out) ∧
    pcConn w' (rd_id rd) = Some (Conn true (Some sid) (Some s) (Some t2)) ∧
    pcConnections w' = pcConnections (ensureConn (rd_id rd) w).2.
Proof.
  intros Hct Hid Hne _ Hs Hsne Hsame Hi Hrace.
  set (ev := statusReport sid sd t2 write_ok).
  set (R := pcConnections (ensureConn (rd_id rd) w).2).
  set (c := Conn true (Some sid) (Some s) (Some t2)).
  unfold register_pc_during. rewrite decide_True by done.
  unfold announcePrefix, lookupByName. cbv zeta.
  set (p0 := await 0 i ev (Pending w false)).
  set (p1 := onWorld (markConnected sid (rd_id rd)) p0).
  assert (settled R (rd_id rd) c p1) as Hset1
    by apply (markConnected_settled w sid rd sd t2 write_ok s Hid Hne Hs Hsne).
  assert (sameIdentity (rd_name rd) (rd_id rd) (p_world p1)) as Hsame1.
  { subst p1. unfold onWorld. cbn [p_world].
    eapply sameIdentity_db; [by rewrite markConnected_db|].
    by apply (await_sameIdentity sid rd sd t2 write_ok s Hid Hne Hs Hsne). }
  assert (p_handled p1 = false → (i ≤ 1)%nat →
          truthy (status (connOrEmpty (p_world p1) (rd_id rd))) = false →
          truthy (selectPc (rd_id rd) (pc_settings (db (p_world p1))) ≫= last_status)
            = false) as Hload.
  { subst p1 p0. destruct (decide (i ≤ 0)%nat) as [H0|H0].
    { by rewrite await_fires by done. }
    rewrite await_quiet by (right; lia). rewrite onWorld_Pending.
    cbn [p_world p_handled]. intros _ H1.
    unfold connOrEmpty. rewrite markConnected_entry, markConnected_db.
    cbn [default status from_option]. intros Hst.
    assert (i = 1%nat) as Hi1 by lia. specialize (Hrace Hi1).
    unfold loadsStatus in Hrace. change (default empty_conn ?o) with (from_option Datatypes.id empty_conn o) in Hst.
    cbn in Hst. rewrite Hst in Hrace. exact Hrace. }
  set (p2 := loadStatus (rd_id rd) i ev p1).
  assert (settled R (rd_id rd) c p2) as Hset2
    by by apply (loadStatus_settled w sid rd sd t2 write_ok s Hid Hne Hs Hsne).
  assert (sameIdentity (rd_name rd) (rd_id rd) (p_world p2)) as Hsame2
    by by apply (loadStatus_sameIdentity sid rd sd t2 write_ok s Hid Hne Hs Hsne).
  set (p2' := onWorld (tagSocket sid (rd_id rd)) p2).
  assert (settled R (rd_id rd) c p2') as Hset2'.
  { apply onWorld_settled; [done | intros; apply pcConn_tagSocket | done]. }
  assert (mergesInto (existingByName (rd_name rd) (p_world p2')) (rd_id rd) = false)
    as Hmerge.
  { apply mergesInto_same. intros a.
    rewrite (existingByName_db _ (p_world p2') (p_world p2)) by done. apply Hsame2. }
  set (existing := existingByName (rd_name rd) (p_world p2')) in *.
  set (p3 := if truthy (rd_name rd) then await 2 i ev p2' else p2').
  assert (settled R (rd_id rd) c p3) as Hset3.
  { subst p3. destruct (truthy (rd_name rd)); [|done].
    by apply (await_settled w sid rd sd t2 write_ok s Hid Hne Hs Hsne). }
  set (p4 := upsertAnnounced rd t1 existing (sessionOwner (p_world p0) sid) i ev p3).
  assert (settled R (rd_id rd) c p4) as Hset4.
  { subst p4. unfold upsertAnnounced.
    apply (await_settled w sid rd sd t2 write_ok s Hid Hne Hs Hsne).
    apply onWorld_settled;
      [done | intros; apply pcConn_set_pc_settings | done]. }
  unfold mergeEntry. rewrite Hmerge.
  assert (settled R (rd_id rd) c
            (pushSchedule (rd_id rd) i ev (Pending (p_world p4) (p_handled p4))).2)
    as Hset6.
  { apply (pushSchedule_settled w sid rd sd t2 write_ok s Hid Hne Hs Hsne).
    by destruct p4. }
  destruct (pushSchedule (rd_id rd) i ev (Pending (p_world p4) (p_handled p4)))
    as [out p6]. cbn [snd] in Hset6.
  pose proof (await_settled w sid rd sd t2 write_ok s Hid Hne Hs Hsne 6 i p6 Hset6)
    as [HR Hc].
  exists (p_world (await 6 i ev p6)), out.
  split; [done|]. split; [|exact HR].
  apply Hc. by apply await_handled.
Qed.

Lemma announce_and_status_converge_witness :
  (∃ w' out,
     register_pc_during "s1" (RegisterData "tmp9" (Some "Den-PC") (Some "pc_app") None)
       2000 1 (statusReport "s1" (StatusData (Some "tmp9") (Some "Locked")) 2001 true)
       Sample.fresh = Some (w', out) ∧
     pcConn w' "tmp9" = Some (Conn true (Some "s1") (Some "Locked") (Some 2001))) ∧
  (∃ w' out,
     register_pc_during "s1" Sample.announce_lab 2000 2
       (statusReport "s1" Sample.report_lab 2100 true) Sample.fresh = Some (w', out) ∧
     pcConn w' "tmp1" = Some (Conn true (Some "s1") (Some "Locked") (Some 2100))).
Proof.
  split.
  - destruct (announce_and_status_converge Sample.fresh "s1"
                (RegisterData "tmp9" (Some "Den-PC") (Some "pc_app") None)
                (StatusData (Some "tmp9") (Some "Locked")) 2000 2001 true "Locked" 1)
      as (w' & out & Hrun & Hent & _).
    + reflexivity.
    + reflexivity.
    + discriminate.
    + by apply (bool_decide_unpack _); vm_compute.
    + reflexivity.
    + discriminate.
    + intros a [= <-]. reflexivity.
    + lia.
    + intros _. reflexivity.
    + exists w', out. split; [exact Hrun | exact Hent].
  - destruct (announce_and_status_converge Sample.fresh "s1" Sample.announce_lab
                Sample.report_lab 2000 2100 true "Locked" 2)
      as (w' & out & Hrun & Hent & _).
    + reflexivity.
    + reflexivity.
    + discriminate.
    + by apply (bool_decide_unpack _); vm_compute.
    + reflexivity.
    + discriminate.
    + intros a [= <-]. reflexivity.
    + lia.
    + intros [=].
    + exists w', out. split; [exact Hrun | exact Hent].
Defined.

(** C7 as stated fails, also when the report is handled wholly before (0)
    or wholly after (6) the announce. A status report that does not carry
    the pc id is resolved through the socket after the announce, and
    dropped before it. A report that carries the id but no status keeps the
    status loaded by the announce, and stores ['Unknown'] before it. A
    report under a new id that the announce merges into [tmp1] recreates
    the entry of the new id after the announce, and is moved to [tmp1] by
    the announce before it. *)
Lemma announce_and_status_do_not_commute :
  let entry i rd sd k :=
    (λ r : world * list emit, pcConn r.1 k) <$>
      register_pc_during "s1" rd 2000 i (statusReport "s1" sd 2100 true) Sample.fresh in
  (entry 6%nat Sample.announce_lab Sample.anonymous_report "tmp1" =
     Some (Some (Conn true (Some "s1") (Some "Locked") (Some 2100))) ∧
   entry 0%nat Sample.announce_lab Sample.anonymous_report "tmp1" =
     Some (Some (Conn true (Some "s1") (Some "Unlocked") None))) ∧
  (entry 6%nat Sample.announce_lab Sample.empty_report "tmp1" =
     Some (Some (Conn true (Some "s1") (Some "Unlocked") (Some 2100))) ∧
   entry 0%nat Sample.announce_lab Sample.empty_report "tmp1" =
     Some (Some (Conn true (Some "s1") (Some "Unknown") (Some 2100)))) ∧
  (entry 6%nat Sample.reannounce Sample.report_new_id "tmp2" =
     Some (Some (Conn true (Some "s1") (Some "Locked") (Some 2100))) ∧
   entry 0%nat Sample.reannounce Sample.report_new_id "tmp2" = Some None).
Proof. vm_compute. done. Qed.

(** The one position left out above. [tmp1] has the persisted status
    ['Unlocked'] and none in memory; its report of ['Locked'] is handled
    while the announce waits for the persisted status (the client sends
    [register_pc] and [pc_status] back to back). The announce then assigns
    the persisted status over the reported one (line 627 after the test of
    line 623), although the report came with a later timestamp; handled at
    any other position, the same report is kept. *)
Lemma report_during_status_lookup_is_overwritten :
  let entry i :=
    (λ r : world * list emit, pcConn r.1 "tmp1") <$>
      register_pc_during "s1" Sample.announce_lab 2000 i
        (statusReport "s1" Sample.report_lab 2001 true) Sample.fresh in
  let kept := Some (Some (Conn true (Some "s1") (Some "Locked") (Some 2001))) in
  loadsStatus "tmp1" Sample.fresh = true ∧
  entry 1%nat = Some (Some (Conn true (Some "s1") (Some "Unlocked") (Some 2001))) ∧
  entry 0%nat = kept ∧ entry 2%nat = kept ∧ entry 3%nat = kept ∧
  entry 4%nat = kept ∧ entry 5%nat = kept ∧ entry 6%nat = kept.
Proof. vm_compute. done. Qed.

(** ** The announce keeps the registry free of sharing at every position *)







Section announce_sharing.
Variable ev : world → world.
Hypothesis ev_ok : ∀ w, registry_ok w → registry_ok (ev w).




End announce_sharing.




(** ** Who receives a schedule *)

(** X8. [notifyScheduleChangeForUser] sends the owner's block periods, and
    only when there is at least one, to exactly these recipients: the
    owner's dashboard room, and the socket of every device of the owner
    whose registry entry is connected with a socket id. *)
Theorem schedule_notification_recipients (userId : Z) (w : world) (e : emit) :
  e ∈ notifyScheduleChangeForUser userId w ↔
  selectPeriods userId (block_periods (db w)) ≠ [] ∧
  em_msg e = ScheduleUpdate (selectPeriods userId (block_periods (db w))) ∧
  (em_to e = ToDashboard userId ∨
   ∃ r c s, r ∈ pc_settings (db w) ∧ owner_id r = Some userId ∧
            pcConn w (pc_id r) = Some c ∧ connected c = true ∧
            socketId c = Some s ∧ s ≠ "" ∧ em_to e = ToSocket s).
Proof.
  unfold notifyScheduleChangeForUser.
  set (rows := selectPeriods userId (block_periods (db w))).
  rewrite elem_of_app, list_elem_of_In, List.in_flat_map. split.
  - intros [(r & Hr & Hin)|Hin].
    + apply list_elem_of_In, elem_of_selectByOwner in Hr as [Hr Hown].
      apply list_elem_of_In in Hin.
      destruct (pcConn w (pc_id r)) as [c|] eqn:Hc; [|by apply elem_of_nil in Hin].
      destruct (socketId c) as [s|] eqn:Hs; [|by apply elem_of_nil in Hin].
      destruct (connected c) eqn:Hconn; [|by apply elem_of_nil in Hin].
      destruct (truthy s) eqn:Ht; [|by apply elem_of_nil in Hin]. simpl in Hin.
      case_bool_decide as Hlen; [|by apply elem_of_nil in Hin].
      apply list_elem_of_singleton in Hin as ->. split_and!; [|done|].
      * by apply length_pos_nonempty.
      * right. exists r, c, s. split_and!; try done. by apply truthy_string_nonempty.
    + case_bool_decide as Hlen; [|by apply elem_of_nil in Hin].
      apply list_elem_of_singleton in Hin as ->. split_and!; [|done|by left].
      by apply length_pos_nonempty.
  - intros (Hne & Hmsg & Hto).
    assert (0 < length rows)%nat as Hlen by (destruct rows; simpl; [done | lia]).
    destruct e as [to msg]. simpl in *. subst msg.
    destruct Hto as [->|(r & c & s & Hr & Hown & Hc & Hconn & Hs & Hsne & ->)].
    + right. rewrite bool_decide_eq_true_2 by done. by left.
    + left. exists r. split.
      * apply list_elem_of_In, elem_of_selectByOwner. done.
      * rewrite Hc, Hs, Hconn, (proj2 (truthy_string_nonempty s) Hsne). simpl.
        rewrite bool_decide_eq_true_2 by done. by left.
Qed.

(** ** The lookup by display name *)

Lemma seen_before_trans_neg (r r' b : option Z) :
  seen_before r b = false → seen_before r' b = true → seen_before r r' = false.
Proof.
  destruct r as [x|], r' as [y|], b as [z|]; simpl; try done.
  rewrite !Z.ltb_ge, Z.ltb_lt. lia.
Qed.

Lemma seen_before_not_trans (r b a : option Z) :
  seen_before r b = false → seen_before b a = false → seen_before r a = false.
Proof.
  destruct r as [x|], b as [y|], a as [z|]; simpl; try done.
  rewrite !Z.ltb_ge. lia.
Qed.

Lemma foldl_pick_max (l : list pc_row) (b : option pc_row) :
  match foldl (λ best r,
                 match best with
                 | None => Some r
                 | Some b => if seen_before (last_seen r) (last_seen b) then Some r else Some b
                 end) b l with
  | Some a =>
      (b = Some a ∨ a ∈ l) ∧
      (∀ r, r ∈ l → seen_before (last_seen r) (last_seen a) = false) ∧
      (∀ b0, b = Some b0 → seen_before (last_seen b0) (last_seen a) = false)
  | None => b = None ∧ l = []
  end.
Proof.
  revert b. induction l as [|r l IH]; intros b; simpl.
  - destruct b as [a|]; [|done]. split_and!; [by left| by intros ? ?%elem_of_nil|].
    intros b0 [=]; subst. by destruct (last_seen _); simpl; rewrite ?Z.ltb_irrefl.
  - set (b' := match b with
               | Some b0 => if seen_before (last_seen r) (last_seen b0) then Some r else Some b0
               | None => Some r
               end).
    specialize (IH b'). destruct (foldl _ b' l) as [a|]; [|by destruct IH as [? _], b as [?|]; [destruct (seen_before _ _)|]].
    destruct IH as (Hin & Hmax & Hb'). split_and!.
    + destruct Hin as [Hin|Hin]; [|right; by right]. subst b'.
      destruct b as [b0|]; [destruct (seen_before _ _)|]; injection Hin as <-;
        (by left) || (right; by left).
    + intros r0 [->|Hr0]%elem_of_cons; [|by apply Hmax]. subst b'.
      destruct b as [b0|]; [|by apply Hb'].
      destruct (seen_before (last_seen r) (last_seen b0)) eqn:Hrb; [by apply Hb'|].
      exact (seen_before_not_trans _ _ _ Hrb (Hb' b0 eq_refl)).
    + intros b0 ->. subst b'.
      destruct (seen_before (last_seen r) (last_seen b0)) eqn:Hrb; [|by apply Hb'].
      pose proof (Hb' r eq_refl) as Hra.
      destruct (seen_before (last_seen b0) (last_seen a)) eqn:Hba; [|done].
      by rewrite (seen_before_trans_neg _ _ _ Hra Hba) in Hrb.
Qed.

(** X9. The row that [register_pc] merges into is one of the rows with the
    announced name, and none of the rows with that name was seen later
    (a row whose [last_seen] is NULL counts as the latest); the lookup
    finds nothing only when no row has the name. *)
Theorem findDeviceByName_most_recent (nm : string) (t : list pc_row) :
  match findDeviceByName nm t with
  | Some a =>
      a ∈ t ∧ name a = Some nm ∧
      ∀ r, r ∈ t → name r = Some nm → seen_before (last_seen r) (last_seen a) = false
  | None => ∀ r, r ∈ t → name r ≠ Some nm
  end.
Proof.
  unfold findDeviceByName.
  pose proof (foldl_pick_max (List.filter (λ r, bool_decide (name r = Some nm)) t) None)
    as Hmax.
  destruct (foldl _ None _) as [a|].
  - destruct Hmax as ([?|Hin] & Hmax & _); [done|].
    apply list_elem_of_In, List.filter_In in Hin as [Hin Hnm%bool_decide_eq_true].
    split_and!; [by apply list_elem_of_In | done |].
    intros r Hr Hrn. apply Hmax. apply list_elem_of_In, List.filter_In.
    split; [by apply list_elem_of_In | by apply bool_decide_eq_true].
  - destruct Hmax as [_ Hnil]. intros r Hr Hrn.
    assert (r ∈ List.filter (λ r, bool_decide (name r = Some nm)) t) as Hin.
    { apply list_elem_of_In, List.filter_In.
      split; [by apply list_elem_of_In | by apply bool_decide_eq_true]. }
    rewrite Hnil in Hin. by apply elem_of_nil in Hin.
Qed.

(** ** One list per owner *)

(** X10. One broadcast sends at most one [pc_update] to each dashboard
    room, only to rooms of owners, and an owner gets one exactly when some
    device is persisted with that owner. *)
Theorem broadcast_one_list_per_owner (w : world) :
  NoDup (em_to <$> broadcastUpdate w) ∧
  ∀ t, t ∈ (em_to <$> broadcastUpdate w) ↔
       ∃ o, t = ToDashboard o ∧ o ≠ 0 ∧ ∃ r, r ∈ pc_settings (db w) ∧ owner_id r = Some o.
Proof.
  split.
  - unfold broadcastUpdate. rewrite <- list_fmap_compose.
    destruct (groupByOwner_keys w (pc_settings (db w))) as [Hnd _].
    unfold JsObject.keys in Hnd.
    replace ((em_to ∘ (λ e : Z * list pc_view, Emit (ToDashboard e.1) (PcUpdate e.2)))
               <$> groupByOwner w (pc_settings (db w)))
      with (ToDashboard <$> (groupByOwner w (pc_settings (db w))).*1).
    + apply NoDup_fmap_2; [|done]. by intros ? ? [= ->].
    + by rewrite <- list_fmap_compose.
  - intros t. rewrite list_elem_of_fmap. split.
    + intros (e & -> & (o & Ho & Hne & ->)%elem_of_broadcastUpdate).
      exists o. split_and!; [done | by apply truthy_Z_nonzero |].
      destruct (selectByOwner o (pc_settings (db w))) as [|r rows] eqn:Hsel; [done|].
      exists r. apply elem_of_selectByOwner. rewrite Hsel. left.
    + intros (o & -> & Ho & r & Hr & Hown). eexists. split; [|apply elem_of_broadcastUpdate].
      2:{ exists o. split_and!; [by apply truthy_Z_nonzero| |done].
          intros Hnil. assert (r ∈ selectByOwner o (pc_settings (db w))) as Hin
            by by apply elem_of_selectByOwner.
          rewrite Hnil in Hin. by apply elem_of_nil in Hin. }
      done.
Qed.

(** ** What an announce writes *)




Lemma upsert_keys (pcId : string) (g : pc_row → pc_row) (new : pc_row)
    (t : list pc_row) :
  (∀ r, pc_id (g r) = pc_id r) → pc_id new = pcId →
  NoDup (pc_id <$> t) →
  NoDup (pc_id <$> match selectPc pcId t with
                   | Some _ => map g t
                   | None => t ++ [new]
                   end).
Proof.
  intros Hg Hnew Hnd. destruct (selectPc pcId t) eqn:Hsel.
  - replace (pc_id <$> map g t) with (pc_id <$> t); [done|].
    clear -Hg. induction t as [|r t IH]; [done|].
    change (pc_id r :: (pc_id <$> t) = pc_id (g r) :: (pc_id <$> map g t)).
    f_equal; [symmetry; apply Hg | exact IH].
  - rewrite fmap_app. simpl. apply NoDup_app. split_and!; [done| |apply NoDup_singleton].
    intros k (r & -> & Hr)%list_elem_of_fmap Hk%list_elem_of_singleton.
    rewrite selectPc_None in Hsel. apply (Hsel r Hr). congruence.
Qed.


Lemma upsertOnRegister_keys (pcId nm : string) (now : Z) (owner : option Z)
    (ipv : option string) (t : list pc_row) :
  NoDup (pc_id <$> t) → NoDup (pc_id <$> upsertOnRegister pcId nm now owner ipv t).
Proof.
  intros Hnd. unfold upsertOnRegister.
  apply (upsert_keys pcId); [|done..]. intros r. by destruct (decide _) as [->|].
Qed.




(** ** Registration over HTTP *)



(** ** Block periods *)







Lemma filter_owner_delete (u user id : Z) (t : list block_period) :
  u ≠ user →
  List.filter (λ p, bool_decide (user_id p = Some u))
    (List.filter (λ p, negb (bool_decide (bp_id p = id)
                             && bool_decide (user_id p = Some user))) t) =
  List.filter (λ p, bool_decide (user_id p = Some u)) t.
Proof.
  intros Hu. induction t as [|p t IH]; simpl; [done|].
  destruct (bool_decide (bp_id p = id) && bool_decide (user_id p = Some user)) eqn:Hdel;
    simpl.
  - apply andb_true_iff in Hdel as [_ Hown%bool_decide_eq_true].
    rewrite bool_decide_eq_false_2 by congruence. done.
  - destruct (bool_decide (user_id p = Some u)); by rewrite IH.
Qed.




Lemma notify_dashboard (user : Z) (w : world) :
  selectPeriods user (block_periods (db w)) ≠ [] →
  Emit (ToDashboard user) (ScheduleUpdate (selectPeriods user (block_periods (db w))))
    ∈ notifyScheduleChangeForUser user w.
Proof.
  intros Hne. unfold notifyScheduleChangeForUser. apply elem_of_app. right.
  rewrite bool_decide_eq_true_2; [by left|].
  destruct (selectPeriods user _); simpl; [done | lia].
Qed.

Lemma notify_nothing (user : Z) (w : world) :
  selectPeriods user (block_periods (db w)) = [] →
  notifyScheduleChangeForUser user w = [].
Proof.
  intros Hnil. unfold notifyScheduleChangeForUser. rewrite Hnil. simpl.
  rewrite app_nil_r. induction (selectByOwner user (pc_settings (db w))) as [|r l IH];
    simpl; [done|].
  rewrite IH, app_nil_r. destruct (pcConn w (pc_id r)) as [c|]; [|done].
  destruct (socketId c); [|done]. by destruct (connected c && truthy _).
Qed.



(** X14. Deleting a block period, with an id in the range of the column,
    removes exactly the caller's period with that id: periods of other
    users, also one with the same id, stay, and so do the caller's other
    periods. When the caller has periods left, the remaining list goes to
    the caller's dashboards; when the deleted period was the last one,
    nothing at all is sent, to no device and no dashboard. With an id
    outside the range the query fails: the route answers 500, nothing is
    deleted and nobody is notified. *)
Theorem delete_removes_only_own_period (user id : Z) (w : world) :
  user ≠ 0 →
  let r := api_block_period_delete (Some user) id w in
  let left := selectPeriods user (block_periods (db r.1.1)) in
  (int4 id = true →
   r.2 = Json () ∧
   (∀ p, p ∈ block_periods (db r.1.1) ↔
         p ∈ block_periods (db w) ∧ ¬ (bp_id p = id ∧ user_id p = Some user)) ∧
   (∀ u, u ≠ user →
         selectPeriods u (block_periods (db r.1.1)) = selectPeriods u (block_periods (db w))) ∧
   (left ≠ [] → Emit (ToDashboard user) (ScheduleUpdate left) ∈ r.1.2) ∧
   (left = [] → r.1.2 = [])) ∧
  (int4 id = false → r = (w, [], Error 500 "Failed to delete block period.")).
Proof.
  intros Hu r left. subst left r. unfold api_block_period_delete.
  rewrite (requireAuth_user _ Hu). split; intros Hid; rewrite Hid; [|done].
  cbn [fst snd].
  set (w1 := set_block_periods _ w). split_and!.
  - done.
  - intros p. subst w1. cbn [db set_block_periods block_periods].
    rewrite list_elem_of_In, List.filter_In, <- list_elem_of_In.
    rewrite negb_true_iff, andb_false_iff, !bool_decide_eq_false. split.
    + intros [Hp Hor]. split; [done|]. intros [? ?]. by destruct Hor.
    + intros [Hp Hnot]. split; [done|].
      destruct (decide (bp_id p = id)); [right|left]; naive_solver.
  - intros u Hne. subst w1. cbn [db set_block_periods block_periods].
    unfold selectPeriods. by rewrite filter_owner_delete.
  - apply notify_dashboard.
  - apply notify_nothing.
Qed.

Lemma delete_removes_only_own_period_witness :
  let w1 := (api_block_period_create (Some 7) (Some "22:00") (Some "06:00") ["mon"] 1
                                     Sample.w0).1.1 in
  (api_block_period_delete (Some 7) 1 w1).1.2 = [] ∧
  api_block_period_delete (Some 7) 2147483648 w1 =
    (w1, [], Error 500 "Failed to delete block period.").
Proof.
  set (w1 := (api_block_period_create (Some 7) (Some "22:00") (Some "06:00") ["mon"] 1
                                      Sample.w0).1.1).
  pose proof (delete_removes_only_own_period 7 1 w1 ltac:(lia)) as H.
  pose proof (delete_removes_only_own_period 7 2147483648 w1 ltac:(lia)) as H'.
  cbv zeta in H, H'. destruct H as [H _]. destruct H' as [_ H'].
  destruct (H eq_refl) as (_ & _ & _ & _ & Hnone).
  split; [apply Hnone; by vm_compute | exact (H' eq_refl)].
Defined.



(** ** Probe: the fast path *)

Lemma race_unheard_prefix ms sid pcId probeId l aR aS now pre tl w out :
  unheard sid pre = true → (duration pre ≤ ms)%nat →
  race ms sid pcId probeId l aR aS now (pre ++ tl) w out =
    race (ms - duration pre) sid pcId probeId l aR aS
         (r_now (sleep (duration pre) now pre w out)) tl
         (r_world (sleep (duration pre) now pre w out))
         (r_out (sleep (duration pre) now pre w out)).
Proof.
  revert ms now w out. induction pre as [|[d e] pre IH]; intros ms now w out Hq Hd.
  - cbn [duration foldr sleep app r_now r_world r_out].
    by rewrite Nat.sub_0_r, Z.add_0_r.
  - cbn [unheard forallb] in Hq. apply andb_true_iff in Hq as [He Hq].
    apply negb_true_iff in He. cbn [snd] in He.
    change (duration ((d, e) :: pre)) with (d + duration pre)%nat in *.
    cbn [app race sleep].
    rewrite !(proj2 (Nat.leb_le _ _)) by lia.
    destruct (handle (now + Z.of_nat d) e w) as [w' o].
    replace (d + duration pre - d)%nat with (duration pre) by lia.
    replace (ms - (d + duration pre))%nat with (ms - d - duration pre)%nat by lia.
    destruct e as [s0 s|s0 rd|s0 sd ok|s0 p|s0]; cbn [heardOn] in He;
      rewrite ?He, ?andb_false_r; apply IH; (done || lia).
Qed.

Lemma race_reply ms sid pcId probeId l aS now d p rest w out :
  (d ≤ ms)%nat → rp_probeId p = Some probeId →
  race ms sid pcId probeId l true aS now ((d, EvStatusReply sid p) :: rest) w out =
    (Some (rp_status p, js_or_lit (rp_lastStatusAt p) (now + Z.of_nat d)),
     Running w (now + Z.of_nat d) rest out).
Proof.
  intros Hd Hp. cbn [race handle]. rewrite (proj2 (Nat.leb_le _ _)) by done.
  rewrite bool_decide_eq_true_2 by done. cbn [andb]. unfold replyHandler.
  rewrite bool_decide_eq_true_2 by done. by rewrite app_nil_r.
Qed.

Lemma race_report ms sid pcId probeId l aR now d sd ok rest w out rep :
  (d ≤ ms)%nat →
  pcStatusHandler pcId (now + Z.of_nat d)
                  (deref (on_pc_status sid sd (now + Z.of_nat d) ok w).1 l) sd = Some rep →
  race ms sid pcId probeId l aR true now ((d, EvPcStatus sid sd ok) :: rest) w out =
    (Some rep,
     Running (on_pc_status sid sd (now + Z.of_nat d) ok w).1 (now + Z.of_nat d) rest
             (out ++ (on_pc_status sid sd (now + Z.of_nat d) ok w).2)).
Proof.
  intros Hd Hrep. cbn [race handle]. rewrite (proj2 (Nat.leb_le _ _)) by done.
  destruct (on_pc_status sid sd (now + Z.of_nat d) ok w) as [w' o]. cbn [fst snd] in *.
  rewrite bool_decide_eq_true_2 by done. cbn [andb]. by rewrite Hrep.
Qed.

(** The probe of a device whose entry is live starts the fast path at once. *)
Lemma api_pc_probe_live (w : world) (userId : Z) (pcId probeId : string) (now : Z)
    (tl : timeline) (row : pc_row) (l : nat) (sid : string) (sk : socket) :
  userId ≠ 0 →
  selectPc pcId (pc_settings (db w)) = Some row → owner_id row = Some userId →
  connRef w pcId = Some l →
  connected (deref w l) = true → socketId (deref w l) = Some sid → sid ≠ "" →
  socketOf w sid = Some sk →
  api_pc_probe (Some userId) pcId probeId now tl w =
    let raced := race replyTimeoutMs sid pcId probeId l true true now tl w
                      [Emit (ToSocket sid) (StatusRequest probeId)] in
    let r2 := match raced.1 with
              | Some rep => applyReply l rep raced.2
              | None => pollLoop pollFuel 0 now l raced.2
              end in
    let c := deref (r_world r2) l in
    ProbeRun (Json (Probed (js_or_lit (status c) "Unknown") (js_or (lastStatusAt c) None)))
             r2.
Proof.
  intros Hu Hrow Hown Hl Hconn Hsid Hsne%truthy_string_nonempty Hsk.
  rewrite (api_pc_probe_owned _ _ _ _ _ _ _ Hu Hrow Hown). cbv zeta.
  assert (conn_live (pcConn w pcId) = true) as Hlive.
  { erewrite pcConn_ref by exact Hl. unfold conn_live. rewrite Hconn, Hsid. done. }
  rewrite Hlive. cbn [fst snd r_world]. rewrite Hl.
  erewrite pcConn_ref in Hlive by exact Hl. rewrite Hlive.
  unfold probeLive, probeFastPath. cbn [r_world r_now r_rest r_out].
  rewrite Hsid, Hsk. cbn [app].
  destruct (race _ _ _ _ _ _ _ _ _ _ _) as [[rep|] r']; cbn [fst snd]; reflexivity.
Qed.

Lemma applyReply_entry (l : nat) (rep : reply) (r : running) :
  0 < r_now r →
  let st := js_or_lit (js_or rep.1 (status (deref (r_world r) l))) "Unknown" in
  let c := deref (r_world (applyReply l rep r)) l in
  js_or_lit (status c) "Unknown" = st ∧
  js_or (lastStatusAt c) None = Some (js_or_lit (Some rep.2) (r_now r)) ∧
  connected c = connected (deref (r_world r) l) ∧
  socketId c = socketId (deref (r_world r) l) ∧
  db (r_world (applyReply l rep r)) = db (r_world r) ∧
  pcConnections (r_world (applyReply l rep r)) = pcConnections (r_world r) ∧
  r_now (applyReply l rep r) = r_now r ∧ r_rest (applyReply l rep r) = r_rest r ∧
  r_out (applyReply l rep r) = r_out r.
Proof.
  intros Hnow st c. subst c. unfold applyReply. cbn [r_world r_now r_rest r_out].
  rewrite !deref_update_eq. cbn [with_lastStatusAt with_status status lastStatusAt
                                  connected socketId].
  split_and!; try done.
  - fold st. apply js_or_lit_truthy. apply js_or_lit_Unknown_truthy.
  - unfold js_or. set (t := js_or_lit _ _).
    assert (truthy (Some t) = true) as ->; [|done].
    change (truthy (Some t)) with (truthy t). apply truthy_Z_nonzero. subst t.
    unfold js_or_lit. destruct (truthy rep.2) eqn:Ht; [|lia].
    by apply truthy_Z_nonzero.
Qed.

(** X16. A probe of a live device is answered by the first [status_reply]
    of the device's socket, when it carries the probe's token and arrives
    within the 3 s of the fast path: the probe answers at that moment
    (events of other sockets in between are handled as usual), with the
    replied status, or the status held in the registry when the reply has
    none, and with the reply's timestamp, or the time of arrival. The
    status learnt this way is put in the registry entry only: the store is
    not written and no list is pushed to dashboards. *)
Theorem probe_answered_by_reply (w : world) (userId : Z) (pcId probeId : string)
    (now : Z) (pre rest : timeline) (d : nat) (p : reply_payload) (row : pc_row)
    (l : nat) (sid : string) (sk : socket) :
  userId ≠ 0 →
  selectPc pcId (pc_settings (db w)) = Some row → owner_id row = Some userId →
  connRef w pcId = Some l →
  connected (deref w l) = true → socketId (deref w l) = Some sid → sid ≠ "" →
  socketOf w sid = Some sk →
  0 < now →
  unheard sid pre = true → (duration pre + d ≤ replyTimeoutMs)%nat →
  rp_probeId p = Some probeId →
  let run := api_pc_probe (Some userId) pcId probeId now
                          (pre ++ (d, EvStatusReply sid p) :: rest) w in
  let before := sleep (duration pre) now pre w
                      [Emit (ToSocket sid) (StatusRequest probeId)] in
  let at_ := now + Z.of_nat (duration pre) + Z.of_nat d in
  pr_response run =
    Json (Probed (js_or_lit (js_or (rp_status p) (status (deref (r_world before) l)))
                            "Unknown")
                 (Some (js_or_lit (rp_lastStatusAt p) at_))) ∧
  r_now (pr_state run) = at_ ∧ r_rest (pr_state run) = rest ∧
  r_out (pr_state run) = r_out before ∧
  db (r_world (pr_state run)) = db (r_world before).
Proof.
  intros Hu Hrow Hown Hl Hconn Hsid Hsne Hsk Hnow Hpre Hd Hp run before at_.
  subst run. rewrite (api_pc_probe_live w userId pcId probeId now _ row l sid sk) by done.
  cbv zeta. rewrite race_unheard_prefix by (done || lia). fold before.
  rewrite race_reply by (done || lia). cbn [fst snd].
  assert (r_now before = now + Z.of_nat (duration pre)) as Hb by apply sleep_now.
  rewrite Hb. fold at_.
  set (r := Running (r_world before) at_ rest (r_out before)).
  set (rep := (rp_status p, js_or_lit (rp_lastStatusAt p) at_)).
  destruct (applyReply_entry l rep r) as (Hst & Hat & _ & _ & Hdb & _ & Hn & Hr & Ho).
  { subst r at_. simpl. lia. }
  cbn [pr_response pr_state]. rewrite Hst, Hat, Hdb, Hn, Hr, Ho. subst r rep.
  cbn [r_world r_now r_rest r_out fst snd]. split_and!; try done.
  do 3 f_equal. apply js_or_lit_truthy. apply truthy_Z_nonzero.
  unfold js_or_lit. destruct (rp_lastStatusAt p) as [t|]; [|subst at_; lia].
  destruct (truthy t) eqn:Ht; [by apply truthy_Z_nonzero | subst at_; lia].
Qed.

Lemma probe_answered_by_reply_witness :
  let run := api_pc_probe (Some 7) "tmp1" "tok" 5000
               (Sample.bystander ++
                (10%nat, EvStatusReply "s1" (ReplyPayload (Some "tok") None None)) :: [])
               Sample.w0 in
  pr_response run = Json (Probed "Locked" (Some 5160)) ∧ r_now (pr_state run) = 5160.
Proof.
  pose proof (probe_answered_by_reply Sample.w0 7 "tmp1" "tok" 5000 Sample.bystander []
                10 (ReplyPayload (Some "tok") None None) Sample.lab 0 "s1"
                (Socket (Some "tmp1") None)
                ltac:(lia) eq_refl eq_refl eq_refl eq_refl eq_refl ltac:(discriminate)
                eq_refl ltac:(lia) eq_refl ltac:(vm_compute; lia) eq_refl) as H.
  cbv zeta in H. destruct H as (Hresp & Hnow & _).
  split; [exact Hresp | exact Hnow].
Defined.

Lemma reportedStatus_again (d : status_data) (c : conn) :
  js_or_lit (js_or (sd_status d) (Some (reportedStatus d c))) "Unknown" = reportedStatus d c.
Proof.
  unfold reportedStatus, js_or. destruct (truthy (sd_status d)) eqn:Hs; [done|].
  apply js_or_lit_truthy. apply js_or_lit_Unknown_truthy.
Qed.

(** X17. A probe of a live device is also answered by a status report of
    the device's socket that names the device, when nothing else of that
    socket came first and it arrives within the 3 s of the fast path while
    the registry still has the entry the probe holds: the probe answers at
    that moment with the status the report stores (the reported one, else
    the one already held, else ['Unknown']) and the time of the report. *)
Theorem probe_answered_by_status_report (w : world) (userId : Z)
    (pcId probeId : string) (now : Z) (pre rest : timeline) (d : nat)
    (sd : status_data) (ok : bool) (row : pc_row) (l : nat) (sid : string)
    (sk : socket) :
  userId ≠ 0 →
  selectPc pcId (pc_settings (db w)) = Some row → owner_id row = Some userId →
  connRef w pcId = Some l →
  connected (deref w l) = true → socketId (deref w l) = Some sid → sid ≠ "" →
  socketOf w sid = Some sk →
  0 < now →
  unheard sid pre = true → (duration pre + d ≤ replyTimeoutMs)%nat →
  sd_id sd = Some pcId → pcId ≠ "" →
  connRef (r_world (sleep (duration pre) now pre w [])) pcId = Some l →
  let run := api_pc_probe (Some userId) pcId probeId now
                          (pre ++ (d, EvPcStatus sid sd ok) :: rest) w in
  let before := r_world (sleep (duration pre) now pre w []) in
  let at_ := now + Z.of_nat (duration pre) + Z.of_nat d in
  pr_response run = Json (Probed (reportedStatus sd (deref before l)) (Some at_)) ∧
  r_now (pr_state run) = at_ ∧ r_rest (pr_state run) = rest ∧
  pcConn (r_world (pr_state run)) pcId =
    Some (Conn true (Some sid) (Some (reportedStatus sd (deref before l))) (Some at_)).
Proof.
  intros Hu Hrow Hown Hl Hconn Hsid Hsne Hsk Hnow Hpre Hd Hid Hne Hheld run before at_.
  subst run. rewrite (api_pc_probe_live w userId pcId probeId now _ row l sid sk) by done.
  cbv zeta. rewrite race_unheard_prefix by (done || lia).
  rewrite sleep_now, sleep_world.
  change (worldAfter (duration pre) now pre w) with before in *.
  change (r_world (sleep (duration pre) now pre w [])) with before in Hheld.
  set (out := r_out _).
  pose proof (on_pc_status_entry before sid sd at_ ok pcId
                (incomingId_explicit before sid sd pcId Hid Hne) Hne) as Hentry.
  cbv zeta in Hentry. destruct Hentry as (Hc & Hreg & _).
  assert ((ensureConn pcId before).2 = before) as Hens
    by (unfold ensureConn; by rewrite Hheld).
  rewrite Hens in Hreg.
  assert (connOrEmpty before pcId = deref before l) as Hce
    by (unfold connOrEmpty; by rewrite (pcConn_ref _ _ _ Hheld)).
  rewrite Hce in Hc.
  set (st := reportedStatus sd (deref before l)) in *.
  set (w' := (on_pc_status sid sd at_ ok before).1) in *.
  assert (connRef w' pcId = Some l) as Hl' by (unfold connRef; by rewrite Hreg).
  assert (deref w' l = Conn true (Some sid) (Some st) (Some at_)) as Hd'.
  { rewrite (pcConn_ref _ _ _ Hl') in Hc. by injection Hc. }
  rewrite (race_report _ _ _ _ _ _ _ _ _ _ _ _ _ (Some st, at_)); [|lia|].
  2:{ fold at_. fold w'. rewrite Hd'. unfold pcStatusHandler. rewrite Hid.
      change (truthy (Some pcId)) with (truthy pcId).
      rewrite (proj2 (truthy_string_nonempty pcId) Hne), bool_decide_eq_true_2 by done.
      cbn [andb orb status]. unfold st. by rewrite reportedStatus_again. }
  cbn [fst snd]. fold at_. fold w'.
  set (r := Running w' at_ rest _).
  destruct (applyReply_entry l (Some st, at_) r)
    as (Hst & Hat & Hcn & Hsk' & _ & Hreg' & Hn & Hr & _).
  { subst r at_. simpl. lia. }
  cbn [pr_response pr_state]. subst r. cbn [fst snd r_world r_now r_rest r_out] in *.
  assert (truthy st = true) as Hst_t by apply js_or_lit_Unknown_truthy.
  assert (js_or_lit (js_or (Some st) (status (deref w' l))) "Unknown" = st) as Hst2.
  { unfold js_or. change (truthy (Some st)) with (truthy st). rewrite Hst_t.
    by apply js_or_lit_truthy. }
  assert (js_or_lit (Some at_) at_ = at_) as Hat2.
  { unfold js_or_lit. by destruct (truthy at_). }
  rewrite Hst2 in Hst. rewrite Hat2 in Hat. rewrite Hst, Hat, Hn, Hr.
  split_and!; try done.
  set (w2 := r_world (applyReply l (Some st, at_) _)) in *.
  assert (connRef w2 pcId = Some l) as Hl2 by (unfold connRef; by rewrite Hreg').
  rewrite (pcConn_ref _ _ _ Hl2).
  destruct (deref w2 l) as [cn so stat la] eqn:Hd2. cbn [connected socketId status
    lastStatusAt] in *.
  rewrite Hd' in Hcn, Hsk'. cbn [connected socketId] in Hcn, Hsk'. subst cn so.
  assert (stat = Some st ∧ la = Some at_) as [-> ->]; [|done].
  unfold w2, applyReply in Hd2. cbn [r_world r_now fst snd] in Hd2.
  rewrite !deref_update_eq in Hd2. rewrite Hst2, Hat2 in Hd2.
  cbn [with_lastStatusAt with_status status lastStatusAt connected socketId] in Hd2.
  by injection Hd2.
Qed.

Lemma probe_answered_by_status_report_witness :
  let run := api_pc_probe (Some 7) "tmp1" "tok" 5000
               [(40%nat, EvPcStatus "s1" (StatusData (Some "tmp1") (Some "Unlocked")) true)]
               Sample.w0 in
  pr_response run = Json (Probed "Unlocked" (Some 5040)) ∧ r_now (pr_state run) = 5040.
Proof.
  pose proof (probe_answered_by_status_report Sample.w0 7 "tmp1" "tok" 5000 [] []
                40 (StatusData (Some "tmp1") (Some "Unlocked")) true Sample.lab 0 "s1"
                (Socket (Some "tmp1") None)
                ltac:(lia) eq_refl eq_refl eq_refl eq_refl eq_refl ltac:(discriminate)
                eq_refl ltac:(lia) eq_refl ltac:(vm_compute; lia) eq_refl
                ltac:(discriminate) eq_refl) as H.
  cbv zeta in H. destruct H as (Hresp & Hnow & _).
  split; [exact Hresp | exact Hnow].
Defined.

Lemma sleep_onlyReplies ms now tl w out :
  onlyReplies tl = true →
  r_world (sleep ms now tl w out) = w ∧ r_out (sleep ms now tl w out) = out.
Proof.
  revert ms now out. induction tl as [|[d e] tl IH]; intros ms now out Hall;
    cbn [sleep]; [done|].
  cbn [onlyReplies forallb] in Hall. apply andb_true_iff in Hall as [He Hall].
  destruct (d <=? ms)%nat; [|done].
  destruct e as [s0 s|s0 rd|s0 sd ok|s0 p|s0]; try done. cbn [handle].
  rewrite app_nil_r. by apply IH.
Qed.

Lemma race_deaf ms sid pcId probeId l aS now tl w out :
  onlyReplies tl = true →
  race ms sid pcId probeId l false aS now tl w out = (None, sleep ms now tl w out).
Proof.
  revert ms now out. induction tl as [|[d e] tl IH]; intros ms now out Hall;
    cbn [race sleep]; [done|].
  cbn [onlyReplies forallb] in Hall. apply andb_true_iff in Hall as [He Hall].
  destruct (d <=? ms)%nat; [|done].
  destruct e as [s0 s|s0 rd|s0 sd ok|s0 p|s0]; try done. cbn [handle andb].
  by apply IH.
Qed.

(** X18. The reply listener of a probe is one-shot. Once the device's
    socket has sent a [status_reply] with another token, no later
    [status_reply] answers the probe, not even one with the right token:
    with replies only on the timeline and a registry entry older than the
    probe, the probe runs its full 3 s + 3 s, changes nothing, and answers
    with what the registry held when it started. *)
Theorem reply_listener_is_one_shot (w : world) (userId : Z) (pcId probeId : string)
    (now : Z) (rest : timeline) (d : nat) (p : reply_payload) (row : pc_row)
    (l : nat) (sid : string) (sk : socket) :
  userId ≠ 0 →
  selectPc pcId (pc_settings (db w)) = Some row → owner_id row = Some userId →
  connRef w pcId = Some l →
  connected (deref w l) = true → socketId (deref w l) = Some sid → sid ≠ "" →
  socketOf w sid = Some sk →
  (d ≤ replyTimeoutMs)%nat → rp_probeId p ≠ Some probeId →
  onlyReplies rest = true →
  js_or_lit (lastStatusAt (deref w l)) 0 < now →
  let run := api_pc_probe (Some userId) pcId probeId now
                          ((d, EvStatusReply sid p) :: rest) w in
  pr_response run =
    Json (Probed (js_or_lit (status (deref w l)) "Unknown")
                 (js_or (lastStatusAt (deref w l)) None)) ∧
  r_now (pr_state run) = now + 6000 ∧
  r_world (pr_state run) = w ∧
  r_out (pr_state run) = [Emit (ToSocket sid) (StatusRequest probeId)].
Proof.
  intros Hu Hrow Hown Hl Hconn Hsid Hsne Hsk Hd Hp Hrest Hold run. subst run.
  rewrite (api_pc_probe_live w userId pcId probeId now _ row l sid sk) by done.
  cbv zeta.
  assert (onlyReplies ((d, EvStatusReply sid p) :: rest) = true) as Hall
    by (cbn [onlyReplies forallb snd]; exact Hrest).
  assert (race replyTimeoutMs sid pcId probeId l true true now
               ((d, EvStatusReply sid p) :: rest) w
               [Emit (ToSocket sid) (StatusRequest probeId)] =
          (None, sleep replyTimeoutMs now ((d, EvStatusReply sid p) :: rest) w
                       [Emit (ToSocket sid) (StatusRequest probeId)])) as ->.
  { cbn [race sleep handle]. rewrite (proj2 (Nat.leb_le _ _)) by done.
    rewrite bool_decide_eq_true_2 by done. cbn [andb]. unfold replyHandler.
    rewrite bool_decide_eq_false_2 by done. by apply race_deaf. }
  cbn [fst snd].
  destruct poll_constants as (HF & HI & HT).
  pose proof (pollLoop_unanswered pollFuel 0 now l replyTimeoutMs now
                ((d, EvStatusReply sid p) :: rest) w
                [Emit (ToSocket sid) (StatusRequest probeId)]) as Hloop.
  replace (replyTimeoutMs + pollIntervalMs * 0)%nat with replyTimeoutMs in Hloop by lia.
  replace (Z.of_nat (pollIntervalMs * 0)) with 0 in Hloop by lia.
  rewrite Hloop; [|lia|].
  2:{ intros j Hj. unfold worldAfter.
      by rewrite (proj1 (sleep_onlyReplies _ _ _ _ _ Hall)). }
  cbn [pr_state pr_response].
  destruct (sleep_onlyReplies (replyTimeoutMs + Z.to_nat pollTimeoutMs) now _ w
              [Emit (ToSocket sid) (StatusRequest probeId)] Hall) as [-> ->].
  rewrite sleep_now. by split_and!.
Qed.

Lemma reply_listener_is_one_shot_witness :
  let run := api_pc_probe (Some 7) "tmp1" "tok" 5000
               [(10%nat, EvStatusReply "s1" (ReplyPayload (Some "old") (Some "Unlocked") None));
                (10%nat, EvStatusReply "s1" (ReplyPayload (Some "tok") (Some "Unlocked") None))]
               Sample.w0 in
  pr_response run = Json (Probed "Locked" (Some 950)) ∧ r_now (pr_state run) = 11000.
Proof.
  pose proof (reply_listener_is_one_shot Sample.w0 7 "tmp1" "tok" 5000
                [(10%nat, EvStatusReply "s1" (ReplyPayload (Some "tok") (Some "Unlocked") None))]
                10 (ReplyPayload (Some "old") (Some "Unlocked") None) Sample.lab 0 "s1"
                (Socket (Some "tmp1") None)
                ltac:(lia) eq_refl eq_refl eq_refl eq_refl eq_refl ltac:(discriminate)
                eq_refl ltac:(vm_compute; lia) ltac:(discriminate) eq_refl
                ltac:(by vm_compute)) as H.
  cbv zeta in H. destruct H as (Hresp & Hnow & _).
  split; [exact Hresp | exact Hnow].
Defined.

(** ** Probe: bounds and the rescan *)

(** X19. Whoever asks, whatever the state and whatever happens while it
    waits, a probe answers, and at most 8 s after the request: the 2 s of
    the rescan, the 3 s of the fast path and the 3 s of the polling. *)
Theorem probe_answers_within_eight_seconds (session : option Z) (pcId probeId : string)
    (now : Z) (tl : timeline) (w : world) :
  let run := api_pc_probe session pcId probeId now tl w in
  now ≤ r_now (pr_state run) ≤ now + Z.of_nat scanTimeoutMs + Z.of_nat replyTimeoutMs
                                + pollTimeoutMs.
Proof.
  intros run. subst run.
  pose proof (api_pc_probe_bounded session pcId probeId now tl w) as Hb.
  destruct scan_constants as (_ & _ & ->). destruct poll_constants as (_ & _ & ->).
  assert (Z.of_nat replyTimeoutMs = 3000) as -> by by vm_compute.
  lia.
Qed.

Lemma race_out_prefix ms sid pcId probeId l aR aS now tl w out :
  ∃ o, r_out (race ms sid pcId probeId l aR aS now tl w out).2 = out ++ o.
Proof.
  revert ms aR aS now w out.
  induction tl as [|[d e] tl IH]; intros ms aR aS now w out; cbn [race].
  - exists []. by rewrite app_nil_r.
  - destruct (d <=? ms)%nat; [|exists []; by rewrite app_nil_r].
    destruct (handle (now + Z.of_nat d) e w) as [w' o].
    assert (∀ aR' aS', ∃ o',
              r_out (race (ms - d) sid pcId probeId l aR' aS' (now + Z.of_nat d) tl w'
                          (out ++ o)).2 = out ++ o') as Hrec.
    { intros aR' aS'. destruct (IH (ms - d)%nat aR' aS' (now + Z.of_nat d) w' (out ++ o))
        as [o' Ho']. exists (o ++ o'). by rewrite Ho', app_assoc. }
    destruct e as [s0 s|s0 rd|s0 sd ok|s0 p|s0]; try apply Hrec.
    + destruct (aS && bool_decide (s0 = sid)); [|apply Hrec].
      destruct (pcStatusHandler _ _ _ _); [by exists o | apply Hrec].
    + destruct (aR && bool_decide (s0 = sid)); [|apply Hrec].
      destruct (replyHandler _ _ _); [by exists o | apply Hrec].
Qed.

Lemma pollLoop_out_prefix fuel elapsed start l r :
  ∃ o, r_out (pollLoop fuel elapsed start l r) = r_out r ++ o.
Proof.
  revert elapsed r. induction fuel as [|fuel IH]; intros elapsed r.
  - rewrite pollLoop_O. exists []. by rewrite app_nil_r.
  - rewrite pollLoop_S. destruct (elapsed <? pollTimeoutMs);
      [|exists []; by rewrite app_nil_r].
    destruct (start <=? _); [exists []; by rewrite app_nil_r|].
    destruct (IH (elapsed + Z.of_nat pollIntervalMs)
                 (sleep pollIntervalMs (r_now r) (r_rest r) (r_world r) (r_out r)))
      as [o Ho].
    rewrite Ho, sleep_out. cbn [r_out]. eexists. by rewrite <- app_assoc.
Qed.

Lemma socketTagged_socketOf (w : world) (pcId sid : string) :
  socketTagged w pcId = Some sid → is_Some (socketOf w sid).
Proof.
  unfold socketTagged, socketOf. intros Hfind.
  destruct (List.find (λ e : string * socket, bool_decide (sock_pcId e.2 = Some pcId))
                      (sockets w)) as [e|] eqn:He; [|done].
  injection Hfind as <-. apply List.find_some in He as [Hin _].
  destruct (List.find (λ e0 : string * socket, bool_decide (e0.1 = e.1)) (sockets w))
    as [e'|] eqn:He'; [by eexists|].
  pose proof (List.find_none _ _ He' e Hin) as Hno. simpl in Hno.
  by rewrite bool_decide_eq_true_2 in Hno.
Qed.

Lemma probeLive_response (pcId probeId : string) (l : nat) (r : running) :
  ∃ st la, pr_response (probeLive pcId probeId l r) = Json (Probed st la).
Proof.
  unfold probeLive. destruct (probeFastPath pcId probeId l r) as [replied r1].
  cbn [pr_response]. by eexists _, _.
Qed.

Lemma probeLive_out (pcId probeId : string) (l : nat) (r : running) (sid : string)
    (sk : socket) :
  socketId (deref (r_world r) l) = Some sid → socketOf (r_world r) sid = Some sk →
  ∃ o, r_out (pr_state (probeLive pcId probeId l r)) =
         r_out r ++ Emit (ToSocket sid) (StatusRequest probeId) :: o.
Proof.
  intros Hsid Hsk. unfold probeLive, probeFastPath. rewrite Hsid, Hsk.
  destruct (race_out_prefix replyTimeoutMs sid pcId probeId l true true (r_now r)
              (r_rest r) (r_world r)
              (r_out r ++ [Emit (ToSocket sid) (StatusRequest probeId)])) as [o1 Ho1].
  destruct (race replyTimeoutMs sid pcId probeId l true true (r_now r) (r_rest r)
                 (r_world r) (r_out r ++ [Emit (ToSocket sid) (StatusRequest probeId)]))
    as [[rep|] r'] eqn:Hrace; cbn [snd] in Ho1; cbn [pr_state].
  - exists o1. unfold applyReply. cbn [r_out]. rewrite Ho1.
    by rewrite <- app_assoc.
  - destruct (pollLoop_out_prefix pollFuel 0 (r_now r) l r') as [o2 Ho2].
    exists (o1 ++ o2). rewrite Ho2, Ho1. by rewrite <- !app_assoc.
Qed.

(** X20. The rescan of a probe adopts a socket that is tagged with the
    device: when the registry entry of an owned device has no socket id
    (or there is no entry) but some connected socket carries the pc id,
    the probe makes that socket the device's connection at once, without
    waiting, sends the status request to it, and answers as a probe of a
    live device (never with the stale or the 503 answer). *)
Theorem probe_adopts_tagged_socket (w : world) (userId : Z) (pcId probeId : string)
    (now : Z) (tl : timeline) (row : pc_row) (sid : string) :
  userId ≠ 0 →
  selectPc pcId (pc_settings (db w)) = Some row → owner_id row = Some userId →
  (∀ l, connRef w pcId = Some l → truthy (socketId (deref w l)) = false) →
  socketTagged w pcId = Some sid → sid ≠ "" →
  let run := api_pc_probe (Some userId) pcId probeId now tl w in
  (∃ st la, pr_response run = Json (Probed st la)) ∧
  (∃ o, r_out (pr_state run) = Emit (ToSocket sid) (StatusRequest probeId) :: o) ∧
  r_now (pr_state run) ≤ now + Z.of_nat replyTimeoutMs + pollTimeoutMs.
Proof.
  intros Hu Hrow Hown Hnosock Htag Hsne%truthy_string_nonempty run. subst run.
  rewrite (api_pc_probe_owned _ _ _ _ _ _ _ Hu Hrow Hown). cbv zeta.
  assert (conn_live (pcConn w pcId) = false) as ->.
  { unfold pcConn, conn_live. destruct (connRef w pcId) as [l|] eqn:Hl; [|done].
    cbn [fmap option_fmap option_map]. rewrite (Hnosock l eq_refl). apply andb_false_r. }
  destruct scan_constants as (HF & HI & HT). rewrite HF, scanLoop_S.
  cbn [r_now r_world r_rest r_out]. rewrite (proj2 (Z.ltb_lt _ _)) by lia.
  assert (scanOnce pcId w = Some (adoptSocket pcId sid w)) as ->.
  { unfold scanOnce. rewrite Htag. destruct (connRef w pcId) as [l|] eqn:Hl; [|done].
    by rewrite (Hnosock l eq_refl). }
  unfold adoptSocket.
  pose proof (ensureConn_sockets pcId w) as Hsocks.
  destruct (ensureConn pcId w) as [l w1]. cbn [fst snd] in Hsocks |- *.
  set (w' := update l _ (update l _ (update l _ w1))).
  assert (deref w' l =
          Conn true (Some sid) (Some (js_or_lit (status (deref w1 l)) "Unknown"))
               (lastStatusAt (deref w1 l))) as Hd.
  { subst w'. rewrite !deref_update_eq. done. }
  cbn [r_world]. unfold conn_live. rewrite Hd. cbn [connected socketId andb].
  change (truthy (Some sid)) with (truthy sid). rewrite Hsne.
  destruct (socketTagged_socketOf w pcId sid Htag) as [sk Hsk].
  assert (socketOf w' sid = Some sk) as Hsk'.
  { unfold socketOf in Hsk |- *. by replace (sockets w') with (sockets w). }
  set (r := Running w' now tl []).
  pose proof (probeLive_now pcId probeId l r) as Htime.
  destruct (probeLive_response pcId probeId l r) as (st & la & Hresp).
  destruct (probeLive_out pcId probeId l r sid sk) as [o Hout].
  { subst r. cbn [r_world]. by rewrite Hd. }
  { exact Hsk'. }
  split_and!.
  - by exists st, la.
  - exists o. rewrite Hout. by subst r.
  - replace (r_now r) with now in Htime by by subst r.
    destruct poll_constants as (_ & _ & ->).
    assert (Z.of_nat replyTimeoutMs = 3000) as -> by by vm_compute. lia.
Qed.

Lemma probe_adopts_tagged_socket_witness :
  let w := World [("tmp1", 0%nat)]
                 {[ 0%nat := Conn false None (Some "Locked") (Some 950) ]} 1
                 (Database [Sample.lab] [])
                 [("s3", Socket None None); ("s1", Socket (Some "tmp1") None)] in
  let run := api_pc_probe (Some 7) "tmp1" "tok" 5000 [] w in
  (∃ st la, pr_response run = Json (Probed st la)) ∧
  (∃ o, r_out (pr_state run) = Emit (ToSocket "s1") (StatusRequest "tok") :: o).
Proof.
  intros w.
  pose proof (probe_adopts_tagged_socket w 7 "tmp1" "tok" 5000 [] Sample.lab "s1"
                ltac:(lia) eq_refl eq_refl) as H.
  cbv zeta in H. destruct H as (Hresp & Hout & _).
  - intros l Hl. vm_compute in Hl. injection Hl as <-. by vm_compute.
  - reflexivity.
  - discriminate.
  - split; [exact Hresp | exact Hout].
Defined.

(** ** The snapshot sent to a dashboard *)

(** X21. The list sent to a dashboard socket when it identifies is the
    list [GET /api/pcs] returns for the socket's session, and the very list
    a broadcast sends to that owner's room; when the owner has no device the
    snapshot is empty and a broadcast sends that room nothing. A socket
    without a session is sent the empty list. *)
Theorem identify_snapshot_agrees (sid : string) (w : world) :
  match sessionOwner w sid with
  | Some u =>
      ∃ l, on_identify sid w = [Emit (ToSocket sid) (PcUpdate l)] ∧
           api_pcs (Some u) w = Json l ∧
           (∀ v, v ∈ l → v_ownerId v = Some u) ∧
           (l ≠ [] → Emit (ToDashboard u) (PcUpdate l) ∈ broadcastUpdate w) ∧
           (l = [] → ∀ m, Emit (ToDashboard u) m ∉ broadcastUpdate w)
  | None => on_identify sid w = [Emit (ToSocket sid) (PcUpdate [])]
  end.
Proof.
  unfold on_identify. destruct (sessionOwner w sid) as [u|] eqn:Hs; [|done].
  assert (truthy u = true) as Hu.
  { unfold sessionOwner in Hs. destruct (socketOf w sid) as [sk|]; [|done].
    destruct (truthy (sess_userId sk)) eqn:Ht; [|done]. by rewrite Hs in Ht. }
  exists (map (viewOf w) (selectByOwner u (pc_settings (db w)))). split_and!.
  - done.
  - unfold api_pcs, requireAuth. change (truthy (Some u)) with (truthy u). by rewrite Hu.
  - intros v (r & -> & [_ Hown]%elem_of_selectByOwner)%list_elem_of_fmap.
    unfold viewOf, mergedView. cbn [v_ownerId]. rewrite Hown. unfold js_or.
    change (truthy (Some u)) with (truthy u). by rewrite Hu.
  - intros Hne. apply elem_of_broadcastUpdate. exists u. split_and!; [done| |done].
    intros Hnil. apply Hne. by rewrite Hnil.
  - intros Hnil m (o & _ & Hrows & [= <- _])%elem_of_broadcastUpdate.
    apply Hrows. by destruct (selectByOwner u (pc_settings (db w))).
Qed.

(** ** The status writer *)

Module JsMapFacts.
Import JsMap.
Section facts.
Context {V : Type}.
Implicit Types (k : string) (v : V) (m : JsMap.t V).

Lemma map_get_set_eq k v m : get k (set k v m) = Some v.
Proof.
  unfold get, set. destruct (JsObject.get k m) as [x|] eqn:Hget.
  - apply JsObjectFacts.get_replace_eq. by rewrite Hget.
  - rewrite JsObjectFacts.get_app_None by done. simpl. by rewrite decide_True.
Qed.

Lemma map_get_set_ne k k' v m : k ≠ k' → get k' (set k v m) = get k' m.
Proof.
  intros Hne. unfold get, set. destruct (JsObject.get k m) as [x|] eqn:Hget.
  - by apply JsObjectFacts.get_replace_ne.
  - destruct (JsObject.get k' m) as [y|] eqn:Hk'.
    + by apply JsObjectFacts.get_app_Some.
    + rewrite JsObjectFacts.get_app_None by done. simpl. by rewrite decide_False.
Qed.

Lemma map_elem_of_set k v m e : e ∈ set k v m → e = (k, v) ∨ e ∈ m.
Proof.
  unfold set. destruct (JsObject.get k m); [apply JsObjectFacts.elem_of_replace|].
  intros [Hin| ->%list_elem_of_singleton]%elem_of_app; auto.
Qed.

Lemma map_NoDup_keys_set k v m : NoDup m.*1 → NoDup (set k v m).*1.
Proof.
  intros Hnd. unfold set. destruct (JsObject.get k m) eqn:Hget.
  - change (NoDup (JsObject.keys (JsObject.replace k v m))).
    by rewrite JsObjectFacts.keys_replace.
  - apply JsObjectFacts.get_None_not_key in Hget. rewrite fmap_app.
    apply NoDup_app. split_and!; [done| |apply NoDup_singleton].
    intros k0 Hk0 ->%list_elem_of_singleton. by apply Hget.
Qed.

Lemma get_values k v m : get k m = Some v → v ∈ values m.
Proof.
  intros Hget%JsObjectFacts.get_Some_elem_of. apply list_elem_of_fmap.
  by exists (k, v).
Qed.
End facts.
End JsMapFacts.

Module WorkerFacts.
Import Worker.

(** What the deduplication map holds after the entries [b]. *)
Lemma dedup_invariant (b : list item) :
  let m := foldl dedupStep [] b in
  NoDup m.*1 ∧
  Forall (λ e : string * item, e.1 = it_pcId e.2 ∧ e.2 ∈ b) m ∧
  (∀ k, (∀ i, i ∈ b → it_pcId i ≠ k) → JsMap.get k m = None) ∧
  (Forall (λ it, it_lastStatusAt it ≠ 0) b →
   ∀ i, i ∈ b → ∃ e, JsMap.get (it_pcId i) m = Some e ∧
                     it_lastStatusAt i ≤ it_lastStatusAt e).
Proof.
  induction b as [|it b IH] using rev_ind.
  - simpl. split_and!; [apply NoDup_nil_2 | done | done |].
    by intros _ i ?%elem_of_nil.
  - rewrite foldl_app. cbn [foldl]. cbv zeta in IH.
    set (m := foldl dedupStep [] b) in *.
    destruct IH as (Hnd & Hkeyed & Habsent & Hlatest).
    assert (Forall (λ e : string * item, e.1 = it_pcId e.2 ∧ e.2 ∈ b ++ [it]) m) as Hkeyed'.
    { eapply Forall_impl; [exact Hkeyed|]. intros e [? ?]. split; [done|].
      apply elem_of_app. by left. }
    assert (Forall (λ e : string * item, e.1 = it_pcId e.2 ∧ e.2 ∈ b ++ [it])
                   (JsMap.set (it_pcId it) it m)) as Hset.
    { apply Forall_forall. intros e [->|He]%JsMapFacts.map_elem_of_set.
      - split; [done|]. apply elem_of_app. right. by left.
      - by apply (proj1 (Forall_forall _ _) Hkeyed'). }
    split_and!.
    + unfold dedupStep. destruct (JsMap.get (it_pcId it) m);
        [destruct (_ && _)|]; by try apply JsMapFacts.map_NoDup_keys_set.
    + unfold dedupStep. destruct (JsMap.get (it_pcId it) m); [destruct (_ && _)|]; done.
    + intros k Hk.
      assert (JsMap.get k m = None) as Hm.
      { apply Habsent. intros i Hi. apply Hk, elem_of_app. by left. }
      assert (it_pcId it ≠ k) as Hne.
      { apply Hk, elem_of_app. right. by left. }
      unfold dedupStep. destruct (JsMap.get (it_pcId it) m); [destruct (_ && _)|];
        by rewrite ?JsMapFacts.map_get_set_ne.
    + intros [Hb Hit]%Forall_app. rewrite Forall_singleton in Hit.
      assert (∀ k e, JsMap.get k m = Some e →
                ∃ e', JsMap.get k (dedupStep m it) = Some e' ∧
                      it_lastStatusAt e ≤ it_lastStatusAt e') as Hmono.
      { intros k e He. unfold dedupStep.
        destruct (decide (it_pcId it = k)) as [<-|Hne].
        - rewrite He. destruct (truthy (it_lastStatusAt it)
                                && (it_lastStatusAt e <? it_lastStatusAt it)) eqn:Hc.
          + rewrite JsMapFacts.map_get_set_eq. eexists. split; [done|].
            apply andb_true_iff in Hc as [_ Hc%Z.ltb_lt]. lia.
          + exists e. split; [done | lia].
        - exists e. split; [|lia].
          destruct (JsMap.get (it_pcId it) m); [destruct (_ && _)|];
            by rewrite ?JsMapFacts.map_get_set_ne. }
      intros i [Hi| ->%list_elem_of_singleton]%elem_of_app.
      * destruct (Hlatest Hb i Hi) as (e & He & Hle).
        destruct (Hmono _ _ He) as (e' & He' & Hle'). exists e'. split; [done | lia].
      * unfold dedupStep. destruct (JsMap.get (it_pcId it) m) as [prev|] eqn:Hprev.
        -- rewrite (proj2 (truthy_Z_nonzero _) Hit). cbn [andb].
           destruct (it_lastStatusAt prev <? it_lastStatusAt it) eqn:Hc.
           ++ rewrite JsMapFacts.map_get_set_eq. by exists it.
           ++ exists prev. split; [done|]. apply Z.ltb_ge in Hc. lia.
        -- rewrite JsMapFacts.map_get_set_eq. by exists it.
Qed.

Lemma dedupEntries_keys (b : list item) :
  it_pcId <$> dedupEntries b = (foldl dedupStep [] b).*1.
Proof.
  destruct (dedup_invariant b) as (_ & Hkeyed & _). cbv zeta in Hkeyed.
  unfold dedupEntries, JsMap.values.
  induction (foldl dedupStep [] b) as [|e m IH]; [done|].
  apply Forall_cons in Hkeyed as [[He _] Hm]. cbn [fmap list_fmap].
  change (it_pcId e.2 :: (it_pcId <$> m.*2) = e.1 :: m.*1). rewrite He. f_equal. auto.
Qed.

Lemma dedupEntries_NoDup (b : list item) : NoDup (it_pcId <$> dedupEntries b).
Proof. rewrite dedupEntries_keys. by destruct (dedup_invariant b) as (? & _). Qed.

Lemma elem_of_dedupEntries (b : list item) (e : item) :
  e ∈ dedupEntries b ↔ JsMap.get (it_pcId e) (foldl dedupStep [] b) = Some e.
Proof.
  destruct (dedup_invariant b) as (Hnd & Hkeyed & _). cbv zeta in *. split.
  - intros ([k e0] & -> & Hin)%list_elem_of_fmap. cbn [snd].
    pose proof (proj1 (Forall_forall _ _) Hkeyed _ Hin) as [Hk _]. cbn [fst snd] in Hk.
    subst k. by apply JsObjectFacts.elem_of_NoDup_get.
  - apply JsMapFacts.get_values.
Qed.

Lemma find_dedupEntries (b : list item) (k : string) :
  List.find (λ e, bool_decide (it_pcId e = k)) (dedupEntries b) =
    JsMap.get k (foldl dedupStep [] b).
Proof.
  destruct (dedup_invariant b) as (_ & Hkeyed & _). cbv zeta in Hkeyed.
  unfold dedupEntries, JsMap.values, JsMap.get.
  induction (foldl dedupStep [] b) as [|[k0 e] m IH]; [done|].
  apply Forall_cons in Hkeyed as [[He _] Hm]. cbn [fst snd] in He. subst k0.
  cbn [fmap list_fmap List.find JsObject.get snd].
  destruct (decide (it_pcId e = k)) as [->|Hne].
  - by rewrite bool_decide_eq_true_2.
  - rewrite bool_decide_eq_false_2 by done. auto.
Qed.

(** A list that already has one entry per pc id is left as it is. *)
Lemma foldl_dedupStep_distinct (l : list item) (m : JsMap.t item) :
  NoDup (it_pcId <$> l) → (∀ i, i ∈ l → JsMap.get (it_pcId i) m = None) →
  foldl dedupStep m l = m ++ ((λ i, (it_pcId i, i)) <$> l).
Proof.
  revert m. induction l as [|i l IH]; intros m Hnd Hfresh.
  - by rewrite app_nil_r.
  - cbn [foldl fmap list_fmap]. apply NoDup_cons in Hnd as [Hi Hnd].
    assert (dedupStep m i = m ++ [(it_pcId i, i)]) as ->.
    { unfold dedupStep. rewrite (Hfresh i) by left. unfold JsMap.set.
      unfold JsMap.get in Hfresh. by rewrite (Hfresh i) by left. }
    rewrite IH; [by rewrite <- app_assoc | done |].
    intros j Hj. unfold JsMap.get. rewrite JsObjectFacts.get_app_None.
    + simpl. rewrite decide_False; [done|]. intros Heq. apply Hi. rewrite Heq.
      apply list_elem_of_fmap. by exists j.
    + apply Hfresh. by right.
Qed.

Lemma dedupEntries_idemp (b : list item) : dedupEntries (dedupEntries b) = dedupEntries b.
Proof.
  unfold dedupEntries at 1.
  rewrite foldl_dedupStep_distinct; [|apply dedupEntries_NoDup|done].
  unfold JsMap.values. cbn [app]. rewrite <- list_fmap_compose.
  by rewrite list_fmap_id.
Qed.

Lemma dedupEntries_nonempty (b : list item) : b ≠ [] → dedupEntries b ≠ [].
Proof.
  destruct b as [|i b _] using rev_ind; [done|]. intros _.
  unfold dedupEntries. rewrite foldl_app. cbn [foldl].
  set (m := foldl dedupStep [] b).
  assert (is_Some (JsMap.get (it_pcId i) (dedupStep m i))) as [e He].
  { unfold dedupStep. destruct (JsMap.get (it_pcId i) m) eqn:Hm;
      [destruct (_ && _)|]; rewrite ?JsMapFacts.map_get_set_eq, ?Hm; eauto. }
  apply JsMapFacts.get_values in He. intros Hnil. rewrite Hnil in He.
  by apply elem_of_nil in He.
Qed.

Lemma selectPc_upsertStatus (k : string) (t : list pc_row) (it : item) :
  selectPc k (upsertStatus t it) =
    if decide (k = it_pcId it)
    then Some (PcRow k (selectPc k t ≫= name) (selectPc k t ≫= last_seen)
                     (selectPc k t ≫= owner_id) (selectPc k t ≫= ip)
                     (Some (it_status it)) (Some (it_lastStatusAt it)))
    else selectPc k t.
Proof.
  unfold upsertStatus. destruct (selectPc (it_pcId it) t) as [a|] eqn:Ha.
  - rewrite selectPc_updateStatus. destruct (decide (k = it_pcId it)) as [->|Hne].
    + rewrite Ha. simpl. apply selectPc_Some in Ha as [_ Hpc]. rewrite decide_True by done.
      by rewrite Hpc.
    + destruct (selectPc k t) as [r|] eqn:Hr; [|done]. simpl.
      apply selectPc_Some in Hr as [_ Hpc]. rewrite decide_False; [done | congruence].
  - rewrite selectPc_app. destruct (decide (k = it_pcId it)) as [->|Hne].
    + rewrite Ha. unfold selectPc. simpl. by rewrite bool_decide_eq_true_2.
    + destruct (selectPc k t); [done|]. unfold selectPc. simpl.
      by rewrite bool_decide_eq_false_2.
Qed.

Lemma upsertStatus_keys (t : list pc_row) (it : item) :
  NoDup (pc_id <$> t) → NoDup (pc_id <$> upsertStatus t it).
Proof.
  intros Hnd. unfold upsertStatus, updateStatus.
  apply (upsert_keys (it_pcId it)); [|done..]. intros r. by destruct (decide _).
Qed.

Lemma bulkUpsert_keys (entries : list item) (t : list pc_row) :
  NoDup (pc_id <$> t) → NoDup (pc_id <$> bulkUpsert entries t).
Proof.
  unfold bulkUpsert. revert t. induction entries as [|e es IH]; intros t Hnd; [done|].
  cbn [foldl]. by apply IH, upsertStatus_keys.
Qed.

Lemma selectPc_bulkUpsert (k : string) (entries : list item) (t : list pc_row) :
  NoDup (it_pcId <$> entries) →
  selectPc k (bulkUpsert entries t) =
    match List.find (λ e, bool_decide (it_pcId e = k)) entries with
    | Some e =>
        Some (PcRow k (selectPc k t ≫= name) (selectPc k t ≫= last_seen)
                    (selectPc k t ≫= owner_id) (selectPc k t ≫= ip)
                    (Some (it_status e)) (Some (it_lastStatusAt e)))
    | None => selectPc k t
    end.
Proof.
  unfold bulkUpsert. revert t. induction entries as [|e es IH]; intros t Hnd; [done|].
  cbn [foldl List.find]. apply NoDup_cons in Hnd as [He Hnd]. rewrite IH by done.
  rewrite selectPc_upsertStatus. destruct (decide (k = it_pcId e)) as [->|Hne].
  - rewrite bool_decide_eq_true_2 by done.
    assert (List.find (λ e0, bool_decide (it_pcId e0 = it_pcId e)) es = None) as ->; [|done].
    destruct (List.find _ es) as [e'|] eqn:Hfind; [|done].
    apply List.find_some in Hfind as [Hin Heq%bool_decide_eq_true].
    destruct He. rewrite <- Heq. apply list_elem_of_fmap. exists e'.
    split; [done | by apply list_elem_of_In].
  - by rewrite bool_decide_eq_false_2 by done.
Qed.

End WorkerFacts.

Section worker.
Import Worker WorkerFacts.

(** X22. A successful flush of the worker writes, for every device in the
    buffer, the status of the buffered entry with the most recent
    [lastStatusAt] (no buffered entry of the device is more recent) and that
    timestamp, creating a row with no name and no owner when the device has
    none; the other columns of an existing row and all rows of devices not
    in the buffer stay as they are, [pc_id] stays a key, and the buffer is
    left with what arrived during the write. *)
Theorem flush_writes_latest_status_per_device (arrived : list item) (s : state) :
  Forall (λ it, it_lastStatusAt it ≠ 0) (buffer s) →
  NoDup (pc_id <$> table s) →
  let s' := flushBuffer true true arrived s in
  (buffer s ≠ [] → buffer s' = arrived) ∧
  NoDup (pc_id <$> table s') ∧
  (∀ k, (∀ i, i ∈ buffer s → it_pcId i ≠ k) → selectPc k (table s') = selectPc k (table s)) ∧
  ∀ i, i ∈ buffer s →
       ∃ e, e ∈ buffer s ∧ it_pcId e = it_pcId i ∧
            (∀ j, j ∈ buffer s → it_pcId j = it_pcId i →
                  it_lastStatusAt j ≤ it_lastStatusAt e) ∧
            selectPc (it_pcId i) (table s') =
              Some (PcRow (it_pcId i)
                          (selectPc (it_pcId i) (table s) ≫= name)
                          (selectPc (it_pcId i) (table s) ≫= last_seen)
                          (selectPc (it_pcId i) (table s) ≫= owner_id)
                          (selectPc (it_pcId i) (table s) ≫= ip)
                          (Some (it_status e)) (Some (it_lastStatusAt e))).
Proof.
  intros Hts Hnd s'. subst s'. unfold flushBuffer.
  destruct (buffer s) as [|i0 b0] eqn:Hbuf.
  { split_and!; try done. by intros i ?%elem_of_nil. }
  rewrite <- Hbuf in *. clear Hbuf i0 b0. cbn [negb buffer table].
  destruct (dedup_invariant (buffer s)) as (_ & Hkeyed & Habsent & Hlatest).
  cbv zeta in *. specialize (Hlatest Hts). split_and!.
  - done.
  - by apply bulkUpsert_keys.
  - intros k Hk. rewrite selectPc_bulkUpsert by apply dedupEntries_NoDup.
    by rewrite find_dedupEntries, (Habsent k Hk).
  - intros i Hi. destruct (Hlatest i Hi) as (e & He & Hle). exists e.
    assert ((it_pcId i, e) ∈ foldl dedupStep [] (buffer s)) as Hin
      by by apply JsObjectFacts.get_Some_elem_of.
    pose proof (proj1 (Forall_forall _ _) Hkeyed _ Hin) as [Hk Hb]. cbn [fst snd] in Hk, Hb.
    split_and!; [done | done | |].
    + intros j Hj Hji. destruct (Hlatest j Hj) as (e' & He' & Hle').
      rewrite Hji, He in He'. by injection He' as <-.
    + rewrite selectPc_bulkUpsert by apply dedupEntries_NoDup.
      by rewrite find_dedupEntries, He.
Qed.

Lemma flush_writes_latest_status_per_device_witness :
  let s := State [Item "tmp1" "Locked" 2000; Item "tmp7" "Unlocked" 2100;
                  Item "tmp1" "Unlocked" 1500]
                 [Sample.lab; Sample.den] in
  let s' := flushBuffer true true [] s in
  buffer s' = [] ∧
  selectPc "tmp1" (table s') =
    Some (PcRow "tmp1" (Some "Lab-PC") (Some 1000) (Some 7) None (Some "Locked") (Some 2000)) ∧
  selectPc "tmp7" (table s') =
    Some (PcRow "tmp7" None None None None (Some "Unlocked") (Some 2100)) ∧
  NoDup (pc_id <$> table s').
Proof.
  intros s.
  pose proof (flush_writes_latest_status_per_device [] s
                ltac:(by repeat constructor)
                ltac:(by apply (bool_decide_unpack _); vm_compute)) as H.
  cbv zeta in H. destruct H as (Hbuf & Hnd & _ & _).
  split_and!; [by apply Hbuf | by vm_compute | by vm_compute | exact Hnd].
Defined.

(** X23. A flush whose write fails loses nothing that matters: the table is
    untouched and the buffer is left with entries it already held, one per
    device; flushing again with a write that succeeds leaves the worker
    exactly as a first successful flush would have. A flush without a
    database pool changes nothing at all. *)
Theorem failed_flush_then_retry (s : state) (ok : bool) :
  let failed := flushBuffer true false [] s in
  table failed = table s ∧
  (buffer s ≠ [] → NoDup (it_pcId <$> buffer failed)) ∧
  (∀ e, e ∈ buffer failed → e ∈ buffer s) ∧
  flushBuffer true true [] failed = flushBuffer true true [] s ∧
  flushBuffer false ok [] s = s.
Proof.
  intros failed. subst failed. unfold flushBuffer.
  destruct s as [b t]. cbn [buffer table negb].
  destruct b as [|i0 b0] eqn:Hb; [by split_and!|].
  rewrite <- Hb. assert (b ≠ []) as Hne by by rewrite Hb. clear Hb i0 b0.
  rewrite !app_nil_r. cbn [buffer table].
  pose proof (dedupEntries_nonempty b Hne) as Hd.
  split_and!.
  - done.
  - intros _. apply dedupEntries_NoDup.
  - intros e He%elem_of_dedupEntries.
    destruct (dedup_invariant b) as (_ & Hkeyed & _). cbv zeta in Hkeyed.
    apply JsObjectFacts.get_Some_elem_of in He.
    by pose proof (proj1 (Forall_forall _ _) Hkeyed _ He) as [_ ?].
  - destruct (dedupEntries b) as [|e es] eqn:He; [done|]. rewrite <- He.
    rewrite dedupEntries_idemp. by destruct b.
  - by destruct b.
Qed.

Lemma flushBuffer_wellformed (pool_ready write_ok : bool) (arrived : list item)
    (s : state) :
  wellformed (buffer s) → wellformed arrived →
  wellformed (buffer (flushBuffer pool_ready write_ok arrived s)).
Proof.
  intros Hwf Ha. unfold flushBuffer. destruct s as [b t]. cbn [buffer table] in *.
  destruct b as [|i0 b0]; [done|].
  destruct pool_ready; cbn [negb buffer]; [|by rewrite app_nil_r].
  destruct write_ok; cbn [buffer]; [done|].
  apply Forall_app. split; [|done].
  apply Forall_forall. intros e He%elem_of_dedupEntries.
  destruct (dedup_invariant (i0 :: b0)) as (_ & Hkeyed & _).
  cbv zeta in Hkeyed. apply JsObjectFacts.get_Some_elem_of in He.
  pose proof (proj1 (Forall_forall _ _) Hkeyed _ He) as [_ Hin]. cbn [snd] in Hin.
  by apply (proj1 (Forall_forall _ _) Hwf).
Qed.

(** X24. Messages only ever put well-formed entries in the buffer: with a
    clock that is not at zero, every entry the handler buffers names a
    device, has a status and has a timestamp, so the precondition of the
    flush holds for every buffer built from messages; a message without a
    pc id or without a status changes nothing. *)
Theorem messages_keep_buffer_wellformed (maxBatch : nat) (p : payload) (now : Z)
    (pool_ready write_ok : bool) (s : state) :
  now ≠ 0 → wellformed (buffer s) →
  wellformed (buffer (on_message maxBatch p now pool_ready write_ok s)) ∧
  (truthy (js_or (p_pcId p) (p_id p)) && truthy (js_or (p_status p) (p_s p)) = false →
   on_message maxBatch p now pool_ready write_ok s = s).
Proof.
  intros Hnow Hwf. unfold on_message.
  destruct (js_or (p_pcId p) (p_id p)) as [pcId|] eqn:Hid;
    [|split; [done | by destruct (js_or (p_status p) (p_s p))]].
  destruct (js_or (p_status p) (p_s p)) as [st|] eqn:Hst; [|split; done].
  change (truthy (Some pcId)) with (truthy pcId).
  change (truthy (Some st)) with (truthy st).
  destruct (truthy pcId && truthy st) eqn:Hboth; [|done].
  split; [|done]. apply andb_true_iff in Hboth as [Hp%truthy_string_nonempty
                                                   Hs%truthy_string_nonempty].
  set (ts := js_or_lit (js_or (p_lastStatusAt p) (p_ts p)) now).
  assert (ts ≠ 0) as Hts.
  { subst ts. unfold js_or_lit.
    destruct (js_or (p_lastStatusAt p) (p_ts p)) as [z|]; [|done].
    destruct (truthy z) eqn:Hz; [by apply truthy_Z_nonzero | done]. }
  assert (wellformed (buffer s ++ [Item pcId st ts])) as Hwf'.
  { apply Forall_app. split; [done|]. by apply Forall_singleton. }
  destruct (maxBatch <=? _)%nat; [|done].
  apply flushBuffer_wellformed; [done | apply Forall_nil]. done.
Qed.

Lemma messages_keep_buffer_wellformed_witness :
  buffer (on_message 500 (Payload None (Some "tmp1") None (Some "Locked") None None) 7000
                     true true (State [] [])) = [Item "tmp1" "Locked" 7000] ∧
  wellformed (buffer (on_message 500 (Payload None (Some "tmp1") None (Some "Locked") None None)
                                 7000 true true (State [] []))).
Proof.
  split; [by vm_compute|].
  apply (messages_keep_buffer_wellformed 500
           (Payload None (Some "tmp1") None (Some "Locked") None None) 7000 true true
           (State [] [])); [lia | by apply Forall_nil].
Defined.
End worker.

(** ** The status writer with retries *)

Module RetryWorkerFacts.
Import RetryWorker.

Lemma dedupStep_pushed (st : JsMap.t entry * list nat) (it : entry) :
  en_payload it = None → dedupStep st it = st.
Proof. intros Hp. unfold dedupStep, keyOf. by rewrite Hp. Qed.

Lemma foldl_dedupStep_pushed (b : list entry) (st : JsMap.t entry * list nat) :
  pushedByHandler b → foldl dedupStep st b = st.
Proof.
  induction b as [|it b IH]; [done|]. intros [[Hp _] Hb]%Forall_cons.
  cbn [foldl]. rewrite dedupStep_pushed by done. auto.
Qed.

(** With a pool, a flush of entries pushed by the handler empties the
    buffer and does nothing else. *)
Lemma flushBuffer_pushed (ok : nat → bool) (dlq : bool) (now : Z)
    (arrived : list entry) (s : state) :
  pushedByHandler (buffer s) →
  flushBuffer true ok dlq now arrived s =
    State [] (table s) (acked s) (nacked s) (published s) (attempts s) (waited s).
Proof.
  intros Hb. unfold flushBuffer. destruct s as [b t a n pu at_ wa].
  cbn [buffer table acked nacked published attempts waited negb] in *.
  destruct b as [|it b]; [done|]. by rewrite foldl_dedupStep_pushed.
Qed.

Lemma flushBuffer_no_pool (ok : nat → bool) (dlq : bool) (now : Z)
    (arrived : list entry) (s : state) :
  flushBuffer false ok dlq now arrived s = s.
Proof.
  unfold flushBuffer. destruct s as [b t a n pu at_ wa].
  cbn [buffer table acked nacked published attempts waited negb].
  destruct b as [|it b]; [done|]. by rewrite app_nil_r.
Qed.

Lemma on_message_pushed (maxBatch m : nat) (p : Worker.payload) (now : Z)
    (pool_ready : bool) (ok : nat → bool) (dlq : bool) (s : state) :
  pushedByHandler (buffer s) →
  let s' := on_message maxBatch m p now pool_ready ok dlq s in
  pushedByHandler (buffer s') ∧ table s' = table s ∧ acked s' = acked s ++ [m] ∧
  nacked s' = nacked s ∧ published s' = published s ∧ attempts s' = attempts s ∧
  waited s' = waited s.
Proof.
  intros Hb s'. subst s'. unfold on_message.
  destruct (js_or (Worker.p_pcId p) (Worker.p_id p)) as [pcId|]; [|done].
  destruct (js_or (Worker.p_status p) (Worker.p_s p)) as [st|]; [|done].
  destruct (truthy pcId && truthy st); [|done].
  set (s1 := State (buffer s ++ _) _ _ _ _ _ _).
  assert (pushedByHandler (buffer s1)) as Hb1.
  { subst s1. cbn [buffer]. apply Forall_app. split; [done|]. by apply Forall_singleton. }
  destruct (maxBatch <=? _)%nat; [|done].
  destruct pool_ready.
  - rewrite flushBuffer_pushed by done. subst s1.
    cbn [buffer table acked nacked published attempts waited].
    split_and!; try done. apply Forall_nil_2.
  - by rewrite flushBuffer_no_pool.
Qed.

Lemma receive_pushed (maxBatch : nat) (pool_ready : bool) (ok : nat → bool) (dlq : bool)
    (ds : list delivery) (s : state) :
  pushedByHandler (buffer s) →
  let s' := receive maxBatch pool_ready ok dlq ds s in
  pushedByHandler (buffer s') ∧ table s' = table s ∧ acked s' = acked s ++ ds.*1.*1 ∧
  nacked s' = nacked s ∧ published s' = published s ∧ attempts s' = attempts s ∧
  waited s' = waited s.
Proof.
  unfold receive. revert s. induction ds as [|d ds IH]; intros s Hb.
  - cbn. by rewrite app_nil_r.
  - cbn [foldl].
    destruct (on_message_pushed maxBatch d.1.1 d.1.2 d.2 pool_ready ok dlq s Hb)
      as (Hb1 & Ht & Ha & Hn & Hp & Hat & Hw).
    destruct (IH _ Hb1) as (Hb2 & Ht2 & Ha2 & Hn2 & Hp2 & Hat2 & Hw2).
    cbv zeta. rewrite Ht2, Ha2, Hn2, Hp2, Hat2, Hw2, Ht, Ha, Hn, Hp, Hat, Hw.
    split_and!; try done. rewrite <- app_assoc. done.
Qed.

Lemma writeLoop_spec (fuel attempt : nat) (ok : nat → bool) (slept : nat) :
  (attempt ≤ MAX_RETRY)%nat → (S MAX_RETRY ≤ fuel + attempt)%nat →
  let r := writeLoop fuel attempt ok slept in
  (attempt < r.1.2 ≤ S MAX_RETRY)%nat ∧
  (r.2 + BACKOFF_BASE_MS * 2 ^ attempt
   = slept + BACKOFF_BASE_MS * 2 ^ (r.1.2 - 1))%nat ∧
  (r.1.1 = true → ok (r.1.2 - 1)%nat = true) ∧
  (r.1.1 = false → r.1.2 = S MAX_RETRY) ∧
  (∀ n, (attempt ≤ n < r.1.2 - 1)%nat → ok n = false) ∧
  (r.1.1 = false → ok (r.1.2 - 1)%nat = false).
Proof.
  revert attempt slept. induction fuel as [|fuel IH]; intros attempt slept Ha Hf.
  { unfold MAX_RETRY in *. lia. }
  cbn [writeLoop]. rewrite (proj2 (Nat.leb_le _ _)) by done.
  destruct (ok attempt) eqn:Hok.
  - cbn [fst snd]. replace (S attempt - 1)%nat with attempt by lia.
    split_and!; solve [done | lia | intros; lia].
  - destruct (MAX_RETRY <? S attempt)%nat eqn:Hmax.
    + apply Nat.ltb_lt in Hmax. cbn [fst snd].
      replace (S attempt - 1)%nat with attempt by lia.
      split_and!; solve [done | lia | intros; lia].
    + apply Nat.ltb_ge in Hmax.
      destruct (IH (S attempt)
                   (slept + BACKOFF_BASE_MS * 2 ^ (S attempt - 1))%nat)
        as (H1 & H2 & H3 & H4 & H5 & H6); [lia | lia |].
      cbv zeta in *.
      replace (S attempt - 1)%nat with attempt in H2 by lia.
      rewrite Nat.pow_succ_r' in H2.
      assert (∀ n, (attempt ≤ n < (writeLoop fuel (S attempt) ok
                                     (slept + BACKOFF_BASE_MS * 2 ^ (S attempt - 1))).1.2 - 1)%nat
                   → ok n = false) as H5'.
      { intros n Hn. destruct (decide (n = attempt)) as [->|Hne]; [done|].
        apply H5. lia. }
      replace (S attempt - 1)%nat with attempt in * by lia.
      split_and!; solve [done | lia].
Qed.
End RetryWorkerFacts.

Section retry_worker.
Import RetryWorker RetryWorkerFacts.

(** X25. The later worker throws away every status it receives. The
    message handler acknowledges each message and buffers an entry without
    a [payload] field, while the flush reads the pc id from [item.payload]
    and skips an entry that has none: after any run of messages, a flush
    with a database pool empties the buffer without attempting a single
    write, and the table is as it was; every message has been acknowledged,
    none refused or sent to the dead-letter topic, so none is redelivered. *)
Theorem retry_worker_discards_every_status (maxBatch : nat) (pool_ready : bool)
    (ok : nat → bool) (dlq : bool) (now : Z) (ds : list delivery) (s : state) :
  pushedByHandler (buffer s) →
  let s' := flushBuffer true ok dlq now [] (receive maxBatch pool_ready ok dlq ds s) in
  buffer s' = [] ∧ table s' = table s ∧ attempts s' = attempts s ∧
  acked s' = acked s ++ ds.*1.*1 ∧ nacked s' = nacked s ∧ published s' = published s.
Proof.
  intros Hb s'. subst s'.
  destruct (receive_pushed maxBatch pool_ready ok dlq ds s Hb)
    as (Hb1 & Ht & Ha & Hn & Hp & Hat & _).
  rewrite flushBuffer_pushed by done. cbn [buffer table acked nacked published attempts].
  by rewrite Ht, Ha, Hn, Hp, Hat.
Qed.

Lemma retry_worker_discards_every_status_witness :
  let ds := [(1%nat, Worker.Payload (Some "tmp1") None (Some "Locked") None (Some 2000) None,
              2500);
             (2%nat, Worker.Payload None (Some "tmp7") None (Some "Unlocked") None None,
              2600)] in
  let s := State [] [Sample.lab] [] [] [] 0 0 in
  buffer (receive 100 true (λ _, true) false ds s) =
    [Entry "tmp1" "Locked" 2000 None None; Entry "tmp7" "Unlocked" 2600 None None] ∧
  let s' := flushBuffer true (λ _, true) false 3000 []
                        (receive 100 true (λ _, true) false ds s) in
  buffer s' = [] ∧ table s' = [Sample.lab] ∧ attempts s' = 0%nat ∧ acked s' = [1%nat; 2%nat].
Proof.
  intros ds s. split; [by vm_compute|].
  pose proof (retry_worker_discards_every_status 100 true (λ _, true) false 3000 ds s
                ltac:(apply Forall_nil_2)) as H.
  cbv zeta in H. destruct H as (Hb & Ht & Hat & Ha & _).
  cbv zeta. split_and!; [exact Hb | exact Ht | exact Hat | exact Ha].
Defined.

(** X26. A flush of the later worker never writes more than
    [MAX_RETRY + 1] = 5 times and never sleeps more than
    200 + 400 + 800 + 1600 ms between its attempts, whatever the buffer and
    whichever writes fail; it changes the table only when one of its writes
    succeeded. *)
Theorem retry_worker_flush_is_bounded (pool_ready : bool) (ok : nat → bool) (dlq : bool)
    (now : Z) (arrived : list entry) (s : state) :
  let s' := flushBuffer pool_ready ok dlq now arrived s in
  (attempts s ≤ attempts s' ≤ attempts s + S MAX_RETRY)%nat ∧
  (waited s ≤ waited s' ≤ waited s + BACKOFF_BASE_MS * (2 ^ MAX_RETRY - 1))%nat ∧
  ((∀ n, (n ≤ MAX_RETRY)%nat → ok n = false) → table s' = table s).
Proof.
  intros s'. subst s'. unfold flushBuffer.
  destruct s as [b t a n pu at_ wa].
  cbn [buffer table acked nacked published attempts waited].
  destruct b as [|it b]; [cbn; split_and!; try done; lia|].
  destruct pool_ready; cbn [negb]; [|cbn; split_and!; try done; lia].
  destruct (foldl dedupStep ([], a) (it :: b)) as [dedup acks].
  destruct (JsMap.values dedup) as [|e es]; [cbn; split_and!; try done; lia|].
  destruct (writeLoop_spec (S MAX_RETRY) 0 ok 0) as (H1 & H2 & H3 & H4 & H5 & H6);
    [lia | lia |].
  cbv zeta in *.
  destruct (writeLoop (S MAX_RETRY) 0 ok 0) as [[written tries] slept].
  cbn [fst snd] in *.
  assert (slept ≤ BACKOFF_BASE_MS * (2 ^ MAX_RETRY - 1))%nat as Hslept.
  { assert (2 ^ (tries - 1) ≤ 2 ^ MAX_RETRY)%nat
      by (apply Nat.pow_le_mono_r; lia).
    assert (1 ≤ 2 ^ (tries - 1))%nat by (apply Nat.neq_0_lt_0, Nat.pow_nonzero; lia).
    rewrite Nat.pow_0_r in H2. nia. }
  destruct written; [|destruct dlq];
    cbn [table attempts waited]; split_and!; try done; try lia.
  intros Hfail. specialize (H3 eq_refl). rewrite Hfail in H3; [done | lia].
Qed.
End retry_worker.

(** ** A client that does not say it is a desktop client *)

Lemma handle_plainClientEvent (sid : string) (now : Z) (e : event) (w : world) :
  truthy (resolveBySocket w sid) = false → plainClientEvent sid e = true →
  handle now e w = (w, []).
Proof.
  intros Hres He. destruct e as [s0 s|s0 rd|s0 sd ok|s0 p|s0]; cbn [plainClientEvent] in He;
    try done; cbn [handle].
  - apply andb_true_iff in He as [_ Hct%negb_true_iff%bool_decide_eq_false].
    unfold on_register_pc. by rewrite decide_False.
  - apply andb_true_iff in He as [->%bool_decide_eq_true Hid%negb_true_iff].
    unfold on_pc_status, incomingId. rewrite Hid.
    destruct (resolveBySocket w sid) as [id|]; [|done].
    change (truthy (Some id)) with (truthy id) in Hres. by rewrite Hres.
Qed.

(** X27. A client that registers without [clientType: 'pc_app'] and
    reports its status without an [id], as the test client does, is
    invisible to the server: as long as its socket has not been associated
    with a pc id, whatever it sends changes neither the registry nor the
    store and reaches no dashboard. *)
Theorem plain_client_is_invisible (sid : string) (ms : nat) (now : Z) (tl : timeline)
    (w : world) (out : list emit) :
  truthy (resolveBySocket w sid) = false →
  forallb (λ de : nat * event, plainClientEvent sid de.2) tl = true →
  r_world (sleep ms now tl w out) = w ∧ r_out (sleep ms now tl w out) = out.
Proof.
  intros Hres. revert ms now out.
  induction tl as [|[d e] tl IH]; intros ms now out Hall; cbn [sleep]; [done|].
  cbn [forallb snd] in Hall. apply andb_true_iff in Hall as [He Hall].
  destruct (d <=? ms)%nat; [|done].
  rewrite (handle_plainClientEvent sid _ _ _ Hres He), app_nil_r. by apply IH.
Qed.

Lemma plain_client_is_invisible_witness :
  let tl := [(0%nat, EvRegisterPc "s1" (RegisterData "pc-test-1" (Some "Test PC pc-test-1")
                                                     None None));
             (0%nat, EvPcStatus "s1" (StatusData None (Some "Unlocked")) true)] in
  r_world (sleep 1000 0 tl Sample.fresh []) = Sample.fresh ∧
  r_out (sleep 1000 0 tl Sample.fresh []) = [].
Proof.
  intros tl.
  apply (plain_client_is_invisible "s1" 1000 0 tl Sample.fresh []); reflexivity.
Defined.

(** ** Probe: the polling fallback *)

(** The polling loop stops at the first poll that finds a [lastStatusAt]
    not older than the start of the probe. *)
Lemma pollLoop_stops fuel i k start l base now tl w out :
  (i + fuel = pollFuel)%nat → (i ≤ k < pollFuel)%nat →
  (∀ j, (i ≤ j < k)%nat →
        js_or_lit (lastStatusAt (deref (worldAfter (base + pollIntervalMs * j) now tl w) l)) 0
          < start) →
  start ≤ js_or_lit (lastStatusAt
                       (deref (worldAfter (base + pollIntervalMs * k) now tl w) l)) 0 →
  pollLoop fuel (Z.of_nat (pollIntervalMs * i)) start l
           (sleep (base + pollIntervalMs * i) now tl w out) =
    sleep (base + pollIntervalMs * k) now tl w out.
Proof.
  destruct poll_constants as (HF & HI & HT).
  revert i. induction fuel as [|fuel IH]; intros i Hi Hk Hbefore Hat; [lia|].
  rewrite pollLoop_S, sleep_add. rewrite (proj2 (Z.ltb_lt _ _)) by lia.
  rewrite sleep_world.
  destruct (decide (i = k)) as [->|Hne].
  - by rewrite (proj2 (Z.leb_le _ _)) by done.
  - rewrite (proj2 (Z.leb_gt _ _)) by (apply Hbefore; lia).
    replace (base + pollIntervalMs * i + pollIntervalMs)%nat
      with (base + pollIntervalMs * S i)%nat by lia.
    replace (Z.of_nat (pollIntervalMs * i) + Z.of_nat pollIntervalMs)
      with (Z.of_nat (pollIntervalMs * S i)) by lia.
    apply IH; [lia | lia | | done]. intros j Hj. apply Hbefore. lia.
Qed.

(** X28. When nothing answers the fast path of a probe, the polling
    fallback ends at the first of its polls, one every 100 ms, at which the
    registry entry carries a [lastStatusAt] not older than the start of the
    probe (a status report recorded meanwhile, also one from another
    socket): the probe then answers at once with the status and timestamp
    the entry holds at that moment. *)
Theorem probe_polling_picks_up_report (w : world) (userId : Z) (pcId probeId : string)
    (now : Z) (tl : timeline) (row : pc_row) (l : nat) (sid : string) (sk : socket)
    (k : nat) :
  userId ≠ 0 →
  selectPc pcId (pc_settings (db w)) = Some row → owner_id row = Some userId →
  connRef w pcId = Some l →
  connected (deref w l) = true → socketId (deref w l) = Some sid → sid ≠ "" →
  socketOf w sid = Some sk →
  unanswered replyTimeoutMs sid pcId probeId tl = true →
  (k < pollFuel)%nat →
  (∀ j, (j < k)%nat →
        js_or_lit (lastStatusAt
                     (deref (worldAfter (replyTimeoutMs + pollIntervalMs * j) now tl w) l)) 0
          < now) →
  now ≤ js_or_lit (lastStatusAt
                     (deref (worldAfter (replyTimeoutMs + pollIntervalMs * k) now tl w) l)) 0 →
  let run := api_pc_probe (Some userId) pcId probeId now tl w in
  let c := deref (worldAfter (replyTimeoutMs + pollIntervalMs * k) now tl w) l in
  r_now (pr_state run) = now + Z.of_nat replyTimeoutMs + Z.of_nat (pollIntervalMs * k) ∧
  pr_response run =
    Json (Probed (js_or_lit (status c) "Unknown") (js_or (lastStatusAt c) None)).
Proof.
  intros Hu Hrow Hown Hl Hconn Hsid Hsne Hsk Hquiet Hk Hbefore Hat run c. subst run c.
  rewrite (api_pc_probe_live w userId pcId probeId now _ row l sid sk) by done.
  cbv zeta. rewrite (race_unanswered _ _ _ _ _ _ _ _ _ _ _ Hquiet). cbn [fst snd].
  pose proof (pollLoop_stops pollFuel 0 k now l replyTimeoutMs now tl w
                [Emit (ToSocket sid) (StatusRequest probeId)]) as Hloop.
  replace (replyTimeoutMs + pollIntervalMs * 0)%nat with replyTimeoutMs in Hloop by lia.
  replace (Z.of_nat (pollIntervalMs * 0)) with 0 in Hloop by lia.
  rewrite Hloop; [|lia|lia|intros j Hj; apply Hbefore; lia|done].
  cbn [pr_state pr_response]. rewrite sleep_now, sleep_world. split; [lia | done].
Qed.

Lemma probe_polling_picks_up_report_witness :
  let tl := [(3150%nat, EvPcStatus "s9" (StatusData (Some "tmp1") (Some "Unlocked")) true)] in
  let run := api_pc_probe (Some 7) "tmp1" "tok" 5000 tl Sample.w0 in
  r_now (pr_state run) = 8200 ∧
  pr_response run = Json (Probed "Unlocked" (Some 8150)).
Proof.
  intros tl.
  pose proof (probe_polling_picks_up_report Sample.w0 7 "tmp1" "tok" 5000 tl Sample.lab 0
                "s1" (Socket (Some "tmp1") None) 2
                ltac:(lia) eq_refl eq_refl eq_refl eq_refl eq_refl ltac:(discriminate)
                eq_refl eq_refl ltac:(vm_compute; lia)) as H.
  cbv zeta in H. destruct H as (Hnow & Hresp).
  - intros j Hj. do 2 (destruct j as [|j]; [by vm_compute|]). lia.
  - by vm_compute.
  - split; [etrans; [exact Hnow | by vm_compute] | etrans; [exact Hresp | by vm_compute]].
Defined.

(** ** A disconnect that arrives late *)

Lemma on_pc_status_pcConn_other (w : world) (sid : string) (d : status_data) (now : Z)
    (write_ok : bool) (id k : string) :
  registry_ok w → incomingId w sid d = Some id → id ≠ "" → k ≠ id →
  pcConn (on_pc_status sid d now write_ok w).1 k = pcConn w k.
Proof.
  intros Hok Hid Hne Hk.
  rewrite (on_pc_status_resolved _ _ _ _ _ _ Hid Hne). cbv zeta. cbn [fst].
  set (l := (ensureConn id w).1).
  set (w3 := tagSocket sid id _).
  assert (connRef w3 k = connRef w k) as Hc.
  { subst w3. rewrite connRef_tagSocket, !connRef_update.
    by apply ensureConn_ref_ne. }
  assert (∀ l', connRef w k = Some l' → deref w3 l' = deref w l') as Hd.
  { intros l' Hl'. subst w3.
    pose proof (ensureConn_ref_other id k w l' Hok Hk Hl') as Hother.
    rewrite deref_tagSocket, !deref_update_ne by done.
    by apply ensureConn_deref_other. }
  assert (pcConn w3 k = pcConn w k) as Hw3.
  { unfold pcConn. rewrite Hc. destruct (connRef w k) as [l'|] eqn:Hl'; [|done].
    simpl. f_equal. by apply Hd. }
  by destruct write_ok.
Qed.

Lemma socketOf_tagSocket_ne (sid sid' id : string) (w : world) :
  sid ≠ sid' → socketOf (tagSocket sid id w) sid' = socketOf w sid'.
Proof.
  intros Hne. unfold socketOf, tagSocket. simpl.
  induction (sockets w) as [|[s0 sk] l IH]; simpl; [done|].
  destruct (decide (s0 = sid)) as [->|Hs0]; simpl.
  - rewrite !bool_decide_eq_false_2 by done. exact IH.
  - destruct (bool_decide (s0 = sid')); [done | exact IH].
Qed.

Lemma socketOf_gone (sid sid' : string) (w : world) :
  sid ≠ sid' →
  socketOf (set_sockets (List.filter (λ e : string * socket, negb (bool_decide (e.1 = sid)))
                                     (sockets w)) w) sid' = socketOf w sid'.
Proof.
  intros Hne. unfold socketOf. simpl.
  induction (sockets w) as [|[s0 sk] l IH]; simpl; [done|].
  destruct (decide (s0 = sid)) as [->|Hs0]; simpl.
  - rewrite bool_decide_eq_true_2 by done. simpl.
    rewrite bool_decide_eq_false_2 by done. exact IH.
  - rewrite (bool_decide_eq_false_2 (s0 = sid)) by done. simpl.
    destruct (bool_decide (s0 = sid')); [done | exact IH].
Qed.

Lemma keyOfSocket_None (w : world) (sid : string) :
  NoDup (JsObject.keys (pcConnections w)) →
  (∀ k l, connRef w k = Some l → socketId (deref w l) ≠ Some sid) →
  keyOfSocket w sid = None.
Proof.
  intros Hnd Hfree. unfold keyOfSocket.
  destruct (List.find _ (pcConnections w)) as [[k l]|] eqn:Hfind; [|done].
  apply List.find_some in Hfind as [Hin HP%bool_decide_eq_true]. cbn [snd] in HP.
  apply list_elem_of_In, JsObjectFacts.elem_of_NoDup_get in Hin; [|done].
  by destruct (Hfree k l Hin).
Qed.

(** X29. The disconnect of a socket takes a device offline even when the
    device is connected on another socket. When a device whose old socket
    is still tagged with its pc id reports its status on a new socket, the
    entry moves to the new socket; the disconnect of the old socket, handled
    afterwards, finds the device through the tag and marks the entry
    disconnected with no socket id, although the new socket is still
    there. *)
Theorem late_disconnect_takes_device_offline (w : world) (s1 s2 id : string)
    (d : status_data) (t1 t2 : Z) (write_ok : bool) (sk1 : socket) :
  registry_ok w → s1 ≠ s2 → id ≠ "" → sd_id d = Some id →
  socketOf w s1 = Some sk1 → sock_pcId sk1 = Some id →
  (∀ k l, connRef w k = Some l → k ≠ id → socketId (deref w l) ≠ Some s1) →
  let w1 := (on_pc_status s2 d t1 write_ok w).1 in
  let w2 := (on_disconnect s1 t2 w1).1 in
  let st := reportedStatus d (connOrEmpty w id) in
  pcConn w1 id = Some (Conn true (Some s2) (Some st) (Some t1)) ∧
  pcConn w2 id = Some (Conn false None (Some st) (Some t1)) ∧
  socketOf w2 s2 = socketOf w1 s2.
Proof.
  intros Hok Hs Hne Hd Hsk1 Htag Hfree w1 w2 st.
  pose proof (incomingId_explicit w s2 d id Hd Hne) as Hid.
  destruct (on_pc_status_entry w s2 d t1 write_ok id Hid Hne)
    as (Hentry & _ & _ & _ & Hsocks).
  fold w1 in Hentry, Hsocks. fold st in Hentry.
  assert (registry_ok w1) as Hok1 by apply (on_pc_status_ok s2 d t1 write_ok w Hok).
  assert (keyOfSocket w1 s1 = None) as Hkey.
  { apply keyOfSocket_None; [by destruct Hok1|]. intros k l Hk.
    destruct (decide (k = id)) as [->|Hkid].
    - rewrite (pcConn_ref _ _ _ Hk) in Hentry. injection Hentry as ->. cbn. congruence.
    - pose proof (on_pc_status_pcConn_other w s2 d t1 write_ok id k Hok Hid Hne Hkid)
        as Hsame.
      fold w1 in Hsame. rewrite (pcConn_ref _ _ _ Hk) in Hsame.
      destruct (connRef w k) as [l0|] eqn:Hl0.
      + rewrite (pcConn_ref _ _ _ Hl0) in Hsame. injection Hsame as ->.
        by apply (Hfree k l0).
      + unfold pcConn in Hsame. by rewrite Hl0 in Hsame. }
  assert (resolveBySocket w1 s1 = Some id) as Hres.
  { unfold resolveBySocket. rewrite Hkey.
    assert (socketOf w1 s1 = Some sk1) as ->.
    { unfold socketOf. rewrite Hsocks. fold (socketOf (tagSocket s2 id w) s1).
      by rewrite socketOf_tagSocket_ne. }
    cbn [mbind option_bind]. rewrite Htag. reflexivity. }
  split_and!.
  - done.
  - subst w2. rewrite (on_disconnect_entry w1 s1 t2 id Hres Hne).
    unfold connOrEmpty. by rewrite Hentry.
  - subst w2. rewrite (on_disconnect_resolved _ _ _ _ Hres Hne). cbv zeta. cbn [fst].
    rewrite socketOf_gone by done. unfold socketOf.
    change (sockets (set_pc_settings _ (update _ _ (update _ _ ?w0)))) with (sockets w0).
    by rewrite ensureConn_sockets.
Qed.

Lemma late_disconnect_takes_device_offline_witness :
  let w := on_connect "s2" None Sample.w0 in
  let w1 := (on_pc_status "s2" Sample.report_lab 3000 true w).1 in
  let w2 := (on_disconnect "s1" 3100 w1).1 in
  pcConn w1 "tmp1" = Some (Conn true (Some "s2") (Some "Locked") (Some 3000)) ∧
  pcConn w2 "tmp1" = Some (Conn false None (Some "Locked") (Some 3000)) ∧
  socketOf w2 "s2" = Some (Socket (Some "tmp1") None).
Proof.
  intros w.
  assert (registry_ok w) as Hok.
  { unfold registry_ok, connRef. simpl. split_and!.
    - apply NoDup_singleton.
    - intros k k' l. destruct (decide ("tmp1" = k)) as [<-|],
        (decide ("tmp1" = k')) as [<-|]; done.
    - intros k l. destruct (decide ("tmp1" = k)); [intros [= <-]; lia | done]. }
  pose proof (late_disconnect_takes_device_offline w "s1" "s2" "tmp1" Sample.report_lab
                3000 3100 true (Socket (Some "tmp1") None)
                Hok ltac:(discriminate) ltac:(discriminate) eq_refl eq_refl eq_refl) as H.
  cbv zeta in H. destruct H as (H1 & H2 & H3).
  - intros k l Hk Hne. exfalso. unfold connRef in Hk. simpl in Hk.
    by destruct (decide ("tmp1" = k)).
  - split_and!; [exact H1 | exact H2 |]. etrans; [exact H3 | by vm_compute].
Defined.

(** ** The clean-up of duplicate rows *)

Lemma seen_desc_total : Total seen_desc.
Proof.
  intros a b. unfold seen_desc.
  destruct (last_seen a) as [x|], (last_seen b) as [y|]; simpl; auto.
  rewrite !Z.ltb_ge. lia.
Qed.

Lemma seen_desc_trans : Transitive seen_desc.
Proof. intros a b c Hab Hbc. unfold seen_desc in *. by eapply seen_before_not_trans. Qed.

Lemma elem_of_selectPooky (t : list pc_row) (r : pc_row) :
  r ∈ selectPooky t ↔ r ∈ t ∧ name r = Some "POOKY-PC".
Proof.
  unfold selectPooky. rewrite merge_sort_Permutation.
  rewrite list_elem_of_In, List.filter_In, <- list_elem_of_In.
  by rewrite bool_decide_eq_true.
Qed.

Lemma elem_of_foldl_deletePc (ids : list string) (t : list pc_row) (r : pc_row) :
  r ∈ foldl deletePc t ids ↔ r ∈ t ∧ pc_id r ∉ ids.
Proof.
  revert t. induction ids as [|id ids IH]; intros t; cbn [foldl].
  - split; [intros ?; split; [done | apply not_elem_of_nil] | by intros [? _]].
  - rewrite IH. unfold deletePc.
    rewrite list_elem_of_In, List.filter_In, <- list_elem_of_In.
    rewrite negb_true_iff, bool_decide_eq_false, not_elem_of_cons. split.
    + intros [[? ?] ?]. split_and!; [done | congruence | done].
    + intros [? [? ?]]. split_and!; [done | congruence | done].
Qed.

Lemma pc_id_inj (t : list pc_row) (a b : pc_row) :
  NoDup (pc_id <$> t) → a ∈ t → b ∈ t → pc_id a = pc_id b → a = b.
Proof.
  intros Hnd Ha Hb Heq. pose proof (selectPc_key t a Hnd Ha) as Hka.
  pose proof (selectPc_key t b Hnd Hb) as Hkb. rewrite Heq, Hkb in Hka. by injection Hka.
Qed.

(** X30. The clean-up script leaves rows with other names alone and, of
    the rows named ['POOKY-PC'], keeps exactly one: a row that none of the
    others precedes under [ORDER BY last_seen DESC] (no row of that name
    was seen later). With at most one such row nothing is deleted. *)
Theorem cleanup_keeps_one_most_recent (t : list pc_row) :
  NoDup (pc_id <$> t) →
  let t' := cleanupDuplicates t in
  (∀ r, name r ≠ Some "POOKY-PC" → (r ∈ t' ↔ r ∈ t)) ∧
  (∀ r, r ∈ t' → r ∈ t) ∧
  ((length (selectPooky t) ≤ 1)%nat → t' = t) ∧
  ∀ r0, r0 ∈ t → name r0 = Some "POOKY-PC" →
        ∃ keep, keep ∈ t ∧ name keep = Some "POOKY-PC" ∧
                (∀ r, r ∈ t → name r = Some "POOKY-PC" →
                      seen_before (last_seen r) (last_seen keep) = false) ∧
                (∀ r, name r = Some "POOKY-PC" → (r ∈ t' ↔ r = keep)).
Proof.
  intros Hnd t'. subst t'. unfold cleanupDuplicates.
  pose proof (elem_of_selectPooky t) as Hpcs.
  pose proof (@StronglySorted_merge_sort _ seen_desc _ seen_desc_trans seen_desc_total
                (List.filter (λ r, bool_decide (name r = Some "POOKY-PC")) t)) as Hsorted.
  fold (selectPooky t) in Hsorted.
  assert (NoDup (selectPooky t)) as Hndp.
  { unfold selectPooky. rewrite merge_sort_Permutation.
    apply NoDup_ListNoDup, List.NoDup_filter, NoDup_ListNoDup. eapply NoDup_fmap_1. exact Hnd. }
  assert (∀ keep rest, selectPooky t = keep :: rest →
            keep ∈ t ∧ name keep = Some "POOKY-PC" ∧
            (∀ r, r ∈ t → name r = Some "POOKY-PC" →
                  seen_before (last_seen r) (last_seen keep) = false) ∧
            (∀ x, x ∈ rest → x ∈ t ∧ name x = Some "POOKY-PC" ∧ x ≠ keep)) as Hhead.
  { intros keep rest Hsel. rewrite Hsel in Hsorted, Hndp.
    assert (keep ∈ t ∧ name keep = Some "POOKY-PC") as [Hkt Hkn].
    { apply Hpcs. rewrite Hsel. left. }
    split_and!; [done | done | |].
    - intros r Hr Hn. apply StronglySorted_inv in Hsorted as [_ Hall].
      pose proof (proj2 (Hpcs r) (conj Hr Hn)) as Hin. rewrite Hsel in Hin.
      apply elem_of_cons in Hin as [->|Hin].
      + by destruct (last_seen keep); simpl; rewrite ?Z.ltb_irrefl.
      + by apply (proj1 (Forall_forall _ _) Hall).
    - intros x Hx. assert (x ∈ selectPooky t) as Hxp by (rewrite Hsel; by right).
      apply Hpcs in Hxp as [? ?]. split_and!; [done | done |]. intros ->.
      by apply NoDup_cons in Hndp as [Hk _]. }
  case_bool_decide as Hlen.
  - split_and!; [done | done | done |].
    intros r0 Hr0 Hn0. pose proof (proj2 (Hpcs r0) (conj Hr0 Hn0)) as Hin0.
    destruct (selectPooky t) as [|keep rest] eqn:Hsel; [by apply elem_of_nil in Hin0|].
    destruct rest as [|? ?]; [|cbn in Hlen; lia].
    destruct (Hhead keep [] eq_refl) as (Hkt & Hkn & Hmax & _).
    exists keep. split_and!; [done | done | done |].
    intros r Hn. split; [|by intros ->].
    intros Hr. pose proof (proj2 (Hpcs r) (conj Hr Hn)) as Hin.
    by apply list_elem_of_singleton in Hin.
  - destruct (selectPooky t) as [|keep rest] eqn:Hsel; [cbn in Hlen; lia|].
    destruct (Hhead keep rest eq_refl) as (Hkt & Hkn & Hmax & Hrest).
    cbn [drop]. split_and!.
    + intros r Hn. rewrite elem_of_foldl_deletePc. split; [by intros [? _]|].
      intros Hr. split; [done|]. intros (x & Heq & Hx)%list_elem_of_fmap.
      destruct (Hrest x Hx) as (Hxt & Hxn & _).
      apply Hn. by rewrite (pc_id_inj t r x Hnd Hr Hxt Heq).
    + intros r. rewrite elem_of_foldl_deletePc. by intros [? _].
    + intros Hle. done.
    + intros r0 Hr0 Hn0. exists keep. split_and!; [done | done | done |].
      intros r Hn. rewrite elem_of_foldl_deletePc. split.
      * intros [Hr Hnot]. pose proof (proj2 (Hpcs r) (conj Hr Hn)) as Hin.
        apply elem_of_cons in Hin as [->|Hin]; [done|].
        destruct Hnot. apply list_elem_of_fmap. by exists r.
      * intros ->. split; [done|]. intros (x & Heq & Hx)%list_elem_of_fmap.
        destruct (Hrest x Hx) as (Hxt & _ & Hxk).
        apply Hxk. symmetry. by apply (pc_id_inj t keep x Hnd Hkt Hxt Heq).
Qed.

Lemma cleanup_keeps_one_most_recent_witness :
  let old := PcRow "a1" (Some "POOKY-PC") (Some 100) (Some 7) None None None in
  let new := PcRow "a2" (Some "POOKY-PC") (Some 300) (Some 7) None None None in
  cleanupDuplicates [old; Sample.den; new] = [Sample.den; new] ∧
  ∀ r, r ∈ cleanupDuplicates [old; Sample.den; new] → r ∈ [old; Sample.den; new].
Proof.
  intros old new. split; [by vm_compute|].
  pose proof (cleanup_keeps_one_most_recent [old; Sample.den; new]
                ltac:(by apply (bool_decide_unpack _); vm_compute)) as H.
  cbv zeta in H. by destruct H as (_ & Hsub & _).
Defined.
